(** * Arcade mini-games behind the calculator: tick functions and their contracts

    A shallow embedding of the per-frame update loops of the mini-games
    (balloon keep-up, danger zone, shooter, platformer, snake, dot runner,
    sky gift, racing) together with the properties the design document
    states about them.

    Conventions of the embedding.
    - A JavaScript [number] is modelled by an exact rational ([Q]); counters
      that only ever hold integers (scores, lives, tick counters, grid cells)
      are integers ([Z]).  NaN, infinities and rounding are outside the model.
      Numeric results are compared with [==] ([Qeq]).
    - A React state updater [prev => next] is a function from the previous
      state to the next one.  Where the source mutates an object of [prev] in
      place and then returns a shallow copy of [prev], the copy holds the
      mutated object; this aliasing is written out in each return.
    - [Math.random()] is an oracle: either the drawn value is a parameter of
      the tick, or the tick reads a stream [nat -> Q] through a counter.
    - Audio cues are returned as a list next to the new state. *)

From Stdlib Require Import ZArith QArith Qround Qabs Lia Lqa List String Bool.
From stdpp Require Import gmap strings.
Import ListNotations.

#[local] Open Scope Q_scope.

(** ** Numbers: the fragment of [Math] used by the games *)

Definition Qlt_bool (a b : Q) : bool := negb (Qle_bool b a).
Definition Math_max (a b : Q) : Q := if Qle_bool a b then b else a.
Definition Math_min (a b : Q) : Q := if Qle_bool a b then a else b.
Definition Math_abs (a : Q) : Q := Qabs a.
Definition Math_floor (a : Q) : Z := Qfloor a.

(** [keys[k]] on a [Record<string, boolean>]: a missing entry is falsy. *)
Definition held (keys : gmap string bool) (k : string) : bool :=
  match keys !! k with
  | Some b => b
  | None => false
  end.

(** The functions of [Math] that have no exact rational value are taken
    from outside. *)
Record MathLib := mkMathLib {
  Math_hypot : Q -> Q -> Q;
  Math_cos : Q -> Q;
  Math_sin : Q -> Q;
  Math_atan2 : Q -> Q -> Q;
  Math_PI : Q
}.

(** ** Code that calls [Math.random()] several times

    A computation reads the stream of drawn values at a counter and returns
    the counter for the next draw. *)
Definition Rand (A : Type) : Type := (nat -> Q) -> nat -> A * nat.

Definition ret {A : Type} (a : A) : Rand A := fun _ i => (a, i).

Definition bind {A B : Type} (c : Rand A) (k : A -> Rand B) : Rand B :=
  fun rnd i => let '(a, j) := c rnd i in k a rnd j.

Definition random : Rand Q := fun rnd i => (rnd i, S i).

Notation "'do' x <- c ; k" := (bind c (fun x => k))
  (at level 20, x name, c at level 100, k at level 200, only parsing).
Notation "'do' ' pat <- c ; k" := (bind c (fun pat => k))
  (at level 20, pat pattern, c at level 100, k at level 200, only parsing).

(** Draws as [Math.random] gives them: in the interval from 0 (included)
    to 1 (excluded). *)
Definition unitDraws (rnd : nat -> Q) : Prop := forall k, 0 <= rnd k /\ rnd k < 1.

(** ** Balloon keep-up (components/KeepUpGame.tsx) *)

Module KeepUp.

Definition GAME_WIDTH : Q := 400.
Definition GAME_HEIGHT : Q := 400.
Definition BALLOON_RADIUS : Q := 25.
Definition GRAVITY_START : Q := 0.1.
Definition HIT_FORCE : Q := -5.
Definition PADDLE_WIDTH : Q := 100.
Definition PADDLE_HEIGHT : Q := 10.
Definition PADDLE_Y_POS : Q := GAME_HEIGHT - 40.
Definition YELLOW_MODE_SCORE : Z := 20.
Definition BLUE_MODE_SCORE : Z := 40.
Definition BLACK_MODE_SCORE : Z := 60.

Record Balloon := mkBalloon { x : Q; y : Q; vx : Q; vy : Q }.
Record Shockwave := mkShockwave { active : bool; size : Q; opacity : Q }.

Record GameState := mkState {
  balloon : Balloon;
  paddleX : Q;
  score : Z;
  isGameOver : bool;
  gravity : Q;
  flashTimer : Z;
  shockwave : Shockwave
}.

Inductive Cue := WallHitSound | HitSound | TransformSound | GameOverSound.

(** [createInitialState]; [r] is the value drawn for the initial [vx]. *)
Definition createInitialState (r : Q) : GameState :=
  {| balloon := {| x := GAME_WIDTH / 2; y := GAME_HEIGHT / 3;
                   vx := (r - 0.5) * 2; vy := 0 |};
     paddleX := GAME_WIDTH / 2 - PADDLE_WIDTH / 2;
     score := 0;
     isGameOver := false;
     gravity := GRAVITY_START;
     flashTimer := 0;
     shockwave := {| active := false; size := 0; opacity := 1 |} |}.

(** Lines 217-223.  [shockwaveMutated] is the object [prev.shockwave] after
    the in-place [+=]/[-=]; [shockwaveLocal] is the local variable, which is
    rebound to a fresh object once the opacity has run out. *)
Definition shockwaveMutated (sw : Shockwave) : Shockwave :=
  if active sw
  then {| active := active sw; size := size sw + 30; opacity := opacity sw - 0.05 |}
  else sw.

Definition shockwaveLocal (sw : Shockwave) : Shockwave :=
  let m := shockwaveMutated sw in
  if active sw && Qle_bool (opacity m) 0
  then {| active := false; size := size m; opacity := opacity m |}
  else m.

(** Lines 226-228: gravity, then position from the new velocity. *)
Definition applyPhysics (g : Q) (b : Balloon) : Balloon :=
  let vy1 := vy b + g in
  {| x := x b + vx b; y := y b + vy1; vx := vx b; vy := vy1 |}.

Definition crossesSideWall (b : Balloon) : bool :=
  Qlt_bool (x b) BALLOON_RADIUS || Qlt_bool (GAME_WIDTH - BALLOON_RADIUS) (x b).

Definition crossesCeiling (b : Balloon) : bool :=
  Qlt_bool (y b) BALLOON_RADIUS.

(** Lines 231-235. *)
Definition sideWalls (b : Balloon) : Balloon :=
  if crossesSideWall b
  then {| x := Math_max BALLOON_RADIUS (Math_min (x b) (GAME_WIDTH - BALLOON_RADIUS));
          y := y b; vx := vx b * -0.95; vy := vy b |}
  else b.

(** Lines 236-240. *)
Definition ceiling (b : Balloon) : Balloon :=
  if crossesCeiling b
  then {| x := x b; y := BALLOON_RADIUS; vx := vx b; vy := vy b * -0.9 |}
  else b.

Definition wallCues (b : Balloon) : list Cue :=
  (if crossesSideWall b then [WallHitSound] else []) ++
  (if crossesCeiling (sideWalls b) then [WallHitSound] else []).

Definition wallCollisions (b : Balloon) : Balloon := ceiling (sideWalls b).

(** Lines 242-247. *)
Definition hitPaddle (b : Balloon) (paddle : Q) : bool :=
  Qlt_bool 0 (vy b) &&
  Qle_bool PADDLE_Y_POS (y b + BALLOON_RADIUS) &&
  Qlt_bool (y b - BALLOON_RADIUS) (PADDLE_Y_POS + PADDLE_HEIGHT) &&
  Qlt_bool paddle (x b + BALLOON_RADIUS) &&
  Qlt_bool (x b - BALLOON_RADIUS) (paddle + PADDLE_WIDTH).

Definition isThreshold (newScore : Z) : bool :=
  (newScore =? YELLOW_MODE_SCORE)%Z || (newScore =? BLUE_MODE_SCORE)%Z ||
  (newScore =? BLACK_MODE_SCORE)%Z.

(** Lines 266-279: tier parameters for the score reached by this hit. *)
Definition forceMultiplier (newScore : Z) : Q :=
  if (BLACK_MODE_SCORE <=? newScore)%Z then 1.3
  else if (BLUE_MODE_SCORE <=? newScore)%Z then 1.2
  else if (YELLOW_MODE_SCORE <=? newScore)%Z then 1.1
  else 1.

Definition vxMultiplier (newScore : Z) : Q :=
  if (BLACK_MODE_SCORE <=? newScore)%Z then 6.5
  else if (BLUE_MODE_SCORE <=? newScore)%Z then 6
  else if (YELLOW_MODE_SCORE <=? newScore)%Z then 5.5
  else 5.

Definition tierGravity (newScore : Z) (g : Q) : Q :=
  let newGravity := Math_min 0.4 (g + 0.002) in
  if (BLACK_MODE_SCORE <=? newScore)%Z then Math_max newGravity 0.3
  else if (BLUE_MODE_SCORE <=? newScore)%Z then Math_max newGravity 0.25
  else if (YELLOW_MODE_SCORE <=? newScore)%Z then Math_max newGravity 0.2
  else newGravity.

(** The state updater of [gameLoop] (lines 210-307).  [r] is the value of
    the one [Math.random()] call, made only on a paddle hit. *)
Definition gameLoop (r : Q) (prev : GameState) : GameState * list Cue :=
  if isGameOver prev then (prev, [])
  else
    let flashTimer1 :=
      if (0 <? flashTimer prev)%Z then (flashTimer prev - 1)%Z else flashTimer prev in
    let shockwave1 := shockwaveLocal (shockwave prev) in
    let moved := applyPhysics (gravity prev) (balloon prev) in
    let b := wallCollisions moved in
    let cues := wallCues moved in
    if hitPaddle b (paddleX prev) then
      let newScore := (score prev + 1)%Z in
      let fired := isThreshold newScore in
      let paddleCenter := paddleX prev + PADDLE_WIDTH / 2 in
      let hitPosition := (x b - paddleCenter) / (PADDLE_WIDTH / 2) in
      ({| balloon := {| x := x b;
                        y := PADDLE_Y_POS - BALLOON_RADIUS;
                        vx := hitPosition * vxMultiplier newScore;
                        vy := (HIT_FORCE + r * -1) * forceMultiplier newScore |};
          paddleX := paddleX prev;
          score := newScore;
          isGameOver := isGameOver prev;
          gravity := tierGravity newScore (gravity prev);
          flashTimer := if fired then 15%Z else flashTimer1;
          shockwave := if fired
                       then {| active := true; size := 0; opacity := 1 |}
                       else shockwave1 |},
       cues ++ [HitSound] ++ (if fired then [TransformSound] else []))
    else if Qlt_bool GAME_HEIGHT (y b) then
      (* [{ ...prev, isGameOver: true }]: [prev.balloon] and [prev.shockwave]
         are the objects mutated above; [prev.flashTimer] is a primitive and
         keeps its old value. *)
      ({| balloon := b;
          paddleX := paddleX prev;
          score := score prev;
          isGameOver := true;
          gravity := gravity prev;
          flashTimer := flashTimer prev;
          shockwave := shockwaveMutated (shockwave prev) |},
       cues ++ [GameOverSound])
    else
      ({| balloon := b;
          paddleX := paddleX prev;
          score := score prev;
          isGameOver := isGameOver prev;
          gravity := gravity prev;
          flashTimer := flashTimer1;
          shockwave := shockwave1 |},
       cues).

(** [handlePointerMove] (lines 176-187).  The guard reads the rendered
    snapshot; the updater then acts on the current state. *)
Definition handlePointerMove (rendered : GameState) (rectLeft scale clientX : Q)
    (prev : GameState) : GameState :=
  if isGameOver rendered then prev
  else
    let gameX := (clientX - rectLeft) / scale in
    {| balloon := balloon prev;
       paddleX := Math_max 0 (Math_min (gameX - PADDLE_WIDTH / 2) (GAME_WIDTH - PADDLE_WIDTH));
       score := score prev;
       isGameOver := isGameOver prev;
       gravity := gravity prev;
       flashTimer := flashTimer prev;
       shockwave := shockwave prev |}.


(** The balloon dropped from the initial state (initial draw 0.5, hence no
    horizontal motion) as it is after 63 ticks, fractions reduced: one tick
    before it first meets the paddle. *)
Definition aboveThePaddle : GameState :=
  {| balloon := {| x := 200; y := 5024 # 15; vx := 0; vy := 6.3 |};
     paddleX := GAME_WIDTH / 2 - PADDLE_WIDTH / 2;
     score := 0;
     isGameOver := false;
     gravity := GRAVITY_START;
     flashTimer := 0;
     shockwave := {| active := false; size := 0; opacity := 1 |} |}.

(** Equality of states up to the representation of fractions. *)
Definition sameState (a b : GameState) : bool :=
  Qeq_bool (x (balloon a)) (x (balloon b)) && Qeq_bool (y (balloon a)) (y (balloon b)) &&
  Qeq_bool (vx (balloon a)) (vx (balloon b)) && Qeq_bool (vy (balloon a)) (vy (balloon b)) &&
  Qeq_bool (paddleX a) (paddleX b) && (score a =? score b)%Z &&
  eqb (isGameOver a) (isGameOver b) && Qeq_bool (gravity a) (gravity b) &&
  (flashTimer a =? flashTimer b)%Z &&
  eqb (active (shockwave a)) (active (shockwave b)) &&
  Qeq_bool (size (shockwave a)) (size (shockwave b)) &&
  Qeq_bool (opacity (shockwave a)) (opacity (shockwave b)).

(** [n] ticks drawing [r], none of which scores (so none meets the paddle
    test), lead from [s] to [target]. *)
Fixpoint dropsTo (n : nat) (r : Q) (s target : GameState) : bool :=
  match n with
  | O => sameState s target
  | S n' =>
      let s' := fst (gameLoop r s) in
      (score s' =? score s)%Z && dropsTo n' r s' target
  end.

(** What can happen during one session (no restart). *)
Inductive Action :=
| Tick (r : Q)
| PointerMove (rectLeft scale clientX : Q).

Definition step (a : Action) (s : GameState) : GameState * list Cue :=
  match a with
  | Tick r => gameLoop r s
  | PointerMove rectLeft scale clientX =>
      (handlePointerMove s rectLeft scale clientX s, [])
  end.

(** A run: the states and cues after each action, oldest first. *)
Fixpoint run (acts : list Action) (s : GameState) : list (GameState * list Cue) :=
  match acts with
  | [] => []
  | a :: rest => let r := step a s in r :: run rest (fst r)
  end.

Definition final (acts : list Action) (s : GameState) : GameState :=
  fold_left (fun st a => fst (step a st)) acts s.

Definition isTransform (c : Cue) : bool :=
  match c with TransformSound => true | _ => false end.

(** The threshold event of score [t] fires in a step when the transform cue
    is played and the step leaves the score at [t]. *)
Definition firesAt (t : Z) (o : GameState * list Cue) : bool :=
  existsb isTransform (snd o) && (score (fst o) =? t)%Z.

Definition firings (t : Z) (trace : list (GameState * list Cue)) : nat :=
  List.length (List.filter (firesAt t) trace).

(** *** Persistence on game over (lines 135, 155-174)

    [localStorage] holds decimal strings written by [toString] and read back
    by [parseInt(.. || '0', 10)]; it is modelled as a finite map to the
    integers they denote, a missing key reading as 0. *)
Definition getInt (ls : gmap string Z) (key : string) : Z :=
  match ls !! key with
  | Some v => v
  | None => 0%Z
  end.

Record Component := mkComponent {
  gameState : GameState;
  coinsAwardedRef : bool;
  effectDeps : option (bool * Z)   (* dependencies seen by the last effect run *)
}.

(** Body of the effect. *)
Definition awardEffect (gs : GameState) (ref : bool) (ls : gmap string Z)
    : bool * gmap string Z :=
  if isGameOver gs && negb ref then
    let currentCoins := getInt ls "platformer_totalCoins" in
    let ls1 := <["platformer_totalCoins" := (currentCoins + score gs)%Z]> ls in
    let currentBest := getInt ls1 "keepup_best" in
    (true, if (currentBest <? score gs)%Z then <["keepup_best" := score gs]> ls1 else ls1)
  else (ref, ls).

Definition depsChanged (old : option (bool * Z)) (gs : GameState) : bool :=
  match old with
  | None => true
  | Some (g, sc) => negb (eqb g (isGameOver gs) && (sc =? score gs)%Z)
  end.

(** One render commit: the effect runs when [isGameOver] or [score] changed. *)
Definition commit (c : Component) (ls : gmap string Z) : Component * gmap string Z :=
  if depsChanged (effectDeps c) (gameState c) then
    let '(ref, ls') := awardEffect (gameState c) (coinsAwardedRef c) ls in
    ({| gameState := gameState c; coinsAwardedRef := ref;
        effectDeps := Some (isGameOver (gameState c), score (gameState c)) |}, ls')
  else (c, ls).

Definition mount (r : Q) (ls : gmap string Z) : Component * gmap string Z :=
  commit {| gameState := createInitialState r; coinsAwardedRef := false;
            effectDeps := None |} ls.

Definition restartGame (r : Q) (c : Component) : Component :=
  {| gameState := createInitialState r; coinsAwardedRef := false;
     effectDeps := effectDeps c |}.

(** An action followed by the render it causes. *)
Definition act (a : Action) (w : Component * gmap string Z) : Component * gmap string Z :=
  let c := fst w in
  commit {| gameState := fst (step a (gameState c));
            coinsAwardedRef := coinsAwardedRef c;
            effectDeps := effectDeps c |} (snd w).

Definition acts (l : list Action) (w : Component * gmap string Z)
    : Component * gmap string Z :=
  fold_left (fun st a => act a st) l w.

(** While a session is running the effect has nothing to do: the store is
    the one found at mount, the award flag is down, and the recorded
    dependencies are those of the current state. *)
Definition running (ls0 : gmap string Z) (w : Component * gmap string Z) : Prop :=
  effectDeps (fst w) = Some (isGameOver (gameState (fst w)), score (gameState (fst w))) /\
  (0 <= score (gameState (fst w)))%Z /\
  (isGameOver (gameState (fst w)) = false ->
   coinsAwardedRef (fst w) = false /\ snd w = ls0).

(** After the award: the flag is up and the store is [ls]. *)
Definition awarded (ls : gmap string Z) (w : Component * gmap string Z) : Prop :=
  isGameOver (gameState (fst w)) = true /\ coinsAwardedRef (fst w) = true /\ snd w = ls.

(** A pointer move whose scale is not 0, so that the division of line 180
    is a division of numbers. *)
Definition wellScaled (a : Action) : Prop :=
  match a with
  | Tick _ => True
  | PointerMove _ scale _ => ~ scale == 0
  end.




(** The flash and the shockwave as the states before and after a step show
    them, whatever cue is played: the flash starts when the flash timer goes
    up; a wave starts when the state after the step shows an active wave
    where there was none, or one smaller than the wave before. *)
Definition flashStarted (s s' : GameState) : bool :=
  (flashTimer s <? flashTimer s')%Z.

Definition waveStarted (s s' : GameState) : bool :=
  active (shockwave s') &&
  (negb (active (shockwave s)) || Qlt_bool (size (shockwave s')) (size (shockwave s))).

(** The number of steps of a run from [s] at which [ev] holds of the state
    before and the state after the step. *)
Fixpoint starts (ev : GameState -> GameState -> bool) (acts : list Action) (s : GameState)
    : nat :=
  match acts with
  | [] => 0%nat
  | a :: rest =>
      let s' := fst (step a s) in
      ((if ev s s' then 1 else 0) + starts ev rest s')%nat
  end.

(** The thresholds above [lo] and up to [hi]. *)
Definition thresholdsPassed (lo hi : Z) : nat :=
  List.length (List.filter (fun t => (lo <? t)%Z && (t <=? hi)%Z)
                 [YELLOW_MODE_SCORE; BLUE_MODE_SCORE; BLACK_MODE_SCORE]).


(** What a session keeps true of the flash and the wave: the flash timer is
    at most 15, and at 15 only while the score is on a threshold; the wave
    has a size of 0 or more, and an active wave of size 0 is seen only while
    the score is on a threshold. *)
Definition eventInvariant (s : GameState) : Prop :=
  (flashTimer s <= 15)%Z /\
  (flashTimer s = 15%Z -> isThreshold (score s) = true) /\
  0 <= size (shockwave s) /\
  (active (shockwave s) = true -> 0 < size (shockwave s) \/ isThreshold (score s) = true).

End KeepUp.

(** ** Danger zone (components/DangerGame.tsx) *)

Module Danger.

Definition GAME_WIDTH : Q := 400.
Definition GAME_HEIGHT : Q := 400.
Definition PLAYER_SIZE : Q := 20.
Definition OBSTACLE_SIZE : Q := 25.
Definition PLAYER_SPEED : Q := 8.

Record Player := mkPlayer { x : Q; y : Q }.
Record Obstacle := mkObstacle { id : Q; ox : Q; oy : Q; ovx : Q; ovy : Q }.

(** The component keeps five separate pieces of state. *)
Record GameState := mkState {
  player : Player;
  obstacles : list Obstacle;
  time : Z;
  isGameOver : bool;
  keys : gmap string bool
}.

Definition initialPlayer : Player :=
  {| x := GAME_WIDTH / 2 - PLAYER_SIZE / 2; y := GAME_HEIGHT / 2 - PLAYER_SIZE / 2 |}.

Definition initialState : GameState :=
  {| player := initialPlayer; obstacles := []; time := 0; isGameOver := false;
     keys := ∅ |}.

Definition restartGame (s : GameState) : GameState := initialState.

Definition handleKeyPress (key : string) (s : GameState) : GameState :=
  {| player := player s; obstacles := obstacles s; time := time s;
     isGameOver := isGameOver s; keys := <[key := true]> (keys s) |}.

Definition handleKeyRelease (key : string) (s : GameState) : GameState :=
  {| player := player s; obstacles := obstacles s; time := time s;
     isGameOver := isGameOver s; keys := <[key := false]> (keys s) |}.

(** The updater passed to [setPlayer] (lines 75-86); [ks] is the [keys]
    snapshot of the render that created the callback. *)
Definition movePlayerUpdater (ks : gmap string bool) (p : Player) : Player :=
  let y1 := if held ks "ArrowUp" || held ks "w" then y p - PLAYER_SPEED else y p in
  let y2 := if held ks "ArrowDown" || held ks "s" then y1 + PLAYER_SPEED else y1 in
  let x1 := if held ks "ArrowLeft" || held ks "a" then x p - PLAYER_SPEED else x p in
  let x2 := if held ks "ArrowRight" || held ks "d" then x1 + PLAYER_SPEED else x1 in
  {| x := Math_max 0 (Math_min x2 (GAME_WIDTH - PLAYER_SIZE));
     y := Math_max 0 (Math_min y2 (GAME_HEIGHT - PLAYER_SIZE)) |}.

(** [movePlayer] (lines 73-87): guarded by the rendered [isGameOver]. *)
Definition movePlayer (rendered : GameState) (p : Player) : Player :=
  if isGameOver rendered then p else movePlayerUpdater (keys rendered) p.

Definition moveObstacle (o : Obstacle) : Obstacle :=
  {| id := id o; ox := ox o + ovx o; oy := oy o + ovy o; ovx := ovx o; ovy := ovy o |}.

Definition onField (o : Obstacle) : bool :=
  Qlt_bool (- OBSTACLE_SIZE) (ox o) && Qlt_bool (ox o) (GAME_WIDTH + OBSTACLE_SIZE) &&
  Qlt_bool (- OBSTACLE_SIZE) (oy o) && Qlt_bool (oy o) (GAME_HEIGHT + OBSTACLE_SIZE).

Definition collides (p : Player) (o : Obstacle) : bool :=
  Qlt_bool (x p) (ox o + OBSTACLE_SIZE) && Qlt_bool (ox o) (x p + PLAYER_SIZE) &&
  Qlt_bool (y p) (oy o + OBSTACLE_SIZE) && Qlt_bool (oy o) (y p + PLAYER_SIZE).

(** The main loop (lines 90-116).  Values read from the closure come from
    [rendered]; functional updates act on [cur]. *)
Definition mainLoop (rendered cur : GameState) : GameState :=
  if isGameOver rendered then cur
  else
    let newObstacles := List.filter onField (List.map moveObstacle (obstacles rendered)) in
    {| player := movePlayer rendered (player cur);
       obstacles := newObstacles;
       time := (time cur + 1)%Z;
       isGameOver := if existsb (collides (player rendered)) newObstacles
                     then true else isGameOver cur;
       keys := keys cur |}.

(** A scheduler tick on a component whose last render shows [s]. *)
Definition tick (s : GameState) : GameState := mainLoop s s.

(** The obstacle spawner (lines 119-147); [r1]..[r4] are the four draws in
    program order and [now] is [Date.now()]. *)
Definition spawnObstacle (rendered : GameState) (now r1 r2 r3 r4 : Q)
    (cur : GameState) : GameState :=
  if isGameOver rendered then cur
  else
    let edge := Math_floor (r1 * 4) in
    let speed := 1.5 + r2 * 2.5 in
    let o :=
      if (edge =? 0)%Z then
        {| id := now; ox := r3 * GAME_WIDTH; oy := - OBSTACLE_SIZE;
           ovx := r4 * 4 - 2; ovy := speed |}
      else if (edge =? 1)%Z then
        {| id := now; ox := GAME_WIDTH; oy := r3 * GAME_HEIGHT;
           ovx := - speed; ovy := r4 * 4 - 2 |}
      else if (edge =? 2)%Z then
        {| id := now; ox := r3 * GAME_WIDTH; oy := GAME_HEIGHT;
           ovx := r4 * 4 - 2; ovy := - speed |}
      else
        {| id := now; ox := - OBSTACLE_SIZE; oy := r3 * GAME_HEIGHT;
           ovx := speed; ovy := r4 * 4 - 2 |} in
    {| player := player cur; obstacles := obstacles cur ++ [o]; time := time cur;
       isGameOver := isGameOver cur; keys := keys cur |}.


(** Player positions that can occur: the start position (mount and restart)
    and whatever [setPlayer] produces from one that can occur. *)
Inductive reachablePlayer : Player -> Prop :=
| reach_start : reachablePlayer initialPlayer
| reach_move (ks : gmap string bool) (p : Player) :
    reachablePlayer p -> reachablePlayer (movePlayerUpdater ks p).



End Danger.

(** ** Shooter (ShooterGame) *)

Module Shooter.

Definition GAME_WIDTH : Q := 500.
Definition GAME_HEIGHT : Q := 500.
Definition SHIELD_RADIUS : Q := 50.
Definition PLAYER_PROJECTILE_SPEED : Q := 6.
Definition ENEMY_SPAWN_RATE_START : Q := 1000.
Definition ENEMY_SPEED_START : Q := 1.
Definition BASE_SHIELD_MAX_HP : Z := 100.
Definition PLAYER_RADIUS : Q := 12.
Definition PLAYER_SPEED : Q := 3.5.
Definition FIRE_RATE_COST : Z := 150.
Definition HP_BOOST_COST : Z := 100.
Definition POWERUP_DURATION : Z := 20 * 60.
Definition SHOTGUN_COST : Z := 200.
Definition TRISHOT_COST : Z := 600.

Inductive EnemyType := normal | zombie.
Inductive Weapon := default | shotgun | trishot.

Record Player := mkPlayer { x : Q; y : Q; vx : Q; vy : Q; angle : Q }.

Record GameObject := mkGameObject {
  p_id : Q; p_x : Q; p_y : Q; p_vx : Q; p_vy : Q; p_radius : Q
}.

Record Enemy := mkEnemy {
  e_id : Q; e_x : Q; e_y : Q; e_vx : Q; e_vy : Q; e_radius : Q;
  hp : Z; type : EnemyType
}.

Record Explosion := mkExplosion {
  ex_id : Q; ex_x : Q; ex_y : Q; ex_radius : Q; duration : Q
}.

Record PowerUpState := mkPowerUps { fireRate : Z; hpBoost : Z }.

Record UnlockAnimation := mkUnlock { active : bool; text : string; timer : Z }.

Record GameState := mkState {
  player : Player;
  projectiles : list GameObject;
  enemies : list Enemy;
  explosions : list Explosion;
  shieldHp : Z;
  score : Z;
  isGameOver : bool;
  isShooting : bool;
  shootCooldown : Q;
  gameTime : Z;
  powerUps : PowerUpState;
  isShopOpen : bool;
  unlockAnimation : UnlockAnimation
}.

Definition createInitialState : GameState :=
  {| player := {| x := GAME_WIDTH / 2; y := GAME_HEIGHT / 2; vx := 0; vy := 0; angle := 0 |};
     projectiles := []; enemies := []; explosions := [];
     shieldHp := BASE_SHIELD_MAX_HP; score := 0; isGameOver := false;
     isShooting := false; shootCooldown := 0; gameTime := 0;
     powerUps := {| fireRate := 0; hpBoost := 0 |};
     isShopOpen := false;
     unlockAnimation := {| active := false; text := ""; timer := 0 |} |}.

(** Lines 391-395. *)
Definition updateAnimation (ua : UnlockAnimation) : UnlockAnimation :=
  if (0 <? timer ua)%Z
  then {| active := active ua; text := text ua; timer := (timer ua - 1)%Z |}
  else if active ua
       then {| active := false; text := text ua; timer := timer ua |}
       else ua.

(** Lines 400-403. *)
Definition movePlayer (p : Player) : Player :=
  {| x := Math_max PLAYER_RADIUS (Math_min (GAME_WIDTH - PLAYER_RADIUS) (x p + vx p));
     y := Math_max PLAYER_RADIUS (Math_min (GAME_HEIGHT - PLAYER_RADIUS) (y p + vy p));
     vx := vx p; vy := vy p; angle := angle p |}.

(** One projectile fired from the player at [deg] degrees (the object
    pushed in lines 426-431, 438-443 and 448-453). *)
Definition fire (M : MathLib) (now : Q) (p : Player) (deg : Q) : Rand GameObject :=
  do r <- random ;
  let angleRad := deg * (Math_PI M / 180) in
  ret {| p_id := now + r; p_x := x p; p_y := y p;
         p_vx := Math_cos M angleRad * PLAYER_PROJECTILE_SPEED;
         p_vy := Math_sin M angleRad * PLAYER_PROJECTILE_SPEED;
         p_radius := 5 |}.

(** [offsets.forEach(offset => projectiles.push(..))]. *)
Fixpoint fireSpread (M : MathLib) (now : Q) (p : Player) (offsets : list Q)
    (acc : list GameObject) : Rand (list GameObject) :=
  match offsets with
  | [] => ret acc
  | o :: rest =>
      do g <- fire M now p (angle p + o) ; fireSpread M now p rest (acc ++ [g])
  end.

(** Lines 416-457: returns the projectile list and the new cooldown. *)
Definition shooting (M : MathLib) (equippedWeapon : Weapon) (now : Q) (p : Player)
    (pu : PowerUpState) (shoot : bool) (cooldown : Q) (ps : list GameObject)
    : Rand (list GameObject * Q) :=
  let newShootCooldown := Math_max 0 (cooldown - 1) in
  if shoot && Qeq_bool newShootCooldown 0 then
    do '(baseCooldown, ps') <-
      match equippedWeapon with
      | shotgun => do l <- fireSpread M now p [-7.5; 7.5] ps ; ret (15, l)
      | trishot => do l <- fireSpread M now p [-15; 0; 15] ps ; ret (20, l)
      | default => do g <- fire M now p (angle p) ; ret (10, ps ++ [g])
      end ;
    ret (ps', if (0 <? fireRate pu)%Z then baseCooldown / 2 else baseCooldown)
  else ret (ps, newShootCooldown).

Definition moveProjectile (g : GameObject) : GameObject :=
  {| p_id := p_id g; p_x := p_x g + p_vx g; p_y := p_y g + p_vy g;
     p_vx := p_vx g; p_vy := p_vy g; p_radius := p_radius g |}.

Definition projectileOnField (g : GameObject) : bool :=
  Qlt_bool 0 (p_x g) && Qlt_bool (p_x g) GAME_WIDTH &&
  Qlt_bool 0 (p_y g) && Qlt_bool (p_y g) GAME_HEIGHT.

Definition moveEnemy (e : Enemy) : Enemy :=
  {| e_id := e_id e; e_x := e_x e + e_vx e; e_y := e_y e + e_vy e;
     e_vx := e_vx e; e_vy := e_vy e; e_radius := e_radius e;
     hp := hp e; type := type e |}.

(** Lines 467-486. *)
Definition spawnEnemies (M : MathLib) (now : Q) (p : Player) (newGameTime : Z)
    (es : list Enemy) : Rand (list Enemy) :=
  let spawnRateFactor := inject_Z newGameTime / 20 in
  let currentSpawnRate := Math_max 200 (ENEMY_SPAWN_RATE_START - spawnRateFactor) in
  do r <- random ;
  if Qlt_bool r (16 / currentSpawnRate) then
    do ra <- random ;
    let spawnAngle := ra * Math_PI M * 2 in
    let spawnDist := Math_max (GAME_WIDTH / 2) (GAME_HEIGHT / 2) + 50 in
    let spawnX := x p + Math_cos M spawnAngle * spawnDist in
    let spawnY := y p + Math_sin M spawnAngle * spawnDist in
    let targetAngle := Math_atan2 M (y p - spawnY) (x p - spawnX) in
    let speedFactor := inject_Z newGameTime / 2000 in
    let baseSpeed := ENEMY_SPEED_START + speedFactor in
    do asZombie <- (if (60 * 5 <? newGameTime)%Z
                 then do rz <- random ; ret (Qlt_bool rz 0.25)
                 else ret false) ;
    do rid <- random ;
    do rrad <- random ;
    if asZombie : bool then
      ret (es ++ [{| e_id := now + rid; e_x := spawnX; e_y := spawnY;
                     e_vx := Math_cos M targetAngle * (baseSpeed * 0.2);
                     e_vy := Math_sin M targetAngle * (baseSpeed * 0.2);
                     e_radius := 15 + rrad * 5; hp := 2; type := zombie |}])
    else
      ret (es ++ [{| e_id := now + rid; e_x := spawnX; e_y := spawnY;
                     e_vx := Math_cos M targetAngle * baseSpeed;
                     e_vy := Math_sin M targetAngle * baseSpeed;
                     e_radius := 10 + rrad * 10; hp := 1; type := normal |}])
  else ret es.

(** What the collision loops accumulate. *)
Record Tally := mkTally { t_explosions : list Explosion; t_score : Z }.

(** The inner loop of lines 497-509 for one projectile [g]: the enemies with
    their hit points updated in place, and whether [g] hit any. *)
Fixpoint hitEnemies (M : MathLib) (now : Q) (g : GameObject) (es : list Enemy)
    (hit : bool) (t : Tally) : Rand (list Enemy * bool * Tally) :=
  match es with
  | [] => ret ([], hit, t)
  | e :: rest =>
      if (hp e <=? 0)%Z then
        do '(rest', hit', t') <- hitEnemies M now g rest hit t ;
        ret (e :: rest', hit', t')
      else
        let dist := Math_hypot M (p_x g - e_x e) (p_y g - e_y e) in
        if Qlt_bool dist (p_radius g + e_radius e) then
          do r1 <- random ;
          let e1 := {| e_id := e_id e; e_x := e_x e; e_y := e_y e; e_vx := e_vx e;
                       e_vy := e_vy e; e_radius := e_radius e;
                       hp := (hp e - 1)%Z; type := type e |} in
          let ex1 := t_explosions t ++
                     [{| ex_id := now + r1; ex_x := e_x e; ex_y := e_y e;
                         ex_radius := e_radius e * 1.5; duration := 15 |}] in
          do t1 <- (if (hp e1 <=? 0)%Z then
                   do r2 <- random ;
                   ret {| t_explosions :=
                            ex1 ++ [{| ex_id := now + r2; ex_x := e_x e; ex_y := e_y e;
                                       ex_radius := e_radius e * 3; duration := 30 |}];
                          t_score := (t_score t +
                                      match type e with zombie => 25 | normal => 10 end)%Z |}
                 else ret {| t_explosions := ex1; t_score := t_score t |}) ;
          do '(rest', hit', t') <- hitEnemies M now g rest true t1 ;
          ret (e1 :: rest', hit', t')
        else
          do '(rest', hit', t') <- hitEnemies M now g rest hit t ;
          ret (e :: rest', hit', t')
  end.

(** The outer loop of lines 495-511: enemies, surviving projectiles, tally. *)
Fixpoint projectilesVsEnemies (M : MathLib) (now : Q) (ps : list GameObject)
    (es : list Enemy) (remaining : list GameObject) (t : Tally)
    : Rand (list Enemy * list GameObject * Tally) :=
  match ps with
  | [] => ret (es, remaining, t)
  | g :: rest =>
      do '(es', hit, t') <- hitEnemies M now g es false t ;
      projectilesVsEnemies M now rest es'
        (if hit : bool then remaining else remaining ++ [g]) t'
  end.

(** Lines 516-527: enemies that reach the shield cost 10 hit points each. *)
Fixpoint enemiesVsShield (M : MathLib) (now : Q) (p : Player) (es : list Enemy)
    (finalEnemies : list Enemy) (newShieldHp : Z) (exs : list Explosion)
    : Rand (list Enemy * Z * list Explosion) :=
  match es with
  | [] => ret (finalEnemies, newShieldHp, exs)
  | e :: rest =>
      let distToPlayer := Math_hypot M (e_x e - x p) (e_y e - y p) in
      if Qlt_bool distToPlayer (SHIELD_RADIUS + e_radius e) then
        do r <- random ;
        enemiesVsShield M now p rest finalEnemies (newShieldHp - 10)%Z
          (exs ++ [{| ex_id := now + r; ex_x := e_x e; ex_y := e_y e;
                      ex_radius := e_radius e * 3; duration := 30 |}])
      else enemiesVsShield M now p rest (finalEnemies ++ [e]) newShieldHp exs
  end.

(** Lines 532-535: the [n] remaining rounds of the final burst, from [i]. *)
Fixpoint finalBurst (M : MathLib) (now : Q) (p : Player) (n : nat) (i : Q)
    (exs : list Explosion) : Rand (list Explosion) :=
  match n with
  | O => ret exs
  | S n' =>
      do ra <- random ;
      let a := ra * Math_PI M * 2 in
      do rid <- random ;
      do rx <- random ;
      do ry <- random ;
      do rr <- random ;
      do rd <- random ;
      finalBurst M now p n' (i + 1)
        (exs ++ [{| ex_id := now + rid + i;
                    ex_x := x p + Math_cos M a * (SHIELD_RADIUS * rx);
                    ex_y := y p + Math_sin M a * (SHIELD_RADIUS * ry);
                    ex_radius := 20 + rr * 40; duration := 30 + rd * 30 |}])
  end.

Definition ageExplosion (ex : Explosion) : Explosion :=
  {| ex_id := ex_id ex; ex_x := ex_x ex; ex_y := ex_y ex; ex_radius := ex_radius ex;
     duration := duration ex - 1 |}.

(** The locals of [gameLoop] when it reaches the shield check of line 529. *)
Record Frame := mkFrame {
  f_player : Player;
  f_projectiles : list GameObject;
  f_enemies : list Enemy;
  f_explosions : list Explosion;
  f_score : Z;
  f_shieldHp : Z;          (* [newShieldHp] after the enemy hits of this tick *)
  f_shootCooldown : Q;
  f_gameTime : Z;
  f_powerUps : PowerUpState;
  f_unlockAnimation : UnlockAnimation
}.

(** Lines 386-527 of [gameLoop]; [equippedWeapon] comes from the closure and
    [now] is [Date.now()]. *)
Definition untilShieldCheck (M : MathLib) (equippedWeapon : Weapon) (now : Q)
    (prev : GameState) : Rand Frame :=
  let unlockAnimation1 := updateAnimation (unlockAnimation prev) in
  let newGameTime := (gameTime prev + 1)%Z in
  let player1 := movePlayer (player prev) in
  let justExpiredHpBoost :=
    (0 <? hpBoost (powerUps prev))%Z && (hpBoost (powerUps prev) - 1 <=? 0)%Z in
  let powerUps1 := {| fireRate := Z.max 0 (fireRate (powerUps prev) - 1);
                      hpBoost := Z.max 0 (hpBoost (powerUps prev) - 1) |} in
  let shieldHp1 := if justExpiredHpBoost
                   then Z.min (shieldHp prev) BASE_SHIELD_MAX_HP
                   else shieldHp prev in
  do '(fired, newShootCooldown) <-
    shooting M equippedWeapon now player1 powerUps1 (isShooting prev)
             (shootCooldown prev) (projectiles prev) ;
  let projectiles1 := List.filter projectileOnField (List.map moveProjectile fired) in
  let enemies1 := List.map moveEnemy (enemies prev) in
  do enemies2 <- spawnEnemies M now player1 newGameTime enemies1 ;
  do '(enemies3, remainingProjectiles, tally) <-
    projectilesVsEnemies M now projectiles1 enemies2 []
      {| t_explosions := explosions prev; t_score := score prev |} ;
  let remainingEnemies := List.filter (fun e => (0 <? hp e)%Z) enemies3 in
  do '(finalEnemies, hpAfterHits, explosions1) <-
    enemiesVsShield M now player1 remainingEnemies [] shieldHp1 (t_explosions tally) ;
  ret {| f_player := player1; f_projectiles := remainingProjectiles;
         f_enemies := finalEnemies; f_explosions := explosions1;
         f_score := t_score tally; f_shieldHp := hpAfterHits;
         f_shootCooldown := newShootCooldown; f_gameTime := newGameTime;
         f_powerUps := powerUps1; f_unlockAnimation := unlockAnimation1 |}.

(** The state updater of [gameLoop] (lines 383-542). *)
Definition gameLoop (M : MathLib) (equippedWeapon : Weapon) (now : Q)
    (prev : GameState) : Rand GameState :=
  if isGameOver prev || isShopOpen prev then ret prev
  else
    do f <- untilShieldCheck M equippedWeapon now prev ;
    do '(newShieldHp, newIsGameOver, explosions2) <-
      (if (f_shieldHp f <=? 0)%Z
       then do exs <- finalBurst M now (f_player f) 20 0 (f_explosions f) ;
            ret (0%Z, true, exs)
       else ret (f_shieldHp f, false, f_explosions f)) ;
    ret {| player := f_player f;
           projectiles := f_projectiles f;
           enemies := f_enemies f;
           explosions := List.filter (fun ex => Qlt_bool 0 (duration ex))
                                     (List.map ageExplosion explosions2);
           shieldHp := newShieldHp;
           score := f_score f;
           isGameOver := newIsGameOver;
           isShooting := isShooting prev;
           shootCooldown := f_shootCooldown f;
           gameTime := f_gameTime f;
           powerUps := f_powerUps f;
           isShopOpen := isShopOpen prev;
           unlockAnimation := f_unlockAnimation f |}.

(** A tick: the updater applied to the current state, randomness read from
    [rnd] starting at draw [i]. *)
Definition tick (M : MathLib) (w : Weapon) (now : Q) (rnd : nat -> Q) (i : nat)
    (s : GameState) : GameState :=
  fst (gameLoop M w now s rnd i).

(** Shop handlers (lines 344-371). *)
Definition buyFireRate (prev : GameState) : GameState :=
  if negb (isGameOver prev) && (FIRE_RATE_COST <=? score prev)%Z &&
     (fireRate (powerUps prev) <=? 0)%Z
  then {| player := player prev; projectiles := projectiles prev; enemies := enemies prev;
          explosions := explosions prev; shieldHp := shieldHp prev;
          score := (score prev - FIRE_RATE_COST)%Z; isGameOver := isGameOver prev;
          isShooting := isShooting prev; shootCooldown := shootCooldown prev;
          gameTime := gameTime prev;
          powerUps := {| fireRate := POWERUP_DURATION; hpBoost := hpBoost (powerUps prev) |};
          isShopOpen := false; unlockAnimation := unlockAnimation prev |}
  else prev.

Definition buyHpBoost (prev : GameState) : GameState :=
  if negb (isGameOver prev) && (HP_BOOST_COST <=? score prev)%Z &&
     (hpBoost (powerUps prev) <=? 0)%Z
  then {| player := player prev; projectiles := projectiles prev; enemies := enemies prev;
          explosions := explosions prev; shieldHp := 200;
          score := (score prev - HP_BOOST_COST)%Z; isGameOver := isGameOver prev;
          isShooting := isShooting prev; shootCooldown := shootCooldown prev;
          gameTime := gameTime prev;
          powerUps := {| fireRate := fireRate (powerUps prev); hpBoost := POWERUP_DURATION |};
          isShopOpen := false; unlockAnimation := unlockAnimation prev |}
  else prev.

(** The other handlers, which write single fields (lines 194-206, 215-223,
    269-272, 288-291, 327-340, 377, 571, 626). *)
Inductive Input :=
| Aim (a : Q)
| Shoot (on : bool)
| Joystick (jvx jvy : Q)
| Shop (open : bool)
| Unlocked (banner : string).

Definition handle (inp : Input) (p : GameState) : GameState :=
  let withPlayer pl :=
    {| player := pl; projectiles := projectiles p; enemies := enemies p;
       explosions := explosions p; shieldHp := shieldHp p; score := score p;
       isGameOver := isGameOver p; isShooting := isShooting p;
       shootCooldown := shootCooldown p; gameTime := gameTime p;
       powerUps := powerUps p; isShopOpen := isShopOpen p;
       unlockAnimation := unlockAnimation p |} in
  match inp with
  | Aim a => withPlayer {| x := x (player p); y := y (player p); vx := vx (player p);
                           vy := vy (player p); angle := a |}
  | Joystick jvx jvy => withPlayer {| x := x (player p); y := y (player p); vx := jvx;
                                      vy := jvy; angle := angle (player p) |}
  | Shoot on =>
      {| player := player p; projectiles := projectiles p; enemies := enemies p;
         explosions := explosions p; shieldHp := shieldHp p; score := score p;
         isGameOver := isGameOver p; isShooting := on;
         shootCooldown := shootCooldown p; gameTime := gameTime p;
         powerUps := powerUps p; isShopOpen := isShopOpen p;
         unlockAnimation := unlockAnimation p |}
  | Shop open =>
      {| player := player p; projectiles := projectiles p; enemies := enemies p;
         explosions := explosions p; shieldHp := shieldHp p; score := score p;
         isGameOver := isGameOver p; isShooting := isShooting p;
         shootCooldown := shootCooldown p; gameTime := gameTime p;
         powerUps := powerUps p;
         isShopOpen := if open then (if isGameOver p then isShopOpen p else true) else false;
         unlockAnimation := unlockAnimation p |}
  | Unlocked banner =>
      {| player := player p; projectiles := projectiles p; enemies := enemies p;
         explosions := explosions p; shieldHp := shieldHp p; score := score p;
         isGameOver := isGameOver p; isShooting := isShooting p;
         shootCooldown := shootCooldown p; gameTime := gameTime p;
         powerUps := powerUps p; isShopOpen := isShopOpen p;
         unlockAnimation := {| active := true; text := banner; timer := 120 |} |}
  end.

(** States a session can be in: from the initial state by ticks, purchases
    and the other handlers. *)
Inductive reachable (M : MathLib) : GameState -> Prop :=
| reach_initial : reachable M createInitialState
| reach_tick (w : Weapon) (now : Q) (rnd : nat -> Q) (i : nat) (s : GameState) :
    reachable M s -> reachable M (tick M w now rnd i s)
| reach_fireRate (s : GameState) : reachable M s -> reachable M (buyFireRate s)
| reach_hpBoost (s : GameState) : reachable M s -> reachable M (buyHpBoost s)
| reach_handle (inp : Input) (s : GameState) : reachable M s -> reachable M (handle inp s).

(** The sprite of the player is drawn 24 wide (line 701), twice the radius. *)
Definition PLAYER_SPRITE_WIDTH : Q := 24.

(** The initial state with the joystick held fully to the right. *)
Definition pushedRight : GameState := handle (Joystick PLAYER_SPEED 0) createInitialState.

(** A [MathLib] for evaluating paths on which no [Math] function is called. *)
Definition noMath : MathLib :=
  {| Math_hypot := fun _ _ => 0; Math_cos := fun _ => 0; Math_sin := fun _ => 0;
     Math_atan2 := fun _ _ => 0; Math_PI := 3.141592653589793 |}.

(** The shield down to its last 10 points and an enemy standing on the
    player, where the distance is 0. *)
Definition lastStand : GameState :=
  {| player := player createInitialState;
     projectiles := [];
     enemies := [{| e_id := 1; e_x := GAME_WIDTH / 2; e_y := GAME_HEIGHT / 2;
                    e_vx := 0; e_vy := 0; e_radius := 12; hp := 1; type := normal |}];
     explosions := [];
     shieldHp := 10; score := 30; isGameOver := false; isShooting := false;
     shootCooldown := 0; gameTime := 400;
     powerUps := {| fireRate := 0; hpBoost := 0 |};
     isShopOpen := false;
     unlockAnimation := {| active := false; text := ""; timer := 0 |} |}.

(** [n] ticks with the joystick held to the right, every draw 0.5 (so that
    no enemy is spawned) and the trigger released. *)
Definition driftRight (n : nat) : GameState :=
  Nat.iter n (tick noMath default 0 (fun _ => 0.5) 0%nat) pushedRight.

(** Line 548: the capacity shown next to the shield's hit points. *)
Definition currentMaxHp (s : GameState) : Z :=
  if (0 <? hpBoost (powerUps s))%Z then 200%Z else BASE_SHIELD_MAX_HP.

(** A state with 250 points to spend. *)
Definition wealthy : GameState :=
  {| player := player createInitialState; projectiles := []; enemies := [];
     explosions := []; shieldHp := 40; score := 250; isGameOver := false;
     isShooting := false; shootCooldown := 0; gameTime := 900;
     powerUps := {| fireRate := 0; hpBoost := 0 |}; isShopOpen := true;
     unlockAnimation := unlockAnimation createInitialState |}.

(** *** Weapons (lines 147-148, 320-341, 373-379)

    [purchasedWeapons] and [equippedWeapon] are component state of their
    own; [restartGame] does not touch them. *)
Record Arsenal := mkArsenal {
  purchasedShotgun : bool;
  purchasedTrishot : bool;
  equippedWeapon : Weapon
}.

Definition initialArsenal : Arsenal :=
  {| purchasedShotgun := false; purchasedTrishot := false; equippedWeapon := default |}.

(** The unlock effect (lines 320-341), run after a render that shows the
    arsenal [a] and the game state [gs]. *)
Definition unlockEffect (a : Arsenal) (gs : GameState) : Arsenal * GameState :=
  if isGameOver gs then (a, gs)
  else
    let '(a1, gs1) :=
      if (SHOTGUN_COST <=? score gs)%Z && negb (purchasedShotgun a)
      then ({| purchasedShotgun := true; purchasedTrishot := purchasedTrishot a;
               equippedWeapon := shotgun |},
            handle (Unlocked "SHOTGUN UNLOCKED!") gs)
      else (a, gs) in
    if (TRISHOT_COST <=? score gs)%Z && negb (purchasedTrishot a)
    then ({| purchasedShotgun := purchasedShotgun a1; purchasedTrishot := true;
             equippedWeapon := trishot |},
          handle (Unlocked "TRI-SHOT UNLOCKED!") gs1)
    else (a1, gs1).

Definition isUnlocked (a : Arsenal) (w : Weapon) : bool :=
  match w with
  | default => true
  | shotgun => purchasedShotgun a
  | trishot => purchasedTrishot a
  end.

(** [equipWeapon] (lines 373-379). *)
Definition equipWeapon (w : Weapon) (a : Arsenal) (gs : GameState) : Arsenal * GameState :=
  if isUnlocked a w
  then ({| purchasedShotgun := purchasedShotgun a; purchasedTrishot := purchasedTrishot a;
           equippedWeapon := w |},
        handle (Shop false) gs)
  else (a, gs).

(** Arsenals a player can bring about. *)
Inductive armed : Arsenal -> Prop :=
| armed_initial : armed initialArsenal
| armed_unlock (a : Arsenal) (gs : GameState) : armed a -> armed (fst (unlockEffect a gs))
| armed_equip (w : Weapon) (a : Arsenal) (gs : GameState) :
    armed a -> armed (fst (equipWeapon w a gs)).

End Shooter.

(** ** Platformer (components/PlatformerGame.tsx) *)

Module Platformer.

Definition GAME_WIDTH : Q := 400.
Definition GAME_HEIGHT : Q := 400.
Definition PLAYER_WIDTH : Q := 20.
Definition PLAYER_HEIGHT : Q := 20.
Definition GRAVITY : Q := 0.5.
Definition JUMP_FORCE : Q := -10.
Definition MOVE_SPEED : Q := 4.
Definition FRICTION : Q := 0.8.

Record Rect := mkRect { r_x : Q; r_y : Q; width : Q; height : Q }.
Record Goal := mkGoal { g_x : Q; g_y : Q; size : Q }.

Record LevelData := mkLevel {
  playerStart : Q * Q;
  platforms : list Rect;
  coins : list (Q * Q);
  hazards : list Rect;
  goal : Goal;
  atm : option Rect;
  terminal : option Rect
}.

Definition levels : list LevelData :=
  [
  {| playerStart := (50, 340);
     platforms := [mkRect 0 380 200 20;
                   mkRect 250 380 150 20;
                   mkRect 100 300 150 20;
                   mkRect 200 220 150 20;
                   mkRect 100 140 150 20;
                   mkRect 0 80 100 15];
     coins := [(150, 270); (250, 190); (40, 50)];
     hazards := [];
     goal := mkGoal 10 40 30;
     atm := None;
     terminal := None |};
  {| playerStart := (20, 360);
     platforms := [mkRect 0 380 80 20;
                   mkRect 120 340 80 20;
                   mkRect 230 300 80 20;
                   mkRect 320 250 80 20;
                   mkRect 230 180 80 20;
                   mkRect 120 120 80 20];
     coins := [(140, 310); (340, 220); (140, 90)];
     hazards := [];
     goal := mkGoal 140 80 30;
     atm := None;
     terminal := None |};
  {| playerStart := (20, 340);
     platforms := [mkRect 0 380 400 20;
                   mkRect 100 300 200 20;
                   mkRect 0 220 150 20;
                   mkRect 250 150 150 20];
     coins := [(200, 270); (70, 190); (320, 120)];
     hazards := [mkRect 120 360 160 20];
     goal := mkGoal 350 110 30;
     atm := None;
     terminal := None |};
  {| playerStart := (360, 340);
     platforms := [mkRect 0 380 400 20;
                   mkRect 350 300 50 10;
                   mkRect 250 250 50 10;
                   mkRect 150 200 50 10;
                   mkRect 50 150 50 10];
     coins := [(260, 220); (60, 120)];
     hazards := [mkRect 0 360 300 20];
     goal := mkGoal 60 110 30;
     atm := None;
     terminal := None |};
  {| playerStart := (30, 340);
     platforms := [mkRect 0 380 100 20;
                   mkRect 150 340 100 20;
                   mkRect 300 300 100 20;
                   mkRect 150 260 50 20;
                   mkRect 50 200 50 20];
     coins := [(180, 310); (60, 170)];
     hazards := [mkRect 100 390 200 10];
     goal := mkGoal 60 160 30;
     atm := None;
     terminal := Some (mkRect 335 260 30 40) |};
  {| playerStart := (20, 340);
     platforms := [mkRect 0 380 400 20;
                   mkRect 50 300 300 20;
                   mkRect 50 220 300 20;
                   mkRect 50 140 300 20];
     coins := [(200, 350); (100, 270); (300, 190); (200, 110)];
     hazards := [mkRect 100 360 20 20; mkRect 180 360 20 20; mkRect 260 360 20 20; mkRect 80 280 20 20; mkRect 220 280 20 20; mkRect 150 200 100 20];
     goal := mkGoal 310 100 30;
     atm := None;
     terminal := None |};
  {| playerStart := (20, 80);
     platforms := [mkRect 0 120 80 20;
                   mkRect 200 120 20 20;
                   mkRect 0 380 400 20;
                   mkRect 350 300 50 20];
     coins := [(205, 90); (365, 270)];
     hazards := [mkRect 80 360 220 20];
     goal := mkGoal 360 260 30;
     atm := None;
     terminal := None |};
  {| playerStart := (20, 340);
     platforms := [mkRect 0 380 400 20;
                   mkRect 0 0 20 380;
                   mkRect 380 0 20 380;
                   mkRect 0 0 400 20;
                   mkRect 80 300 40 20;
                   mkRect 180 240 40 20;
                   mkRect 280 180 40 20;
                   mkRect 180 120 40 20];
     coins := [(90, 270); (290, 150); (190, 90)];
     hazards := [mkRect 70 360 310 20];
     goal := mkGoal 185 80 30;
     atm := None;
     terminal := None |};
  {| playerStart := (20, 340);
     platforms := [mkRect 0 380 50 20;
                   mkRect 100 350 20 20;
                   mkRect 170 320 20 20;
                   mkRect 240 290 20 20;
                   mkRect 310 260 20 20;
                   mkRect 350 220 50 20;
                   mkRect 310 150 20 20;
                   mkRect 240 120 20 20;
                   mkRect 170 90 20 20;
                   mkRect 0 120 50 20];
     coins := [(245, 260); (360, 190); (175, 60)];
     hazards := [];
     goal := mkGoal 10 80 30;
     atm := None;
     terminal := None |};
  {| playerStart := (190, 20);
     platforms := [mkRect 180 60 40 20;
                   mkRect 0 380 400 20;
                   mkRect 0 120 40 20;
                   mkRect 80 180 40 20;
                   mkRect 160 240 40 20;
                   mkRect 240 300 40 20;
                   mkRect 340 100 40 20];
     coins := [(10, 90); (90, 150); (170, 210); (250, 270); (350, 70)];
     hazards := [mkRect 0 360 100 20; mkRect 150 360 100 20; mkRect 300 360 100 20];
     goal := mkGoal 350 60 30;
     atm := None;
     terminal := None |};
  {| playerStart := (20, 340);
     platforms := [mkRect 0 380 150 20;
                   mkRect 250 380 150 20;
                   mkRect 180 300 40 100;
                   mkRect 100 240 200 20;
                   mkRect 350 180 50 20];
     coins := [(190, 270); (110, 210); (360, 150)];
     hazards := [mkRect 150 380 100 20];
     goal := mkGoal 360 140 30;
     atm := Some (mkRect 350 340 30 40);
     terminal := None |};
  {| playerStart := (20, 340);
     platforms := [mkRect 0 380 400 20;
                   mkRect 0 300 300 20;
                   mkRect 100 220 300 20;
                   mkRect 0 140 300 20];
     coins := [(280, 270); (120, 190); (280, 110)];
     hazards := [mkRect 320 320 20 60; mkRect 80 240 20 60; mkRect 320 160 20 60];
     goal := mkGoal 20 100 30;
     atm := None;
     terminal := None |};
  {| playerStart := (20, 340);
     platforms := [mkRect 0 380 50 20;
                   mkRect 100 320 50 20;
                   mkRect 200 260 50 20;
                   mkRect 100 200 50 20;
                   mkRect 200 140 50 20;
                   mkRect 300 80 50 20;
                   mkRect 350 380 50 20];
     coins := [(110, 290); (210, 230); (110, 170); (210, 110)];
     hazards := [mkRect 50 380 300 20];
     goal := mkGoal 310 40 30;
     atm := None;
     terminal := None |};
  {| playerStart := (190, 20);
     platforms := [mkRect 180 60 40 20;
                   mkRect 300 150 40 20;
                   mkRect 100 250 40 20;
                   mkRect 200 350 40 20];
     coins := [(310, 120); (110, 220); (210, 320)];
     hazards := [];
     goal := mkGoal 210 310 30;
     atm := None;
     terminal := None |};
  {| playerStart := (10, 340);
     platforms := [mkRect 0 380 40 20;
                   mkRect 80 360 30 10;
                   mkRect 150 340 30 10;
                   mkRect 220 320 30 10;
                   mkRect 290 300 30 10;
                   mkRect 360 280 40 20];
     coins := [(160, 310); (300, 270); (370, 250)];
     hazards := [mkRect 0 390 400 10];
     goal := mkGoal 370 240 30;
     atm := None;
     terminal := None |}
  ].

Inductive Status := playing | win | lose | paused | inTerminal.

Definition isPlaying (st : Status) : bool :=
  match st with playing => true | _ => false end.

Record Player := mkPlayer {
  x : Q; y : Q; vx : Q; vy : Q; onGround : bool; scaleX : Q; scaleY : Q
}.

Record GameState := mkState {
  player : Player;
  collectedCoins : list nat;
  keys : gmap string bool;
  status : Status
}.

Inductive Cue := JumpSound | CoinSound | HurtSound | WinSound.

Definition createInitialState (level : LevelData) : GameState :=
  {| player := {| x := fst (playerStart level); y := snd (playerStart level);
                  vx := 0; vy := 0; onGround := false; scaleX := 1; scaleY := 1 |};
     collectedCoins := [];
     keys := ∅;
     status := playing |}.

Definition overlaps (px py : Q) (r : Rect) : bool :=
  Qlt_bool (r_x r) (px + PLAYER_WIDTH) && Qlt_bool px (r_x r + width r) &&
  Qlt_bool (r_y r) (py + PLAYER_HEIGHT) && Qlt_bool py (r_y r + height r).

(** Line 550-552: the horizontal part of the tick. *)
Definition horizontalVelocity (ks : gmap string bool) (v : Q) : Q :=
  let v1 := if held ks "ArrowLeft" then - MOVE_SPEED
            else if held ks "ArrowRight" then MOVE_SPEED else v in
  let v2 := v1 * FRICTION in
  if Qlt_bool (Math_abs v2) 0.1 then 0 else v2.

Definition clampX (px : Q) : Q :=
  let x1 := if Qlt_bool px 0 then 0 else px in
  if Qlt_bool (GAME_WIDTH - PLAYER_WIDTH) x1 then GAME_WIDTH - PLAYER_WIDTH else x1.

(** Lines 557-563: landing on platforms; carries [y], [vy], [onGround]. *)
Fixpoint land (prevY : Q) (px : Q) (ps : list Rect) (acc : Q * Q * bool) : Q * Q * bool :=
  match ps with
  | [] => acc
  | p :: rest =>
      let '(py, pvy, ground) := acc in
      if overlaps px py p && Qle_bool (prevY + PLAYER_HEIGHT) (r_y p) && Qle_bool 0 pvy
      then land prevY px rest (r_y p - PLAYER_HEIGHT, 0, true)
      else land prevY px rest acc
  end.

(** Lines 571-577: coins picked up this frame, by index. *)
Fixpoint collect (M : MathLib) (px py : Q) (cs : list (Q * Q)) (index : nat)
    (acc : list nat * bool) : list nat * bool :=
  match cs with
  | [] => acc
  | coin :: rest =>
      let '(got, flag) := acc in
      if existsb (Nat.eqb index) got then collect M px py rest (S index) acc
      else
        let dist := Math_hypot M (px + PLAYER_WIDTH / 2 - (fst coin + 10))
                                 (py + PLAYER_HEIGHT / 2 - (snd coin + 10)) in
        if Qlt_bool dist (PLAYER_WIDTH / 2 + 10)
        then collect M px py rest (S index) (got ++ [index], true)
        else collect M px py rest (S index) acc
  end.

(** The state updater of [gameLoop] (lines 542-591); [isShopOpen] and
    [activeLevel] ([levels[currentLevel]]) come from the closure. *)
Definition gameLoop (M : MathLib) (isShopOpen : bool) (activeLevel : LevelData)
    (prev : GameState) : GameState * list Cue :=
  if negb (isPlaying (status prev)) || isShopOpen then (prev, [])
  else
    let p := player prev in
    let vx1 := horizontalVelocity (keys prev) (vx p) in
    let x1 := clampX (x p + vx1) in
    let vy1 := vy p + GRAVITY in
    let y1 := y p + vy1 in
    let wasOnGround := onGround p in
    let '(y2, vy2, onGround1) := land (y p) x1 (platforms activeLevel) (y1, vy1, false) in
    let jump := (held (keys prev) "ArrowUp" || held (keys prev) " ") && onGround1 in
    let vy3 := if jump then JUMP_FORCE else vy2 in
    let '(sx1, sy1) := if jump then (0.7, 1.3) else (scaleX p, scaleY p) in
    let '(sx2, sy2) := if negb wasOnGround && onGround1 then (1.3, 0.7) else (sx1, sy1) in
    let sx3 := sx2 + (1 - sx2) * 0.2 in
    let sy3 := sy2 + (1 - sy2) * 0.2 in
    let '(newCollectedCoins, coinCollectedThisFrame) :=
      collect M x1 y2 (coins activeLevel) 0 (collectedCoins prev, false) in
    let status1 := if existsb (overlaps x1 y2) (hazards activeLevel) then lose
                   else status prev in
    let status2 := if Qlt_bool (GAME_HEIGHT + 50) y2 then lose else status1 in
    let hurt := match status2 with lose => isPlaying (status prev) | _ => false end in
    let g := goal activeLevel in
    let goalDist := Math_hypot M (x1 + PLAYER_WIDTH / 2 - (g_x g + size g / 2))
                                 (y2 + PLAYER_HEIGHT / 2 - (g_y g + size g / 2)) in
    let reached := Qlt_bool goalDist (PLAYER_WIDTH / 2 + size g / 2) in
    ({| player := {| x := x1; y := y2; vx := vx1; vy := vy3; onGround := onGround1;
                     scaleX := sx3; scaleY := sy3 |};
        collectedCoins := newCollectedCoins;
        keys := keys prev;
        status := if reached then win else status2 |},
     (if jump then [JumpSound] else []) ++
     (if coinCollectedThisFrame then [CoinSound] else []) ++
     (if hurt then [HurtSound] else []) ++
     (if reached && isPlaying (status prev) then [WinSound] else [])).

Definition handleKeyPress (key : string) (p : GameState) : GameState :=
  {| player := player p; collectedCoins := collectedCoins p;
     keys := <[key := true]> (keys p); status := status p |}.

Definition handleKeyRelease (key : string) (p : GameState) : GameState :=
  {| player := player p; collectedCoins := collectedCoins p;
     keys := <[key := false]> (keys p); status := status p |}.

(** The effects and dialogs that only write [status] (lines 417, 425, 477,
    503, 513). *)
Definition setStatus (st : Status) (p : GameState) : GameState :=
  {| player := player p; collectedCoins := collectedCoins p; keys := keys p; status := st |}.

(** States the game can be in: a level just loaded, then ticks, key events
    and status changes. *)
Inductive reachable (M : MathLib) : GameState -> Prop :=
| reach_load (level : LevelData) :
    In level levels -> reachable M (createInitialState level)
| reach_tick (isShopOpen : bool) (level : LevelData) (s : GameState) :
    reachable M s -> reachable M (fst (gameLoop M isShopOpen level s))
| reach_press (key : string) (s : GameState) :
    reachable M s -> reachable M (handleKeyPress key s)
| reach_release (key : string) (s : GameState) :
    reachable M s -> reachable M (handleKeyRelease key s)
| reach_status (st : Status) (s : GameState) :
    reachable M s -> reachable M (setStatus st s).

(** The locals of a tick of [prev] on [activeLevel]: the clamped abscissa
    and the result of the landing loop. *)
Definition nextX (prev : GameState) : Q :=
  clampX (x (player prev) + horizontalVelocity (keys prev) (vx (player prev))).

Definition landing (activeLevel : LevelData) (prev : GameState) : Q * Q * bool :=
  land (y (player prev)) (nextX prev) (platforms activeLevel)
       (y (player prev) + (vy (player prev) + GRAVITY), vy (player prev) + GRAVITY, false).

Definition reachesGoal (M : MathLib) (activeLevel : LevelData) (px py : Q) : bool :=
  let g := goal activeLevel in
  Qlt_bool (Math_hypot M (px + PLAYER_WIDTH / 2 - (g_x g + size g / 2))
                         (py + PLAYER_HEIGHT / 2 - (g_y g + size g / 2)))
           (PLAYER_WIDTH / 2 + size g / 2).

(** The first level with the player standing on the ground, [ArrowUp] held. *)
Definition firstLevel : LevelData := List.hd (mkLevel (0, 0) [] [] [] (mkGoal 0 0 0) None None) levels.

Definition readyToJump : GameState :=
  {| player := {| x := 50; y := 360; vx := 0; vy := 0; onGround := true;
                  scaleX := 1; scaleY := 1 |};
     collectedCoins := [1%nat]; keys := <["ArrowUp" := true]> ∅; status := playing |}.

(** *** Progress, coins and skins (lines 14, 270-278, 315-341, 390-407,
    487-528, 598-611)

    The component state next to [gameState].  [levels[i]] is undefined
    outside the array, and [createInitialState] then throws; [None] stands
    for that. *)
Definition SKIP_COST : Z := 10.

Inductive CharacterSkin := defaultSkin | glitchSkin | calculatorSkin.

Definition skinCost (skin : CharacterSkin) : Z :=
  match skin with
  | defaultSkin => 0
  | glitchSkin => 50
  | calculatorSkin => 50
  end.

Definition sameSkin (a b : CharacterSkin) : bool :=
  match a, b with
  | defaultSkin, defaultSkin | glitchSkin, glitchSkin | calculatorSkin, calculatorSkin => true
  | _, _ => false
  end.

Definition levels_length : Z := Z.of_nat (length levels).

Definition levelAt (i : Z) : option LevelData :=
  if (i <? 0)%Z then None else nth_error levels (Z.to_nat i).

Definition loadLevel (levelIndex : Z) : option GameState :=
  match levelAt levelIndex with
  | Some level => Some (createInitialState level)
  | None => None
  end.

Record Progress := mkProgress {
  currentLevel : Z;
  totalCoins : Z;
  unlockedSkins : list CharacterSkin;
  equippedSkin : CharacterSkin;
  isShopOpen : bool;
  gameState : GameState
}.

(** What [parseInt] made of a stored string. *)
Inductive Parsed := NaN | Int (n : Z).

(** The initialisers of lines 323-341; [None] is a missing (or empty)
    entry of the store. *)
Definition initialLevel (saved : option Parsed) : Z :=
  match saved with
  | Some (Int levelNum) => if (levelNum <? levels_length)%Z then levelNum else 0
  | _ => 0
  end.

Definition mount (savedLevel : option Parsed) (savedCoins : Z)
    (savedSkins : option (list CharacterSkin)) (savedSkin : option CharacterSkin)
    : option Progress :=
  let level := initialLevel savedLevel in
  match loadLevel level with
  | Some gs =>
      Some {| currentLevel := level; totalCoins := savedCoins;
              unlockedSkins := match savedSkins with Some l => l | None => [defaultSkin] end;
              equippedSkin := match savedSkin with Some k => k | None => defaultSkin end;
              isShopOpen := false; gameState := gs |}
  | None => None
  end.

Definition withGame (p : Progress) (gs : GameState) : Progress :=
  {| currentLevel := currentLevel p; totalCoins := totalCoins p;
     unlockedSkins := unlockedSkins p; equippedSkin := equippedSkin p;
     isShopOpen := isShopOpen p; gameState := gs |}.

(** The timer started by the effect of lines 392-407 on a win. *)
Definition nextLevelAfterWin (p : Progress) : option Progress :=
  match status (gameState p) with
  | win =>
      if (currentLevel p =? levels_length - 1)%Z then Some p
      else
        let coinsThisLevel := Z.of_nat (length (collectedCoins (gameState p))) in
        let nextLevelIndex := (currentLevel p + 1)%Z in
        match loadLevel nextLevelIndex with
        | Some gs =>
            Some {| currentLevel := nextLevelIndex;
                    totalCoins := (totalCoins p + coinsThisLevel)%Z;
                    unlockedSkins := unlockedSkins p; equippedSkin := equippedSkin p;
                    isShopOpen := isShopOpen p; gameState := gs |}
        | None => None
        end
  | _ => Some p
  end.

(** [handleSkipLevel] (lines 487-494). *)
Definition handleSkipLevel (p : Progress) : option Progress :=
  if (SKIP_COST <=? totalCoins p)%Z && (currentLevel p <? levels_length - 1)%Z then
    let nextLevel := (currentLevel p + 1)%Z in
    match loadLevel nextLevel with
    | Some gs =>
        Some {| currentLevel := nextLevel; totalCoins := (totalCoins p - SKIP_COST)%Z;
                unlockedSkins := unlockedSkins p; equippedSkin := equippedSkin p;
                isShopOpen := isShopOpen p; gameState := gs |}
    | None => None
    end
  else Some p.

(** [handleAtmSubmit] (lines 496-509), the coins only. *)
Definition handleAtmSubmit (atmCode : string) (p : Progress) : Progress :=
  if String.eqb atmCode "2011"
  then {| currentLevel := currentLevel p; totalCoins := (totalCoins p + 1000)%Z;
          unlockedSkins := unlockedSkins p; equippedSkin := equippedSkin p;
          isShopOpen := isShopOpen p; gameState := gameState p |}
  else p.

(** [resetGameAndProgress] (lines 516-528) and [restartCurrentLevel]
    (line 390). *)
Definition resetGameAndProgress (p : Progress) : option Progress :=
  match loadLevel 0 with
  | Some gs =>
      Some {| currentLevel := 0; totalCoins := 0; unlockedSkins := unlockedSkins p;
              equippedSkin := equippedSkin p; isShopOpen := isShopOpen p; gameState := gs |}
  | None => None
  end.

Definition restartCurrentLevel (p : Progress) : option Progress :=
  match loadLevel (currentLevel p) with
  | Some gs => Some (withGame p gs)
  | None => None
  end.

(** [handleBuySkin] and [handleEquipSkin] (lines 598-611). *)
Definition handleBuySkin (skin : CharacterSkin) (cost : Z) (p : Progress) : Progress :=
  if (cost <=? totalCoins p)%Z && negb (existsb (sameSkin skin) (unlockedSkins p))
  then {| currentLevel := currentLevel p; totalCoins := (totalCoins p - cost)%Z;
          unlockedSkins := unlockedSkins p ++ [skin]; equippedSkin := skin;
          isShopOpen := isShopOpen p; gameState := gameState p |}
  else p.

Definition handleEquipSkin (skin : CharacterSkin) (p : Progress) : Progress :=
  if existsb (sameSkin skin) (unlockedSkins p)
  then {| currentLevel := currentLevel p; totalCoins := totalCoins p;
          unlockedSkins := unlockedSkins p; equippedSkin := skin;
          isShopOpen := isShopOpen p; gameState := gameState p |}
  else p.

(** One tick of the component: [gameLoop] on [levels[currentLevel]], which
    is read only once the guard has passed. *)
Definition tickProgress (M : MathLib) (p : Progress) : option Progress :=
  if negb (isPlaying (status (gameState p))) || isShopOpen p then Some p
  else
    match levelAt (currentLevel p) with
    | Some activeLevel =>
        Some (withGame p (fst (gameLoop M (isShopOpen p) activeLevel (gameState p))))
    | None => None
    end.

(** What the player and the timers can do to the component. *)
Inductive Command :=
| Frame
| Key (down : bool) (key : string)
| WinTimer
| Skip
| Atm (atmCode : string)
| Reset
| Retry
| Buy (skin : CharacterSkin)
| Equip (skin : CharacterSkin)
| ToggleShop (open : bool).

Definition run (M : MathLib) (c : Command) (p : Progress) : option Progress :=
  match c with
  | Frame => tickProgress M p
  | Key true key => Some (withGame p (handleKeyPress key (gameState p)))
  | Key false key => Some (withGame p (handleKeyRelease key (gameState p)))
  | WinTimer => nextLevelAfterWin p
  | Skip => handleSkipLevel p
  | Atm atmCode => Some (handleAtmSubmit atmCode p)
  | Reset => resetGameAndProgress p
  | Retry => restartCurrentLevel p
  | Buy skin => Some (handleBuySkin skin (skinCost skin) p)   (* line 735 *)
  | Equip skin => Some (handleEquipSkin skin p)
  | ToggleShop open =>
      Some {| currentLevel := currentLevel p; totalCoins := totalCoins p;
              unlockedSkins := unlockedSkins p; equippedSkin := equippedSkin p;
              isShopOpen := open; gameState := gameState p |}
  end.

Fixpoint runAll (M : MathLib) (cs : list Command) (p : Progress) : option Progress :=
  match cs with
  | [] => Some p
  | c :: rest =>
      match run M c p with
      | Some p' => runAll M rest p'
      | None => None
      end
  end.

(** The progress is in order: the level exists, the coins are not in debt,
    and the equipped skin is one of the unlocked ones, none listed twice. *)
Definition inOrder (p : Progress) : Prop :=
  (0 <= currentLevel p < levels_length)%Z /\ (0 <= totalCoins p)%Z /\
  In (equippedSkin p) (unlockedSkins p) /\ List.NoDup (unlockedSkins p).

(** Progress as found on a first visit with 60 coins earned elsewhere. *)
Definition firstVisit : option Progress := mount None 60 None None.

End Platformer.

(** ** Snake (SnakeGame) *)

Module Snake.

Definition GRID_SIZE : Z := 20.
Definition GAME_SPEED : Z := 150.
(** [FRUITS] has eight entries; a fruit is modelled by its index. *)
Definition FRUITS_length : Z := 8.

Inductive Direction := UP | DOWN | LEFT | RIGHT.

Record Point := mkPoint { x : Z; y : Z }.
Record Food := mkFood { f_x : Z; f_y : Z; emoji : Z }.

Record GameState := mkState {
  snake : list Point;
  food : Food;
  direction : Direction;
  isGameOver : bool;
  score : Z;
  speed : Z
}.

(** The component: the state and the [directionBuffer] ref. *)
Record Component := mkComponent {
  gameState : GameState;
  directionBuffer : option Direction
}.

Definition startPoint : Point :=
  {| x := Math_floor (inject_Z GRID_SIZE / 2); y := Math_floor (inject_Z GRID_SIZE / 2) |}.

(** [createInitialState] (lines 15-29): three draws, for x, y and the fruit. *)
Definition createInitialState : Rand GameState :=
  do rx <- random ;
  do ry <- random ;
  do re <- random ;
  ret {| snake := [startPoint];
         food := {| f_x := Math_floor (rx * inject_Z GRID_SIZE);
                    f_y := Math_floor (ry * inject_Z GRID_SIZE);
                    emoji := Math_floor (re * inject_Z FRUITS_length) |};
         direction := RIGHT;
         isGameOver := false;
         score := 0;
         speed := GAME_SPEED |}.

(** [restartGame] (lines 37-40). *)
Definition restartGame (c : Component) : Rand Component :=
  do st <- createInitialState ;
  ret {| gameState := st; directionBuffer := None |}.

Definition onCell (fx fy : Z) (segment : Point) : bool :=
  (x segment =? fx)%Z && (y segment =? fy)%Z.

(** [generateFood] (lines 42-52): the do-while loop, run for at most [fuel]
    rounds; [None] when none of them drew a free cell. *)
Fixpoint generateFood (fuel : nat) (currentSnake : list Point) : Rand (option Food) :=
  match fuel with
  | O => ret None
  | S fuel' =>
      do rx <- random ;
      do ry <- random ;
      do re <- random ;
      let newFood := {| f_x := Math_floor (rx * inject_Z GRID_SIZE);
                        f_y := Math_floor (ry * inject_Z GRID_SIZE);
                        emoji := Math_floor (re * inject_Z FRUITS_length) |} in
      if existsb (onCell (f_x newFood) (f_y newFood)) currentSnake
      then generateFood fuel' currentSnake
      else ret (Some newFood)
  end.

(** [handleKeyPress] (lines 54-65). *)
Definition handleKeyPress (key : string) (c : Component) : Component :=
  let newDirection :=
    if String.eqb key "ArrowUp" then Some UP
    else if String.eqb key "ArrowDown" then Some DOWN
    else if String.eqb key "ArrowLeft" then Some LEFT
    else if String.eqb key "ArrowRight" then Some RIGHT
    else None in
  match newDirection with
  | Some d => {| gameState := gameState c; directionBuffer := Some d |}
  | None => c
  end.

(** Lines 79-87: a buffered turn is taken unless it reverses the snake. *)
Definition turn (buffered : option Direction) (current : Direction) : Direction :=
  match buffered with
  | None => current
  | Some UP => match current with DOWN => current | _ => UP end
  | Some DOWN => match current with UP => current | _ => DOWN end
  | Some LEFT => match current with RIGHT => current | _ => LEFT end
  | Some RIGHT => match current with LEFT => current | _ => RIGHT end
  end.

(** Lines 92-97. *)
Definition advance (d : Direction) (head : Point) : Point :=
  match d with
  | UP => {| x := x head; y := (y head - 1)%Z |}
  | DOWN => {| x := x head; y := (y head + 1)%Z |}
  | LEFT => {| x := (x head - 1)%Z; y := y head |}
  | RIGHT => {| x := (x head + 1)%Z; y := y head |}
  end.

Definition hitsWall (head : Point) : bool :=
  (x head <? 0)%Z || (GRID_SIZE <=? x head)%Z || (y head <? 0)%Z || (GRID_SIZE <=? y head)%Z.

(** Lines 105-109: the loop starts at index 1. *)
Definition hitsSelf (head : Point) (body : list Point) : bool :=
  existsb (onCell (x head) (y head)) (List.tl body).

Definition setGameOver (prev : GameState) : GameState :=
  {| snake := snake prev; food := food prev; direction := direction prev;
     isGameOver := true; score := score prev; speed := speed prev |}.

(** The state updater of [gameLoop] (lines 78-123).  [buffered] is the value
    read from [directionBuffer]; [None] is returned when the food loop did
    not finish within [fuel] rounds. *)
Definition update (fuel : nat) (buffered : option Direction) (prev : GameState)
    : Rand (option GameState) :=
  let newDirection := turn buffered (direction prev) in
  match snake prev with
  | [] =>
      (* [head] is an empty object: no test succeeds, and the segment that
         is added is popped again *)
      ret (Some {| snake := []; food := food prev; direction := newDirection;
                   isGameOver := isGameOver prev; score := score prev;
                   speed := speed prev |})
  | first :: _ =>
      let head := advance newDirection first in
      if hitsWall head then ret (Some (setGameOver prev))
      else if hitsSelf head (snake prev) then ret (Some (setGameOver prev))
      else
        let newSnake := head :: snake prev in
        if onCell (f_x (food prev)) (f_y (food prev)) head then
          let newScore := (score prev + 1)%Z in
          let newSpeed := Z.max 50 (speed prev - 5) in
          do newFood <- generateFood fuel newSnake ;
          ret (match newFood with
               | Some fd => Some {| snake := newSnake; food := fd; direction := newDirection;
                                    isGameOver := isGameOver prev; score := newScore;
                                    speed := newSpeed |}
               | None => None
               end)
        else
          ret (Some {| snake := List.removelast newSnake; food := food prev;
                       direction := newDirection; isGameOver := isGameOver prev;
                       score := score prev; speed := speed prev |})
  end.

(** [gameLoop] (lines 75-124) as scheduled on a component whose last render
    shows [rendered]: the guard reads the rendered flag, the updater takes
    and clears the buffer. *)
Definition gameLoop (fuel : nat) (rendered : GameState) (c : Component)
    : Rand (option Component) :=
  if isGameOver rendered then ret (Some c)
  else
    do next <- update fuel (directionBuffer c) (gameState c) ;
    ret (match next with
         | Some st => Some {| gameState := st; directionBuffer := None |}
         | None => None
         end).

Definition tick (fuel : nat) (c : Component) : Rand (option Component) :=
  gameLoop fuel (gameState c) c.

(** The head as the next tick of [c] computes it. *)
Definition nextHead (c : Component) : Point :=
  advance (turn (directionBuffer c) (direction (gameState c)))
          (List.hd startPoint (snake (gameState c))).

(** Whether the cell drawn in round [k] of the food loop (draws [i + 3k] and
    [i + 3k + 1]) is off the snake. *)
Definition freeRound (rnd : nat -> Q) (i k : nat) (currentSnake : list Point) : bool :=
  negb (existsb (onCell (Math_floor (rnd (i + 3 * k)%nat * inject_Z GRID_SIZE))
                        (Math_floor (rnd (S (i + 3 * k)) * inject_Z GRID_SIZE)))
                currentSnake).

(** Whether the next tick of [c] lands the head on the food (without
    running into a wall or into the snake). *)
Definition eats (c : Component) : bool :=
  negb (hitsWall (nextHead c) || hitsSelf (nextHead c) (snake (gameState c))) &&
  onCell (f_x (food (gameState c))) (f_y (food (gameState c))) (nextHead c).

(** A stream of draws that puts the first food right of the start cell. *)
Definition foodAhead (n : nat) : Q := if (n =? 1)%nat then 0.5 else 0.55.

(** Components a player can bring about. *)
Inductive reachable : Component -> Prop :=
| reach_mount (rnd : nat -> Q) (i : nat) :
    reachable {| gameState := fst (createInitialState rnd i); directionBuffer := None |}
| reach_restart (rnd : nat -> Q) (i : nat) (c : Component) :
    reachable c -> reachable (fst (restartGame c rnd i))
| reach_key (key : string) (c : Component) :
    reachable c -> reachable (handleKeyPress key c)
| reach_tick (fuel : nat) (rnd : nat -> Q) (i : nat) (c c' : Component) :
    reachable c -> fst (tick fuel c rnd i) = Some c' -> reachable c'.

(** A cell of the 20 x 20 grid. *)
Definition inGrid (p : Point) : bool :=
  (0 <=? x p)%Z && (x p <? GRID_SIZE)%Z && (0 <=? y p)%Z && (y p <? GRID_SIZE)%Z.

Definition foodInGrid (fd : Food) : bool :=
  (0 <=? f_x fd)%Z && (f_x fd <? GRID_SIZE)%Z && (0 <=? f_y fd)%Z && (f_y fd <? GRID_SIZE)%Z &&
  (0 <=? emoji fd)%Z && (emoji fd <? FRUITS_length)%Z.

(** No segment of the snake lies on the food. *)
Definition foodFree (s : GameState) : bool :=
  negb (existsb (onCell (f_x (food s)) (f_y (food s))) (snake s)).



End Snake.

(** ** Dot runner (components/DotRunnerGame.tsx) *)

Module DotRunner.

Definition GRID_SIZE : Z := 25.
Definition GAME_SPEED_START : Z := 130.
(** [SYMBOLS] has five entries; a symbol is modelled by its index. *)
Definition SYMBOLS_length : Z := 5.

Record Point := mkPoint { x : Z; y : Z }.
Record Collectible := mkCollectible { c_x : Z; c_y : Z; symbol : Z }.

Record GameState := mkState {
  player : Point;
  shadow : Point;
  collectible : Collectible;
  score : Z;
  isGameOver : bool;
  gameSpeed : Z;
  glitch : bool;
  gameTime : Z;
  baseShadowMoveChance : Q;
  proximityAlert : bool;
  shadowPowerUpTimer : Z
}.

Definition drawCollectible : Rand Collectible :=
  do rx <- random ;
  do ry <- random ;
  do rs <- random ;
  ret {| c_x := Math_floor (rx * inject_Z GRID_SIZE);
         c_y := Math_floor (ry * inject_Z GRID_SIZE);
         symbol := Math_floor (rs * inject_Z SYMBOLS_length) |}.

(** [createInitialState] (lines 56-74). *)
Definition createInitialState : Rand GameState :=
  do c <- drawCollectible ;
  ret {| player := {| x := Math_floor (inject_Z GRID_SIZE / 2);
                      y := Math_floor (inject_Z GRID_SIZE / 2) |};
         shadow := {| x := 0; y := 0 |};
         collectible := c;
         score := 0;
         isGameOver := false;
         gameSpeed := GAME_SPEED_START;
         glitch := false;
         gameTime := 0;
         baseShadowMoveChance := 0.35;
         proximityAlert := false;
         shadowPowerUpTimer := 0 |}.

Definition sameCell (c : Collectible) (p : Point) : bool :=
  (c_x c =? x p)%Z && (c_y c =? y p)%Z.

(** [generateCollectible] (lines 80-93): at most [fuel] rounds of the
    do-while loop. *)
Fixpoint generateCollectible (fuel : nat) (currentPlayer currentShadow : Point)
    : Rand (option Collectible) :=
  match fuel with
  | O => ret None
  | S fuel' =>
      do c <- drawCollectible ;
      if sameCell c currentPlayer || sameCell c currentShadow
      then generateCollectible fuel' currentPlayer currentShadow
      else ret (Some c)
  end.

Definition withCollectible (s : GameState) (c : Collectible) : GameState :=
  {| player := player s; shadow := shadow s; collectible := c; score := score s;
     isGameOver := isGameOver s; gameSpeed := gameSpeed s; glitch := glitch s;
     gameTime := gameTime s; baseShadowMoveChance := baseShadowMoveChance s;
     proximityAlert := proximityAlert s; shadowPowerUpTimer := shadowPowerUpTimer s |}.

(** [restartGame] (lines 95-100); [None] when the loop did not finish. *)
Definition restartGame (fuel : nat) : Rand (option GameState) :=
  do initialState <- createInitialState ;
  do c <- generateCollectible fuel (player initialState) (shadow initialState) ;
  ret (match c with
       | Some c' => Some (withCollectible initialState c')
       | None => None
       end).

(** [handleKeyPress] (lines 102-114). *)
Definition handleKeyPress (rendered : GameState) (key : string) (prev : GameState)
    : GameState :=
  if isGameOver rendered then prev
  else
    let px := x (player prev) in
    let py := y (player prev) in
    let '(nx, ny) :=
      if String.eqb key "ArrowUp" then (px, Z.max 0 (py - 1))
      else if String.eqb key "ArrowDown" then (px, Z.min (GRID_SIZE - 1) (py + 1))
      else if String.eqb key "ArrowLeft" then (Z.max 0 (px - 1), py)
      else if String.eqb key "ArrowRight" then (Z.min (GRID_SIZE - 1) (px + 1), py)
      else (px, py) in
    {| player := {| x := nx; y := ny |}; shadow := shadow prev;
       collectible := collectible prev; score := score prev;
       isGameOver := isGameOver prev; gameSpeed := gameSpeed prev; glitch := glitch prev;
       gameTime := gameTime prev; baseShadowMoveChance := baseShadowMoveChance prev;
       proximityAlert := proximityAlert prev;
       shadowPowerUpTimer := shadowPowerUpTimer prev |}.

(** The state updater of [gameLoop] (lines 125-203), with a flag telling
    whether the proximity sound was played. *)
Definition update (M : MathLib) (fuel : nat) (prev : GameState)
    : Rand (option (GameState * bool)) :=
  let newGameTime := (gameTime prev + 1)%Z in
  let raised := (0 <? newGameTime)%Z && (newGameTime mod 80 =? 0)%Z &&
                (shadowPowerUpTimer prev <=? 0)%Z in
  let newShadowPowerUpTimer :=
    if raised then 25%Z else Z.max 0 (shadowPowerUpTimer prev - 1) in
  let newBaseShadowMoveChance :=
    if (shadowPowerUpTimer prev =? 1)%Z && (newShadowPowerUpTimer =? 0)%Z
    then Math_min 0.9 (baseShadowMoveChance prev + 0.03)
    else baseShadowMoveChance prev in
  let dx := (x (player prev) - x (shadow prev))%Z in
  let dy := (y (player prev) - y (shadow prev))%Z in
  let dist := Math_hypot M (inject_Z dx) (inject_Z dy) in
  do newShadow <-
    (if (newShadowPowerUpTimer <=? 0)%Z then
       let effectiveMoveChance :=
         if Qlt_bool 12 dist then newBaseShadowMoveChance * 0.8
         else newBaseShadowMoveChance in
       do r <- random ;
       if Qlt_bool r effectiveMoveChance then
         if negb (dx =? 0)%Z || negb (dy =? 0)%Z then
           if (Z.abs dy <? Z.abs dx)%Z
           then ret {| x := (x (shadow prev) + Z.sgn dx)%Z; y := y (shadow prev) |}
           else ret {| x := x (shadow prev); y := (y (shadow prev) + Z.sgn dy)%Z |}
         else ret (shadow prev)
       else ret (shadow prev)
     else ret (shadow prev)) ;
  do newGlitch <-
    (if Qlt_bool dist 5 then do r <- random ; ret (Qlt_bool 0.5 r) else ret false) ;
  let newProximityAlert := Qlt_bool dist 4 in
  let sound := newProximityAlert && (newGameTime mod 15 =? 0)%Z in
  do collected <-
    (if sameCell (collectible prev) (player prev) then
       do c <- generateCollectible fuel (player prev) newShadow ;
       ret (match c with
            | Some c' => Some ((score prev + 1)%Z, Z.max 75 (gameSpeed prev - 2), c')
            | None => None
            end)
     else ret (Some (score prev, gameSpeed prev, collectible prev))) ;
  ret (match collected with
       | None => None
       | Some (newScore, newGameSpeed, newCollectible) =>
           Some ({| player := player prev;
                    shadow := newShadow;
                    collectible := newCollectible;
                    score := newScore;
                    isGameOver :=
                      if (x (player prev) =? x newShadow)%Z && (y (player prev) =? y newShadow)%Z
                      then true else isGameOver prev;
                    gameSpeed := newGameSpeed;
                    glitch := newGlitch;
                    gameTime := newGameTime;
                    baseShadowMoveChance := newBaseShadowMoveChance;
                    proximityAlert := newProximityAlert;
                    shadowPowerUpTimer := newShadowPowerUpTimer |}, sound)
       end).

(** [gameLoop] (lines 122-204) with its guard on the rendered flag. *)
Definition gameLoop (M : MathLib) (fuel : nat) (rendered prev : GameState)
    : Rand (option (GameState * bool)) :=
  if isGameOver rendered then ret (Some (prev, false)) else update M fuel prev.

Definition tick (M : MathLib) (fuel : nat) (s : GameState)
    : Rand (option (GameState * bool)) :=
  gameLoop M fuel s s.

Definition inGrid (p : Point) : bool :=
  (0 <=? x p)%Z && (x p <? GRID_SIZE)%Z && (0 <=? y p)%Z && (y p <? GRID_SIZE)%Z.


(** The cell next to the shadow towards the player, as lines 147-155 take
    it: along the axis on which the two are farther apart, and along y when
    they are as far on both. *)
Definition towards (target from : Point) : Point :=
  let dx := (x target - x from)%Z in
  let dy := (y target - y from)%Z in
  if (Z.abs dy <? Z.abs dx)%Z then {| x := (x from + Z.sgn dx)%Z; y := y from |}
  else {| x := x from; y := (y from + Z.sgn dy)%Z |}.

(** States a player can bring about. *)
Inductive reachable (M : MathLib) : GameState -> Prop :=
| reach_mount (rnd : nat -> Q) (i : nat) :
    reachable M (fst (createInitialState rnd i))
| reach_restart (fuel : nat) (rnd : nat -> Q) (i : nat) (s : GameState) :
    fst (restartGame fuel rnd i) = Some s -> reachable M s
| reach_key (rendered : GameState) (key : string) (s : GameState) :
    reachable M s -> reachable M (handleKeyPress rendered key s)
| reach_tick (fuel : nat) (rnd : nat -> Q) (i : nat) (rendered s s' : GameState)
    (sound : bool) :
    reachable M s -> fst (gameLoop M fuel rendered s rnd i) = Some (s', sound) ->
    reachable M s'.

(** Draws that keep the shadow still (the first) and place a collectible
    on cell (5, 5). *)
Definition calm (n : nat) : Q := if (n =? 0)%nat then 0.95 else 0.2.

(** The initial state under [calm], and the same with the collectible
    moved under the player. *)
Definition calmStart : GameState := fst (createInitialState calm 0%nat).



(** Whether the cell drawn in round [k] of the collectible loop started at
    draw [i] (draws [i + 3k] and [i + 3k + 1]) is off both [p] and [sh]. *)
Definition freeRound (rnd : nat -> Q) (i k : nat) (p sh : Point) : bool :=
  let c := fst (drawCollectible rnd (i + 3 * k)%nat) in
  negb (sameCell c p || sameCell c sh).

End DotRunner.

(** ** Sky gift (SkyGiftGame) *)

Module SkyGift.

Definition GAME_WIDTH : Q := 400.
Definition GAME_HEIGHT : Q := 400.
Definition PLAYER_WIDTH : Q := 60.
Definition PLAYER_HEIGHT : Q := 20.
Definition GIFT_SIZE : Q := 30.
Definition PLAYER_SPEED : Q := 10.
Definition GIFT_SPEED : Q := 4.

Record GameObject := mkGift { id : Q; x : Q; y : Q }.

(** The component keeps six separate pieces of state. *)
Record GameState := mkState {
  playerX : Q;
  gifts : list GameObject;
  score : Z;
  lives : Z;
  isGameOver : bool;
  keys : gmap string bool
}.

Definition initialState : GameState :=
  {| playerX := GAME_WIDTH / 2 - PLAYER_WIDTH / 2; gifts := []; score := 0; lives := 3;
     isGameOver := false; keys := ∅ |}.

Definition restartGame (s : GameState) : GameState := initialState.

(** Lines 80-88. *)
Definition moveTray (ks : gmap string bool) (prevX : Q) : Q :=
  if held ks "ArrowLeft" then Math_max 0 (prevX - PLAYER_SPEED)
  else if held ks "ArrowRight" then Math_min (GAME_WIDTH - PLAYER_WIDTH) (prevX + PLAYER_SPEED)
  else prevX.

Definition caught (tray : Q) (gift : GameObject) : bool :=
  Qle_bool (GAME_HEIGHT - PLAYER_HEIGHT) (y gift + GIFT_SIZE) &&
  Qlt_bool (y gift) GAME_HEIGHT &&
  Qlt_bool (x gift) (tray + PLAYER_WIDTH) &&
  Qlt_bool tray (x gift + GIFT_SIZE).

(** Lines 91-116: the filter over the moved gifts, with the score, lives
    and game-over updates it queues. *)
Fixpoint sortGifts (tray : Q) (moved : list GameObject)
    (acc : list GameObject * Z * Z * bool) : list GameObject * Z * Z * bool :=
  match moved with
  | [] => acc
  | gift :: rest =>
      let '(kept, sc, lv, over) := acc in
      if caught tray gift then sortGifts tray rest (kept, (sc + 10)%Z, lv, over)
      else if Qle_bool GAME_HEIGHT (y gift) then
        let newLives := (lv - 1)%Z in
        sortGifts tray rest (kept, sc, newLives, if (newLives <=? 0)%Z then true else over)
      else sortGifts tray rest (kept ++ [gift], sc, lv, over)
  end.

(** The game loop (lines 76-118): closure values from [rendered], functional
    updates on [cur]. *)
Definition mainLoop (rendered cur : GameState) : GameState :=
  if isGameOver rendered then cur
  else
    let moved := List.map (fun g => {| id := id g; x := x g; y := y g + GIFT_SPEED |})
                          (gifts cur) in
    let '(kept, sc, lv, over) :=
      sortGifts (playerX rendered) moved ([], score cur, lives cur, isGameOver cur) in
    {| playerX := moveTray (keys rendered) (playerX cur);
       gifts := kept; score := sc; lives := lv; isGameOver := over; keys := keys cur |}.

Definition tick (s : GameState) : GameState := mainLoop s s.

(** The gift spawner (lines 121-131). *)
Definition spawnGift (rendered : GameState) (now r : Q) (cur : GameState) : GameState :=
  if isGameOver rendered then cur
  else {| playerX := playerX cur;
          gifts := gifts cur ++ [{| id := now; x := r * (GAME_WIDTH - GIFT_SIZE);
                                     y := - GIFT_SIZE |}];
          score := score cur; lives := lives cur; isGameOver := isGameOver cur;
          keys := keys cur |}.

(** Lines 52-53. *)
Definition handleKeyPress (key : string) (s : GameState) : GameState :=
  {| playerX := playerX s; gifts := gifts s; score := score s; lives := lives s;
     isGameOver := isGameOver s; keys := <[key := true]> (keys s) |}.

Definition handleKeyRelease (key : string) (s : GameState) : GameState :=
  {| playerX := playerX s; gifts := gifts s; score := score s; lives := lives s;
     isGameOver := isGameOver s; keys := <[key := false]> (keys s) |}.

(** The three outcomes of the filter of lines 91-116 for one moved gift. *)
Definition missed (tray : Q) (gift : GameObject) : bool :=
  negb (caught tray gift) && Qle_bool GAME_HEIGHT (y gift).

Definition stays (tray : Q) (gift : GameObject) : bool :=
  negb (caught tray gift) && negb (Qle_bool GAME_HEIGHT (y gift)).

Definition fall (g : GameObject) : GameObject :=
  {| id := id g; x := x g; y := y g + GIFT_SPEED |}.

(** States a player can bring about; the callbacks of a render may run on a
    later state, so [rendered] is any state that can occur. *)
Inductive reachable : GameState -> Prop :=
| reach_initial : reachable initialState
| reach_restart (s : GameState) : reachable s -> reachable (restartGame s)
| reach_press (key : string) (s : GameState) : reachable s -> reachable (handleKeyPress key s)
| reach_release (key : string) (s : GameState) :
    reachable s -> reachable (handleKeyRelease key s)
| reach_tick (rendered s : GameState) :
    reachable rendered -> reachable s -> reachable (mainLoop rendered s)
| reach_spawn (rendered : GameState) (now r : Q) (s : GameState) :
    reachable rendered -> reachable s -> reachable (spawnGift rendered now r s).

(** One gift over the tray, one past the bottom edge and one in the air. *)
Definition threeGifts : GameState :=
  {| playerX := 170;
     gifts := [{| id := 1; x := 180; y := 350 |}; {| id := 2; x := 10; y := 398 |};
               {| id := 3; x := 300; y := 100 |}];
     score := 20; lives := 1; isGameOver := false; keys := ∅ |}.


(** One life left, a gift about to pass the bottom edge and a second gift
    coming down on the tray. *)
Definition lastLife : GameState :=
  {| playerX := 170;
     gifts := [{| id := 1; x := 10; y := 396 |}; {| id := 2; x := 180; y := 345 |}];
     score := 20; lives := 1; isGameOver := false; keys := ∅ |}.

End SkyGift.

(** ** Racing (RacingGame) *)

Module Racing.

Definition GAME_WIDTH : Q := 400.
Definition GAME_HEIGHT : Q := 400.
Definition PLAYER_CAR_WIDTH : Q := 40.
Definition PLAYER_CAR_HEIGHT : Q := 70.
Definition OPPONENT_CAR_WIDTH : Q := 40.
Definition OPPONENT_CAR_HEIGHT : Q := 70.
Definition ROAD_LINE_HEIGHT : Q := 50.
Definition BOSS_FIGHT_SCORE_TRIGGER : Z := 1250.
Definition OPPONENT_COLORS_length : Z := 6.

(** [LANES[lane]] for lane 0, 1, 2. *)
Definition LANES (lane : Z) : Q :=
  if (lane =? 0)%Z then GAME_WIDTH / 6 - PLAYER_CAR_WIDTH / 2
  else if (lane =? 1)%Z then GAME_WIDTH / 2 - PLAYER_CAR_WIDTH / 2
  else GAME_WIDTH * 5 / 6 - PLAYER_CAR_WIDTH / 2.

Inductive GameMode := normal | bossFight.
Inductive LaneChange := left | right.

Record Tank := mkTank {
  t_x : Q; t_y : Q; t_width : Q; t_height : Q; hp : Z; maxHp : Z; t_vx : Q;
  t_shootCooldown : Q
}.
Record Projectile := mkProjectile { p_id : Q; p_x : Q; p_y : Q; p_width : Q; p_height : Q }.
Record Explosion := mkExplosion { e_id : Q; e_x : Q; e_y : Q; e_size : Q; duration : Q }.
Record Car := mkCar { c_id : Q; c_x : Q; c_y : Q; color : Z; c_speed : Q }.
Record RoadLine := mkRoadLine { l_id : Q; l_y : Q }.

Record GameState := mkState {
  playerLane : Z;
  opponents : list Car;
  roadLines : list RoadLine;
  score : Z;
  gameSpeed : Q;
  isGameOver : bool;
  lives : Z;
  invincibilityTimer : Z;
  gameMode : GameMode;
  tank : option Tank;
  playerProjectiles : list Projectile;
  shootCooldown : Z;
  explosions : list Explosion;
  showBossWarning : bool
}.

Record Component := mkComponent {
  gameState : GameState;
  laneChangeBuffer : option LaneChange
}.

Definition createInitialState : GameState :=
  {| playerLane := 1; opponents := []; roadLines := []; score := 0; gameSpeed := 5;
     isGameOver := false; lives := 3; invincibilityTimer := 0; gameMode := normal;
     tank := None; playerProjectiles := []; shootCooldown := 0; explosions := [];
     showBossWarning := false |}.

Definition playerY : Q := GAME_HEIGHT - PLAYER_CAR_HEIGHT - 20.

Definition crash (playerX : Q) (o : Car) : bool :=
  Qlt_bool playerX (c_x o + OPPONENT_CAR_WIDTH) && Qlt_bool (c_x o) (playerX + PLAYER_CAR_WIDTH) &&
  Qlt_bool playerY (c_y o + OPPONENT_CAR_HEIGHT) && Qlt_bool (c_y o) (playerY + PLAYER_CAR_HEIGHT).

Definition moveCar (o : Car) : Car :=
  {| c_id := c_id o; c_x := c_x o; c_y := c_y o + c_speed o; color := color o;
     c_speed := c_speed o |}.

Definition ageExplosion (e : Explosion) : Explosion :=
  {| e_id := e_id e; e_x := e_x e; e_y := e_y e; e_size := e_size e;
     duration := duration e - 1 |}.

Definition safeOpponents (os : list Car) : list Car :=
  List.filter (fun o => Qlt_bool (PLAYER_CAR_HEIGHT * 2.5) (Math_abs (c_y o - playerY))) os.

(** Lines 485-497 and 536-548: the first crash costs a life. *)
Definition afterCrash (now : Q) (prev : GameState) (playerX : Q) (newOpponents : list Car)
    (activeExplosions : list Explosion) : option GameState :=
  if (invincibilityTimer prev <=? 0)%Z && existsb (crash playerX) newOpponents then
    let newLives := (lives prev - 1)%Z in
    let exs := activeExplosions ++
               [{| e_id := now; e_x := playerX + PLAYER_CAR_WIDTH / 2;
                   e_y := playerY + PLAYER_CAR_HEIGHT / 2; e_size := 80; duration := 30 |}] in
    if (newLives <=? 0)%Z then
      Some {| playerLane := playerLane prev; opponents := opponents prev;
              roadLines := roadLines prev; score := score prev; gameSpeed := gameSpeed prev;
              isGameOver := true; lives := lives prev;
              invincibilityTimer := invincibilityTimer prev; gameMode := gameMode prev;
              tank := tank prev; playerProjectiles := playerProjectiles prev;
              shootCooldown := shootCooldown prev; explosions := exs;
              showBossWarning := showBossWarning prev |}
    else
      Some {| playerLane := playerLane prev; opponents := safeOpponents newOpponents;
              roadLines := roadLines prev; score := score prev; gameSpeed := gameSpeed prev;
              isGameOver := isGameOver prev; lives := newLives;
              invincibilityTimer := 180; gameMode := gameMode prev;
              tank := tank prev; playerProjectiles := playerProjectiles prev;
              shootCooldown := shootCooldown prev; explosions := exs;
              showBossWarning := showBossWarning prev |}
  else None.

(** Lines 525-534: projectiles against the tank. *)
Fixpoint shellsVsTank (now : Q) (tk : Tank) (ps : list Projectile)
    (acc : Z * list Projectile * list Explosion) : Rand (Z * list Projectile * list Explosion) :=
  match ps with
  | [] => ret acc
  | proj :: rest =>
      let '(h, remaining, exs) := acc in
      if Qlt_bool (p_x proj) (t_x tk + t_width tk) && Qlt_bool (t_x tk) (p_x proj + p_width proj) &&
         Qlt_bool (p_y proj) (t_y tk + t_height tk) && Qlt_bool (t_y tk) (p_y proj + p_height proj)
      then
        do r <- random ;
        shellsVsTank now tk rest
          ((h - 1)%Z, remaining,
           exs ++ [{| e_id := now + r; e_x := p_x proj; e_y := p_y proj; e_size := 30;
                      duration := 15 |}])
      else shellsVsTank now tk rest (h, remaining ++ [proj], exs)
  end.

(** Lines 551-553: the ten explosions of a destroyed tank. *)
Fixpoint tankBurst (now : Q) (tk : Tank) (n : nat) (i : Q) (exs : list Explosion)
    : Rand (list Explosion) :=
  match n with
  | O => ret exs
  | S n' =>
      do rx <- random ;
      do ry <- random ;
      do rs <- random ;
      do rd <- random ;
      tankBurst now tk n' (i + 1)
        (exs ++ [{| e_id := now + i; e_x := t_x tk + rx * t_width tk;
                    e_y := t_y tk + ry * t_height tk; e_size := 20 + rs * 40;
                    duration := 30 + rd * 30 |}])
  end.

(** The state updater of [gameLoop] (lines 444-561).  [buffered] is the lane
    change read from the ref; the flag tells whether the two boss timers
    were started. *)
Definition update (now : Q) (buffered : option LaneChange) (prev : GameState)
    : Rand (GameState * bool) :=
  let newLane :=
    match buffered with
    | Some left => Z.max 0 (playerLane prev - 1)
    | Some right => Z.min 2 (playerLane prev + 1)
    | None => playerLane prev
    end in
  let playerX := LANES newLane in
  let newScore := match gameMode prev with normal => (score prev + 1)%Z | bossFight => score prev end in
  let newGameSpeed := Math_min 18 (5 + inject_Z (Math_floor (inject_Z newScore / 300))) in
  let newInvincibilityTimer := Z.max 0 (invincibilityTimer prev - 1) in
  let activeExplosions :=
    List.filter (fun e => Qlt_bool 0 (duration e)) (List.map ageExplosion (explosions prev)) in
  match gameMode prev with
  | normal =>
      if (BOSS_FIGHT_SCORE_TRIGGER <=? newScore)%Z && negb (showBossWarning prev) then
        ret ({| playerLane := playerLane prev; opponents := opponents prev;
                roadLines := roadLines prev; score := score prev; gameSpeed := gameSpeed prev;
                isGameOver := isGameOver prev; lives := lives prev;
                invincibilityTimer := invincibilityTimer prev; gameMode := gameMode prev;
                tank := tank prev; playerProjectiles := playerProjectiles prev;
                shootCooldown := shootCooldown prev; explosions := explosions prev;
                showBossWarning := true |}, true)
      else
        let newOpponents :=
          List.filter (fun o => Qlt_bool (c_y o) GAME_HEIGHT) (List.map moveCar (opponents prev)) in
        let newRoadLines :=
          List.filter (fun rl => Qlt_bool (l_y rl) GAME_HEIGHT)
            (List.map (fun rl => {| l_id := l_id rl; l_y := l_y rl + gameSpeed prev |})
                      (roadLines prev)) in
        match afterCrash now prev playerX newOpponents activeExplosions with
        | Some crashed => ret (crashed, false)
        | None =>
            ret ({| playerLane := newLane; opponents := newOpponents;
                    roadLines := newRoadLines; score := newScore; gameSpeed := newGameSpeed;
                    isGameOver := isGameOver prev; lives := lives prev;
                    invincibilityTimer := newInvincibilityTimer; gameMode := gameMode prev;
                    tank := tank prev; playerProjectiles := playerProjectiles prev;
                    shootCooldown := shootCooldown prev; explosions := activeExplosions;
                    showBossWarning := showBossWarning prev |}, false)
        end
  | bossFight =>
      match tank prev with
      | None => ret (prev, false)
      | Some tk0 =>
          let newPlayerProjectiles :=
            List.filter (fun p => Qlt_bool (- p_height p) (p_y p))
              (List.map (fun p => {| p_id := p_id p; p_x := p_x p; p_y := p_y p - 12;
                                     p_width := p_width p; p_height := p_height p |})
                        (playerProjectiles prev)) in
          let newOpponents :=
            List.filter (fun o => Qlt_bool (c_y o) GAME_HEIGHT) (List.map moveCar (opponents prev)) in
          let newShootCooldown := Z.max 0 (shootCooldown prev - 1) in
          let tx := t_x tk0 + t_vx tk0 in
          let tvx := if Qle_bool tx 0 || Qle_bool GAME_WIDTH (tx + t_width tk0)
                     then t_vx tk0 * -1 else t_vx tk0 in
          let cd := t_shootCooldown tk0 - 1 in
          do '(cd1, newOpponents1) <-
            (if Qle_bool cd 0 then
               do rc <- random ;
               do rcol <- random ;
               ret (60 + rc * 30,
                    newOpponents ++
                    [{| c_id := now;
                        c_x := tx + t_width tk0 / 2 - OPPONENT_CAR_WIDTH / 2;
                        c_y := t_y tk0 + t_height tk0;
                        color := Math_floor (rcol * inject_Z OPPONENT_COLORS_length);
                        c_speed := newGameSpeed * 1.2 |}])
             else ret (cd, newOpponents)) ;
          let tk1 := {| t_x := tx; t_y := t_y tk0; t_width := t_width tk0;
                        t_height := t_height tk0; hp := hp tk0; maxHp := maxHp tk0;
                        t_vx := tvx; t_shootCooldown := cd1 |} in
          do '(hp1, remainingProjectiles, exs1) <-
            shellsVsTank now tk1 newPlayerProjectiles (hp tk0, [], activeExplosions) ;
          let tk2 := {| t_x := tx; t_y := t_y tk0; t_width := t_width tk0;
                        t_height := t_height tk0; hp := hp1; maxHp := maxHp tk0;
                        t_vx := tvx; t_shootCooldown := cd1 |} in
          match afterCrash now prev playerX newOpponents1 exs1 with
          | Some crashed => ret (crashed, false)
          | None =>
              if (hp1 <=? 0)%Z then
                do exs2 <- tankBurst now tk2 10 0 exs1 ;
                ret ({| playerLane := playerLane createInitialState;
                        opponents := opponents createInitialState;
                        roadLines := roadLines createInitialState;
                        score := (score prev + 1000)%Z; gameSpeed := newGameSpeed;
                        isGameOver := isGameOver createInitialState;
                        lives := lives createInitialState;
                        invincibilityTimer := invincibilityTimer createInitialState;
                        gameMode := normal; tank := tank createInitialState;
                        playerProjectiles := playerProjectiles createInitialState;
                        shootCooldown := shootCooldown createInitialState;
                        explosions := exs2;
                        showBossWarning := showBossWarning createInitialState |}, false)
              else
                ret ({| playerLane := newLane; opponents := newOpponents1;
                        roadLines := roadLines prev; score := score prev;
                        gameSpeed := gameSpeed prev; isGameOver := isGameOver prev;
                        lives := lives prev; invincibilityTimer := newInvincibilityTimer;
                        gameMode := gameMode prev; tank := Some tk2;
                        playerProjectiles := remainingProjectiles;
                        shootCooldown := newShootCooldown; explosions := exs1;
                        showBossWarning := showBossWarning prev |}, false)
          end
      end
  end.

(** [gameLoop] (lines 441-562) as scheduled on a component whose last render
    shows [rendered]. *)
Definition gameLoop (now : Q) (rendered : GameState) (c : Component)
    : Rand (Component * bool) :=
  if isGameOver rendered then ret (c, false)
  else
    do '(st, timers) <- update now (laneChangeBuffer c) (gameState c) ;
    ret ({| gameState := st; laneChangeBuffer := None |}, timers).

Definition tick (now : Q) (c : Component) : Rand (Component * bool) :=
  gameLoop now (gameState c) c.

(** [handleKeyPress] (lines 411-433): the guards read the rendered state. *)
Definition handleKeyPress (now : Q) (rendered : GameState) (key : string) (c : Component)
    : Component :=
  if isGameOver rendered then c
  else if String.eqb key "ArrowLeft" then
    {| gameState := gameState c; laneChangeBuffer := Some left |}
  else if String.eqb key "ArrowRight" then
    {| gameState := gameState c; laneChangeBuffer := Some right |}
  else if String.eqb key "ArrowUp" &&
          match gameMode rendered with bossFight => true | normal => false end &&
          (shootCooldown rendered <=? 0)%Z then
    let prev := gameState c in
    let playerX := LANES (playerLane prev) in
    {| gameState :=
         {| playerLane := playerLane prev; opponents := opponents prev;
            roadLines := roadLines prev; score := score prev; gameSpeed := gameSpeed prev;
            isGameOver := isGameOver prev; lives := lives prev;
            invincibilityTimer := invincibilityTimer prev; gameMode := gameMode prev;
            tank := tank prev;
            playerProjectiles :=
              playerProjectiles prev ++
              [{| p_id := now; p_x := playerX + PLAYER_CAR_WIDTH / 2 - 5;
                  p_y := GAME_HEIGHT - PLAYER_CAR_HEIGHT - 20; p_width := 10;
                  p_height := 20 |}];
            shootCooldown := 20; explosions := explosions prev;
            showBossWarning := showBossWarning prev |};
       laneChangeBuffer := laneChangeBuffer c |}
  else c.

(** The two timers started with the boss warning (lines 463-476). *)
Definition bossWarningOff (p : GameState) : GameState :=
  {| playerLane := playerLane p; opponents := opponents p; roadLines := roadLines p;
     score := score p; gameSpeed := gameSpeed p; isGameOver := isGameOver p;
     lives := lives p; invincibilityTimer := invincibilityTimer p; gameMode := gameMode p;
     tank := tank p; playerProjectiles := playerProjectiles p;
     shootCooldown := shootCooldown p; explosions := explosions p;
     showBossWarning := false |}.

Definition bossFightStart (p : GameState) : GameState :=
  if isGameOver p || match gameMode p with bossFight => true | normal => false end then p
  else
    {| playerLane := playerLane p; opponents := []; roadLines := [];
       score := score p; gameSpeed := gameSpeed p; isGameOver := isGameOver p;
       lives := lives p; invincibilityTimer := invincibilityTimer p; gameMode := bossFight;
       tank := Some {| t_x := GAME_WIDTH / 2 - 50; t_y := 10; t_width := 100; t_height := 60;
                       hp := 30; maxHp := 30; t_vx := 2; t_shootCooldown := 60 |};
       playerProjectiles := playerProjectiles p; shootCooldown := shootCooldown p;
       explosions := explosions p; showBossWarning := showBossWarning p |}.

(** [spawnerLoop] (lines 564-586). *)
Definition spawnerLoop (now : Q) (rendered prev : GameState) : Rand GameState :=
  if isGameOver rendered || match gameMode rendered with bossFight => true | normal => false end
  then ret prev
  else
    do r <- random ;
    do newOpponents <-
      (if Qlt_bool r (0.04 + gameSpeed prev / 180) then
         do rl <- random ;
         let lane := Math_floor (rl * 3) in
         let lastOpponentInLane :=
           List.last (List.map Some (List.filter (fun o => Qeq_bool (c_x o) (LANES lane))
                                                 (opponents prev))) None in
         if match lastOpponentInLane with
            | None => true
            | Some o => Qlt_bool (OPPONENT_CAR_HEIGHT * 2.5) (c_y o)
            end
         then
           do rs <- random ;
           let carSpeed := gameSpeed prev * (0.9 + rs * 0.4) in
           do rid <- random ;
           do rcol <- random ;
           ret (opponents prev ++
                [{| c_id := now + rid; c_x := LANES lane; c_y := - OPPONENT_CAR_HEIGHT;
                    color := Math_floor (rcol * inject_Z OPPONENT_COLORS_length);
                    c_speed := carSpeed |}])
         else ret (opponents prev)
       else ret (opponents prev)) ;
    let lastLine := List.last (List.map Some (roadLines prev)) None in
    let newRoadLines :=
      if match lastLine with
         | None => true
         | Some l => Qlt_bool (ROAD_LINE_HEIGHT * 1.5) (l_y l)
         end
      then roadLines prev ++ [{| l_id := now; l_y := - ROAD_LINE_HEIGHT |}]
      else roadLines prev in
    ret {| playerLane := playerLane prev; opponents := newOpponents;
           roadLines := newRoadLines; score := score prev; gameSpeed := gameSpeed prev;
           isGameOver := isGameOver prev; lives := lives prev;
           invincibilityTimer := invincibilityTimer prev; gameMode := gameMode prev;
           tank := tank prev; playerProjectiles := playerProjectiles prev;
           shootCooldown := shootCooldown prev; explosions := explosions prev;
           showBossWarning := showBossWarning prev |}.

(** [restartGame] (lines 207-210 of the component). *)
Definition restartGame (c : Component) : Component :=
  {| gameState := createInitialState; laneChangeBuffer := None |}.

(** Components a player can bring about.  The callbacks of a render may
    run on a later state, so [rendered] is any state. *)
Inductive reachable : Component -> Prop :=
| reach_mount : reachable {| gameState := createInitialState; laneChangeBuffer := None |}
| reach_restart (c : Component) : reachable c -> reachable (restartGame c)
| reach_key (now : Q) (rendered : GameState) (key : string) (c : Component) :
    reachable c -> reachable (handleKeyPress now rendered key c)
| reach_tick (now : Q) (rendered : GameState) (rnd : nat -> Q) (i : nat) (c : Component) :
    reachable c -> reachable (fst (fst (gameLoop now rendered c rnd i)))
| reach_warningOff (c : Component) :
    reachable c ->
    reachable {| gameState := bossWarningOff (gameState c);
                 laneChangeBuffer := laneChangeBuffer c |}
| reach_bossFight (c : Component) :
    reachable c ->
    reachable {| gameState := bossFightStart (gameState c);
                 laneChangeBuffer := laneChangeBuffer c |}
| reach_spawner (now : Q) (rendered : GameState) (rnd : nat -> Q) (i : nat) (c : Component) :
    reachable c ->
    reachable {| gameState := fst (spawnerLoop now rendered (gameState c) rnd i);
                 laneChangeBuffer := laneChangeBuffer c |}.

(** A car right in front of the player in the middle lane, two lives left. *)
Definition tailgating : GameState :=
  {| playerLane := 1;
     opponents := [{| c_id := 1; c_x := LANES 1; c_y := 300; color := 0; c_speed := 6 |};
                   {| c_id := 2; c_x := LANES 0; c_y := 40; color := 1; c_speed := 6 |}];
     roadLines := []; score := 700; gameSpeed := 7; isGameOver := false; lives := 2;
     invincibilityTimer := 0; gameMode := normal; tank := None; playerProjectiles := [];
     shootCooldown := 0; explosions := []; showBossWarning := false |}.


(** [tailgating] on the last life. *)
Definition lastLife : Component :=
  {| gameState :=
       {| playerLane := 1;
          opponents := [{| c_id := 1; c_x := LANES 1; c_y := 300; color := 0; c_speed := 6 |};
                        {| c_id := 2; c_x := LANES 0; c_y := 40; color := 1; c_speed := 6 |}];
          roadLines := []; score := 700; gameSpeed := 7; isGameOver := false; lives := 1;
          invincibilityTimer := 0; gameMode := normal; tank := None; playerProjectiles := [];
          shootCooldown := 0; explosions := []; showBossWarning := false |};
     laneChangeBuffer := None |}.

End Racing.

(** ** The calculator and the screens behind it (components/Calculator.tsx,
    App.tsx) *)

Module Calculator.
Import Stdlib.Strings.Ascii.

Record State := mkCalc { display : string; expression : string }.

Definition initial : State := {| display := "0"; expression := "" |}.

(** [handleNumberClick] (lines 25-38). *)
Definition handleNumberClick (num : string) (c : State) : State :=
  if String.eqb (display c) "Error" then {| display := num; expression := num |}
  else if String.eqb (display c) "0" && negb (String.eqb num ".")
  then {| display := num; expression := num |}
  else {| display := String.append (display c) num;
          expression := String.append (expression c) num |}.

(** [handleOperatorClick] (lines 40-44). *)
Definition handleOperatorClick (op : string) (c : State) : State :=
  if String.eqb (display c) "Error" then c
  else {| display := String.append (display c) op;
          expression := String.append (expression c) op |}.

(** The secret codes of [handleEquals] (lines 48-87). *)
Definition secretCode (shown : string) : option string :=
  if String.eqb shown "0" then Some "social"
  else if String.eqb shown "1+1" then Some "snake"
  else if String.eqb shown "2+2" then Some "sky"
  else if String.eqb shown "3+3" then Some "danger"
  else if String.eqb shown "4+4" then Some "racing"
  else if String.eqb shown "5+5" then Some "platformer"
  else if String.eqb shown "6+6" then Some "shooter"
  else if String.eqb shown "7+7" then Some "keepup"
  else if String.eqb shown "8+8" then Some "dotrunner"
  else if String.eqb shown "0+0" then Some "marketplace"
  else None.

(** [handleEquals] (lines 46-103).  [evaluate] stands for lines 92-96: the
    string shown for the value of the expression, or [None] when the
    evaluation throws or the value is not a finite number.  The second
    component is the game passed to [onActivateGame]. *)
Definition handleEquals (evaluate : string -> option string) (c : State)
    : State * option string :=
  match secretCode (display c) with
  | Some game => (c, Some game)
  | None =>
      match evaluate (expression c) with
      | Some finalResult => ({| display := finalResult; expression := finalResult |}, None)
      | None => ({| display := "Error"; expression := "" |}, None)
      end
  end.

(** [handleClear] (lines 105-108). *)
Definition handleClear (c : State) : State := initial.

Definition isOperator (a : Ascii.ascii) : bool :=
  Ascii.eqb a "+"%char || Ascii.eqb a "-"%char || Ascii.eqb a "*"%char ||
  Ascii.eqb a "/"%char.

(** [s.split(/[\+\-\*\/]/)]. *)
Fixpoint split (s : string) : list string :=
  match s with
  | EmptyString => [EmptyString]
  | String a rest =>
      if isOperator a then EmptyString :: split rest
      else match split rest with
           | part :: parts => String a part :: parts
           | [] => [String a EmptyString]
           end
  end.

Fixpoint dots (s : string) : nat :=
  match s with
  | EmptyString => O
  | String a rest => (if Ascii.eqb a "."%char then 1 else 0) + dots rest
  end.

Definition includesDot (s : string) : bool := negb (dots s =? 0)%nat.

(** [handleDecimal] (lines 110-117). *)
Definition handleDecimal (c : State) : State :=
  let parts := split (display c) in
  let lastPart := List.last parts EmptyString in
  if negb (includesDot lastPart)
  then {| display := String.append (display c) ".";
          expression := String.append (expression c) "." |}
  else c.

(** The keys of the pad (lines 125-145). *)
Inductive Digit := D0 | D1 | D2 | D3 | D4 | D5 | D6 | D7 | D8 | D9.
Inductive Operator := Divide | Times | Minus | Plus.

Definition digitKey (d : Digit) : string :=
  match d with
  | D0 => "0" | D1 => "1" | D2 => "2" | D3 => "3" | D4 => "4"
  | D5 => "5" | D6 => "6" | D7 => "7" | D8 => "8" | D9 => "9"
  end.

Definition operatorKey (o : Operator) : string :=
  match o with Divide => "/" | Times => "*" | Minus => "-" | Plus => "+" end.

Inductive Button := Num (d : Digit) | Op (o : Operator) | Equals | Clear | Decimal.

Definition press (evaluate : string -> option string) (b : Button) (c : State)
    : State * option string :=
  match b with
  | Num d => (handleNumberClick (digitKey d) c, None)
  | Op o => (handleOperatorClick (operatorKey o) c, None)
  | Equals => handleEquals evaluate c
  | Clear => (handleClear c, None)
  | Decimal => (handleDecimal c, None)
  end.

Definition typeKeys (evaluate : string -> option string) (bs : list Button) (c : State)
    : State :=
  fold_left (fun st b => fst (press evaluate b st)) bs c.

(** [renderGame] of App.tsx and of the later copy of App.tsx (in
    unnamed/part_002): the screen mounted for [activeGame], if any. *)
Inductive Screen :=
| SnakeGame | SkyGiftGame | DangerGame | RacingGame | PlatformerGame | ShooterGame
| KeepUpGame | DotRunnerGame | Marketplace | SocialHub.

Definition renderGame (activeGame : string) : option Screen :=
  if String.eqb activeGame "snake" then Some SnakeGame
  else if String.eqb activeGame "sky" then Some SkyGiftGame
  else if String.eqb activeGame "danger" then Some DangerGame
  else if String.eqb activeGame "racing" then Some RacingGame
  else if String.eqb activeGame "platformer" then Some PlatformerGame
  else if String.eqb activeGame "shooter" then Some ShooterGame
  else if String.eqb activeGame "keepup" then Some KeepUpGame
  else if String.eqb activeGame "dotrunner" then Some DotRunnerGame
  else None.

Definition renderGameLater (activeGame : string) : option Screen :=
  if String.eqb activeGame "snake" then Some SnakeGame
  else if String.eqb activeGame "sky" then Some SkyGiftGame
  else if String.eqb activeGame "danger" then Some DangerGame
  else if String.eqb activeGame "racing" then Some RacingGame
  else if String.eqb activeGame "platformer" then Some PlatformerGame
  else if String.eqb activeGame "shooter" then Some ShooterGame
  else if String.eqb activeGame "keepup" then Some KeepUpGame
  else if String.eqb activeGame "dotrunner" then Some DotRunnerGame
  else if String.eqb activeGame "marketplace" then Some Marketplace
  else if String.eqb activeGame "social" then Some SocialHub
  else None.

(** The card shows its back face when [activeGame] is not 'none'. *)
Definition flipped (activeGame : string) : bool := negb (String.eqb activeGame "none").

(** An evaluator that answers [r] to every expression. *)
Definition answering (r : string) (e : string) : option string := Some r.

End Calculator.

(** ** Marketplace (components/Marketplace.tsx) *)

Module Marketplace.

(** Shared with the platformer and, through it, with the keep-up game. *)
Definition CURRENCY_KEY : string := "platformer_totalCoins".

(** A listing; the image and the attached file are left out. *)
Record MarketItem := mkItem {
  id : string;
  title : string;
  description : string;
  price : Z;
  seller : string;
  isSold : bool
}.

Definition DEFAULT_ITEMS : list MarketItem :=
  [ {| id := "def-1"; title := "Glitch Key";
       description := "A mysterious key found in the void."; price := 500;
       seller := "System"; isSold := false |};
    {| id := "def-2"; title := "Cyber Burger"; description := "100% Digital calories.";
       price := 50; seller := "Chef_Bot"; isSold := false |};
    {| id := "def-3"; title := "Invisibility Cloak";
       description := "You can't see it, but it's there."; price := 1500;
       seller := "Ghost"; isSold := false |} ].

(** [localStorage]: the integer entries as in the keep-up game, and the two
    JSON entries 'marketplace_listings' and 'marketplace_inventory' by the
    lists they encode. *)
Record Storage := mkStorage {
  ints : gmap string Z;
  listings : option (list MarketItem);
  stock : option (list MarketItem)
}.

Record State := mkState {
  balance : Z;
  items : list MarketItem;
  inventory : list MarketItem
}.

(** The effect run at mount (lines 74-105). *)
Definition mount (ls : Storage) : State * Storage :=
  ({| balance := KeepUp.getInt (ints ls) CURRENCY_KEY;
      items := match listings ls with Some l => l | None => DEFAULT_ITEMS end;
      inventory := match stock ls with Some l => l | None => [] end |},
   {| ints := ints ls;
      listings := match listings ls with Some l => Some l | None => Some DEFAULT_ITEMS end;
      stock := stock ls |}).

Definition markSold (bought : MarketItem) (i : MarketItem) : MarketItem :=
  if String.eqb (id i) (id bought)
  then {| id := id i; title := title i; description := description i; price := price i;
          seller := seller i; isSold := true |}
  else i.

(** [handleBuy] (lines 112-132). *)
Definition handleBuy (item : MarketItem) (w : State * Storage) : State * Storage :=
  let '(st, ls) := w in
  if (price item <=? balance st)%Z then
    let newBalance := (balance st - price item)%Z in
    let updatedItems := List.map (markSold item) (items st) in
    let newInventory := item :: inventory st in
    ({| balance := newBalance; items := updatedItems; inventory := newInventory |},
     {| ints := <[CURRENCY_KEY := newBalance]> (ints ls);
        listings := Some updatedItems;
        stock := Some newInventory |})
  else w.

(** What [parseInt(sellPrice, 10)] gave. *)
Inductive Price := NaN | Int (n : Z).

(** [handleListItem] (lines 157-198): the form fields, the parsed price and
    [Date.now().toString()]. *)
Definition handleListItem (sellTitle sellPrice sellDesc : string) (sellImage : bool)
    (priceNum : Price) (now : string) (w : State * Storage) : State * Storage :=
  let '(st, ls) := w in
  if String.eqb sellTitle "" || String.eqb sellPrice "" || negb sellImage then w
  else
    match priceNum with
    | NaN => w
    | Int n =>
        if (n <? 0)%Z then w
        else
          let newItem := {| id := now; title := sellTitle;
                            description := if String.eqb sellDesc ""
                                           then "No description provided." else sellDesc;
                            price := n; seller := "You"; isSold := false |} in
          let updatedItems := newItem :: items st in
          ({| balance := balance st; items := updatedItems; inventory := inventory st |},
           {| ints := ints ls; listings := Some updatedItems; stock := stock ls |})
    end.

(** The buy tab offers the listings that are not sold (lines 266-283). *)
Definition offered (st : State) : list MarketItem :=
  List.filter (fun i => negb (isSold i)) (items st).

(** What a visitor can do after the component has mounted on [ls0]. *)
Inductive reachable (ls0 : Storage) : State * Storage -> Prop :=
| reach_mount : reachable ls0 (mount ls0)
| reach_buy (item : MarketItem) (w : State * Storage) :
    reachable ls0 w -> In item (offered (fst w)) -> reachable ls0 (handleBuy item w)
| reach_list (sellTitle sellPrice sellDesc : string) (sellImage : bool) (priceNum : Price)
    (now : string) (w : State * Storage) :
    reachable ls0 w ->
    reachable ls0 (handleListItem sellTitle sellPrice sellDesc sellImage priceNum now w).

(** A first visit with 60 coins. *)
Definition firstVisit : Storage :=
  {| ints := <[CURRENCY_KEY := 60%Z]> ∅; listings := None; stock := None |}.

Definition burger : MarketItem := List.nth 1 DEFAULT_ITEMS (mkItem "" "" "" 0 "" false).

End Marketplace.

(** ** The interval hook (hooks/useInterval.ts) *)

Module UseInterval.

(** The timers of the page: the intervals that are set, each with its
    delay, and the next id [setInterval] hands out. *)
Record Timers := mkTimers { live : list (nat * Q); nextId : nat }.

Definition setInterval (delay : Q) (t : Timers) : nat * Timers :=
  (nextId t, {| live := live t ++ [(nextId t, delay)]; nextId := S (nextId t) |}).

Definition clearInterval (id : nat) (t : Timers) : Timers :=
  {| live := List.filter (fun e => negb (fst e =? id)%nat) (live t); nextId := nextId t |}.

(** One use of the hook.  A callback is known by its identity, a number.
    [callbackDep] and [delayDep] are the dependencies seen by the last run
    of the two effects ([None] before the first), and [cleanup] is the id
    that the cleanup returned by the second effect would clear. *)
Record Hook := mkHook {
  savedCallback : option nat;
  callbackDep : option nat;
  delayDep : option (option Q);
  cleanup : option nat
}.

Definition unused : Hook :=
  {| savedCallback := None; callbackDep := None; delayDep := None; cleanup := None |}.

(** Two delays are the same dependency when both are [null] or both are the
    same number. *)
Definition sameDelay (a b : option Q) : bool :=
  match a, b with
  | None, None => true
  | Some x, Some y => Qeq_bool x y
  | _, _ => false
  end.

(** A render of the component with [useInterval(callback, delay)] (lines
    3-23), followed by its commit: the cleanups of the effects whose
    dependencies changed, then those effects. *)
Definition render (callback : nat) (delay : option Q) (w : Hook * Timers) : Hook * Timers :=
  let '(h, t) := w in
  let callbackChanged :=
    match callbackDep h with Some c => negb (c =? callback)%nat | None => true end in
  let delayChanged :=
    match delayDep h with Some d => negb (sameDelay d delay) | None => true end in
  let t1 := if delayChanged
            then match cleanup h with Some id => clearInterval id t | None => t end
            else t in
  let saved := if callbackChanged then Some callback else savedCallback h in
  if delayChanged then
    match delay with
    | Some d =>
        let '(id, t2) := setInterval d t1 in
        ({| savedCallback := saved; callbackDep := Some callback; delayDep := Some delay;
            cleanup := Some id |}, t2)
    | None =>
        ({| savedCallback := saved; callbackDep := Some callback; delayDep := Some delay;
            cleanup := None |}, t1)
    end
  else
    ({| savedCallback := saved; callbackDep := Some callback; delayDep := delayDep h;
        cleanup := cleanup h |}, t1).

(** Unmounting runs the cleanup of the second effect. *)
Definition unmount (w : Hook * Timers) : Hook * Timers :=
  let '(h, t) := w in
  (unused, match cleanup h with Some id => clearInterval id t | None => t end).

(** The browser fires interval [id]: the callback that [tick] (lines 13-17)
    calls, if the interval is set and a callback is saved. *)
Definition fire (id : nat) (w : Hook * Timers) : option nat :=
  let '(h, t) := w in
  if existsb (fun e => (fst e =? id)%nat) (live t) then savedCallback h else None.

Definition renders (rs : list (nat * option Q)) (w : Hook * Timers) : Hook * Timers :=
  fold_left (fun st r => render (fst r) (snd r) st) rs w.

Definition noTimers : Timers := {| live := []; nextId := 0 |}.

End UseInterval.

(** * Properties *)

(** ** Arithmetic helpers *)

Lemma Qlt_bool_iff (a b : Q) : Qlt_bool a b = true <-> a < b.
Proof.
  unfold Qlt_bool. rewrite negb_true_iff. split.
  - intros H. apply Qnot_le_lt. intros Hle.
    apply Qle_bool_iff in Hle. congruence.
  - intros H. destruct (Qle_bool b a) eqn:E; [|reflexivity].
    apply Qle_bool_iff in E. exfalso. apply (Qlt_not_le _ _ H E).
Qed.

Lemma Qlt_bool_false_iff (a b : Q) : Qlt_bool a b = false <-> b <= a.
Proof.
  unfold Qlt_bool. rewrite negb_false_iff. apply Qle_bool_iff.
Qed.

Lemma Qle_bool_false_iff (a b : Q) : Qle_bool a b = false <-> b < a.
Proof.
  rewrite <- Qlt_bool_iff. unfold Qlt_bool.
  destruct (Qle_bool a b); simpl; split; congruence.
Qed.

Lemma Math_max_lower (a b : Q) : a <= Math_max a b.
Proof.
  unfold Math_max. destruct (Qle_bool a b) eqn:E.
  - now apply Qle_bool_iff.
  - apply Qle_refl.
Qed.

Lemma Math_max_upper (a b c : Q) : a <= c -> b <= c -> Math_max a b <= c.
Proof. unfold Math_max. destruct (Qle_bool a b); auto. Qed.

Lemma Math_min_upper (a b : Q) : Math_min a b <= b.
Proof.
  unfold Math_min. destruct (Qle_bool a b) eqn:E.
  - now apply Qle_bool_iff.
  - apply Qle_refl.
Qed.

Lemma Math_min_lower (a b c : Q) : c <= a -> c <= b -> c <= Math_min a b.
Proof. unfold Math_min. destruct (Qle_bool a b); auto. Qed.

(** [Math.max(lo, Math.min(v, hi))] lands in [[lo, hi]]. *)
Lemma clamp_bounds (lo hi v : Q) :
  lo <= hi -> lo <= Math_max lo (Math_min v hi) <= hi.
Proof.
  intros H. split.
  - apply Math_max_lower.
  - apply Math_max_upper; [exact H | apply Math_min_upper].
Qed.

(** The same with the arguments of [Math.min] swapped. *)
Lemma clamp_bounds' (lo hi v : Q) :
  lo <= hi -> lo <= Math_max lo (Math_min hi v) <= hi.
Proof.
  intros H. split.
  - apply Math_max_lower.
  - apply Math_max_upper; [exact H|].
    unfold Math_min. destruct (Qle_bool hi v) eqn:E.
    + apply Qle_refl.
    + apply Qle_bool_false_iff in E. now apply Qlt_le_weak.
Qed.

(** A value already inside the interval is left alone. *)
Lemma clamp_inside (lo hi v : Q) :
  lo <= v -> v <= hi -> Math_max lo (Math_min v hi) = v.
Proof.
  intros Hlo Hhi. unfold Math_min.
  apply Qle_bool_iff in Hhi. rewrite Hhi.
  unfold Math_max. apply Qle_bool_iff in Hlo. now rewrite Hlo.
Qed.

(** ** Balloon keep-up *)

Section KeepUpFacts.
Import KeepUp.

Lemma playing_gameLoop (r : Q) (s : GameState) :
  isGameOver s = false ->
  gameLoop r s =
    let flashTimer1 :=
      if (0 <? flashTimer s)%Z then (flashTimer s - 1)%Z else flashTimer s in
    let shockwave1 := shockwaveLocal (shockwave s) in
    let moved := applyPhysics (gravity s) (balloon s) in
    let b := wallCollisions moved in
    let cues := wallCues moved in
    if hitPaddle b (paddleX s) then
      let newScore := (score s + 1)%Z in
      let fired := isThreshold newScore in
      let paddleCenter := paddleX s + PADDLE_WIDTH / 2 in
      let hitPosition := (x b - paddleCenter) / (PADDLE_WIDTH / 2) in
      ({| balloon := {| x := x b;
                        y := PADDLE_Y_POS - BALLOON_RADIUS;
                        vx := hitPosition * vxMultiplier newScore;
                        vy := (HIT_FORCE + r * -1) * forceMultiplier newScore |};
          paddleX := paddleX s;
          score := newScore;
          isGameOver := isGameOver s;
          gravity := tierGravity newScore (gravity s);
          flashTimer := if fired then 15%Z else flashTimer1;
          shockwave := if fired
                       then {| active := true; size := 0; opacity := 1 |}
                       else shockwave1 |},
       cues ++ [HitSound] ++ (if fired then [TransformSound] else []))
    else if Qlt_bool GAME_HEIGHT (y b) then
      ({| balloon := b;
          paddleX := paddleX s;
          score := score s;
          isGameOver := true;
          gravity := gravity s;
          flashTimer := flashTimer s;
          shockwave := shockwaveMutated (shockwave s) |},
       cues ++ [GameOverSound])
    else
      ({| balloon := b;
          paddleX := paddleX s;
          score := score s;
          isGameOver := isGameOver s;
          gravity := gravity s;
          flashTimer := flashTimer1;
          shockwave := shockwave1 |},
       cues).
Proof. intros H. unfold gameLoop. now rewrite H. Qed.

(** The horizontal position is decided by the wall rule alone: neither the
    paddle hit nor the game-over return touches it. *)
Lemma gameLoop_x (r : Q) (s : GameState) :
  isGameOver s = false ->
  x (balloon (fst (gameLoop r s))) =
  x (wallCollisions (applyPhysics (gravity s) (balloon s))).
Proof.
  intros H. rewrite (playing_gameLoop _ _ H). cbv zeta.
  destruct (hitPaddle _ _); [reflexivity|].
  destruct (Qlt_bool GAME_HEIGHT _); reflexivity.
Qed.

(** Without a paddle hit the balloon of the next state is exactly the
    balloon left by the wall rule (also on the game-over return, which
    shares the mutated object). *)
Lemma gameLoop_balloon_no_hit (r : Q) (s : GameState) :
  isGameOver s = false ->
  hitPaddle (wallCollisions (applyPhysics (gravity s) (balloon s))) (paddleX s) = false ->
  balloon (fst (gameLoop r s)) =
  wallCollisions (applyPhysics (gravity s) (balloon s)).
Proof.
  intros H Hhit. rewrite (playing_gameLoop _ _ H). cbv zeta. rewrite Hhit.
  destruct (Qlt_bool GAME_HEIGHT _); reflexivity.
Qed.

Lemma sideWalls_y (b : Balloon) : y (sideWalls b) = y b.
Proof. unfold sideWalls. destruct (crossesSideWall b); reflexivity. Qed.

Lemma sideWalls_vy (b : Balloon) : vy (sideWalls b) = vy b.
Proof. unfold sideWalls. destruct (crossesSideWall b); reflexivity. Qed.

Lemma ceiling_x (b : Balloon) : x (ceiling b) = x b.
Proof. unfold ceiling. destruct (crossesCeiling b); reflexivity. Qed.

Lemma ceiling_vx (b : Balloon) : vx (ceiling b) = vx b.
Proof. unfold ceiling. destruct (crossesCeiling b); reflexivity. Qed.

Lemma crossesCeiling_sideWalls (b : Balloon) :
  crossesCeiling (sideWalls b) = crossesCeiling b.
Proof. unfold crossesCeiling. now rewrite sideWalls_y. Qed.

(** A balloon put back on the ceiling cannot touch the paddle. *)
Lemma ceiling_no_hit (b : Balloon) (paddle : Q) :
  crossesCeiling b = true -> hitPaddle (wallCollisions b) paddle = false.
Proof.
  intros H. unfold wallCollisions, ceiling.
  rewrite crossesCeiling_sideWalls, H. unfold hitPaddle. cbn [y].
  replace (Qle_bool PADDLE_Y_POS (BALLOON_RADIUS + BALLOON_RADIUS)) with false
    by reflexivity.
  now rewrite andb_false_r.
Qed.

(** C2.  In a tick of the keep-up game (a playing state), let [moved] be
    the balloon after gravity and motion.  If [moved] is past a side wall,
    the wall rule multiplies the horizontal velocity by -0.95 and clamps x
    into [[radius, width - radius]], and that x is the x of the next state.
    If [moved] is above the ceiling, the next state has y = radius and the
    vertical velocity of [moved] multiplied by -0.9.  Unless the paddle is
    hit in the same tick, the next balloon is the one the wall rule left. *)
Theorem C2_wall_and_ceiling_reflection (r : Q) (s : GameState) :
  isGameOver s = false ->
  let moved := applyPhysics (gravity s) (balloon s) in
  let walled := wallCollisions moved in
  let next := balloon (fst (gameLoop r s)) in
  (crossesSideWall moved = true ->
     vx walled == vx moved * -0.95 /\
     x walled = Math_max BALLOON_RADIUS (Math_min (x moved) (GAME_WIDTH - BALLOON_RADIUS)) /\
     BALLOON_RADIUS <= x next <= GAME_WIDTH - BALLOON_RADIUS) /\
  (crossesCeiling moved = true ->
     vy next == vy moved * -0.9 /\ y next == BALLOON_RADIUS) /\
  x next = x walled /\
  (hitPaddle walled (paddleX s) = false -> next = walled).
Proof.
  intros Hplay moved walled next.
  assert (Hx : x next = x walled) by (apply gameLoop_x; exact Hplay).
  split; [|split; [|split]].
  - intros Hside.
    assert (Hw : x walled =
                 Math_max BALLOON_RADIUS (Math_min (x moved) (GAME_WIDTH - BALLOON_RADIUS))
                 /\ vx walled = vx moved * -0.95).
    { unfold walled, wallCollisions. rewrite ceiling_x, ceiling_vx.
      unfold sideWalls. rewrite Hside. split; reflexivity. }
    destruct Hw as [Hwx Hwv]. split; [now rewrite Hwv|]. split; [exact Hwx|].
    rewrite Hx, Hwx. apply clamp_bounds. unfold Qle; simpl; lia.
  - intros Hceil.
    assert (Hno : hitPaddle walled (paddleX s) = false)
      by (apply ceiling_no_hit; exact Hceil).
    assert (Hb : next = walled)
      by (apply gameLoop_balloon_no_hit; assumption).
    rewrite Hb. unfold walled, wallCollisions, ceiling.
    rewrite crossesCeiling_sideWalls. fold moved. rewrite Hceil. cbn [vy y].
    rewrite sideWalls_vy. split; reflexivity.
  - exact Hx.
  - intros Hno. apply gameLoop_balloon_no_hit; assumption.
Qed.

Lemma C2_wall_and_ceiling_reflection_witness :
  let s := {| balloon := {| x := 30; y := 30; vx := -10; vy := -10 |};
              paddleX := 150; score := 0; isGameOver := false;
              gravity := 0.1; flashTimer := 0;
              shockwave := {| active := false; size := 0; opacity := 1 |} |} in
  isGameOver s = false /\
  (BALLOON_RADIUS <= x (balloon (fst (gameLoop 0 s))) <= GAME_WIDTH - BALLOON_RADIUS) /\
  y (balloon (fst (gameLoop 0 s))) == BALLOON_RADIUS.
Proof.
  intros s. split; [reflexivity|].
  destruct (C2_wall_and_ceiling_reflection 0 s eq_refl) as (Hside & Hceil & _).
  split.
  - apply Hside. reflexivity.
  - apply Hceil. reflexivity.
Defined.

(** *** The first paddle hit *)




(** The state [aboveThePaddle] is where the initial state (initial draw 0.5)
    is after 63 ticks, none of which met the paddle test. *)
Lemma aboveThePaddle_is_reached :
  dropsTo 63 0.5 (createInitialState 0.5) aboveThePaddle = true.
Proof. vm_compute. reflexivity. Qed.


(** *** Threshold events *)

Lemma wallCues_no_transform (b : Balloon) : existsb isTransform (wallCues b) = false.
Proof.
  unfold wallCues. rewrite existsb_app.
  destruct (crossesSideWall b), (crossesCeiling (sideWalls b)); reflexivity.
Qed.

(** One step changes the score by 0 or by 1, and plays the transform cue
    exactly when it raises the score to a threshold. *)
Lemma step_score (a : Action) (s : GameState) :
  (score (fst (step a s)) = score s /\ existsb isTransform (snd (step a s)) = false) \/
  (score (fst (step a s)) = (score s + 1)%Z /\
   existsb isTransform (snd (step a s)) = isThreshold (score s + 1)).
Proof.
  destruct a as [r | rl sc cx]; simpl.
  - destruct (isGameOver s) eqn:Hg.
    + left. unfold gameLoop. rewrite Hg. split; reflexivity.
    + rewrite (playing_gameLoop _ _ Hg). cbv zeta.
      destruct (hitPaddle _ _).
      * right. cbn [fst snd score]. split; [reflexivity|].
        rewrite existsb_app, wallCues_no_transform. simpl.
        destruct (isThreshold (score s + 1)); reflexivity.
      * left. destruct (Qlt_bool GAME_HEIGHT _); cbn [fst snd score];
          (split; [reflexivity|]).
        -- rewrite existsb_app, wallCues_no_transform. reflexivity.
        -- apply wallCues_no_transform.
  - left. unfold handlePointerMove. destruct (isGameOver s); split; reflexivity.
Qed.

Lemma step_score_bounds (a : Action) (s : GameState) :
  (score s <= score (fst (step a s)) <= score s + 1)%Z.
Proof. destruct (step_score a s) as [[H _] | [H _]]; lia. Qed.

Lemma final_cons (a : Action) (l : list Action) (s : GameState) :
  final (a :: l) s = final l (fst (step a s)).
Proof. reflexivity. Qed.

Lemma final_score_mono (l : list Action) (s : GameState) :
  (score s <= score (final l s))%Z.
Proof.
  revert s. induction l as [|a l IH]; intros s.
  - simpl. lia.
  - rewrite final_cons. pose proof (step_score_bounds a s). specialize (IH (fst (step a s))). lia.
Qed.

Lemma run_cons (a : Action) (l : list Action) (s : GameState) :
  run (a :: l) s = step a s :: run l (fst (step a s)).
Proof. reflexivity. Qed.

Lemma firings_cons (t : Z) (o : GameState * list Cue) (tr : list (GameState * list Cue)) :
  firings t (o :: tr) = ((if firesAt t o then 1 else 0) + firings t tr)%nat.
Proof. unfold firings. simpl. destruct (firesAt t o); reflexivity. Qed.

Lemma firings_from (t : Z) (l : list Action) (s : GameState) :
  isThreshold t = true ->
  firings t (run l s) =
  (if ((score s <? t)%Z && (t <=? score (final l s))%Z)%bool then 1 else 0)%nat.
Proof.
  intros Ht. revert s. induction l as [|a l IH]; intros s.
  - simpl. unfold firings. simpl.
    destruct (score s <? t)%Z eqn:E1, (t <=? score s)%Z eqn:E2; try reflexivity.
    apply Z.ltb_lt in E1. apply Z.leb_le in E2. lia.
  - rewrite final_cons, run_cons, firings_cons.
    specialize (IH (fst (step a s))).
    pose proof (final_score_mono l (fst (step a s))) as Hmono.
    set (s1 := fst (step a s)) in *. set (f := final l s1) in *.
    assert (Hfire : firesAt t (step a s) =
                    ((score s <? t)%Z && (t <=? score s1)%Z)%bool).
    { unfold firesAt. fold s1.
      destruct (step_score a s) as [[Hs Hc] | [Hs Hc]]; fold s1 in Hs; rewrite Hc, Hs.
      - simpl. symmetry. apply andb_false_iff.
        destruct (score s <? t)%Z eqn:E1; [right|left; reflexivity].
        apply Z.ltb_lt in E1. apply Z.leb_gt. lia.
      - destruct (score s + 1 =? t)%Z eqn:E.
        + apply Z.eqb_eq in E. rewrite E, Ht. simpl. symmetry.
          apply andb_true_iff. split; [apply Z.ltb_lt|apply Z.leb_le]; lia.
        + rewrite andb_false_r. symmetry. apply Z.eqb_neq in E.
          apply andb_false_iff.
          destruct (score s <? t)%Z eqn:E1; [right|left; reflexivity].
          apply Z.ltb_lt in E1. apply Z.leb_gt. lia. }
    rewrite Hfire.
    destruct (score s <? t)%Z eqn:E1, (t <=? score s1)%Z eqn:E2; cbn [andb];
      rewrite IH;
      destruct (score s1 <? t)%Z eqn:E3, (t <=? score f)%Z eqn:E4; cbn [andb];
      try reflexivity;
      repeat match goal with
             | H : (_ <? _)%Z = true |- _ => apply Z.ltb_lt in H
             | H : (_ <? _)%Z = false |- _ => apply Z.ltb_ge in H
             | H : (_ <=? _)%Z = true |- _ => apply Z.leb_le in H
             | H : (_ <=? _)%Z = false |- _ => apply Z.leb_gt in H
             end;
      pose proof (step_score_bounds a s) as Hb; fold s1 in Hb; lia.
Qed.

(** The transform cue goes with the flash and the shockwave. *)
Lemma transform_starts_flash (a : Action) (s : GameState) :
  existsb isTransform (snd (step a s)) = true ->
  flashTimer (fst (step a s)) = 15%Z /\
  shockwave (fst (step a s)) = {| active := true; size := 0; opacity := 1 |}.
Proof.
  destruct a as [r | rl sc cx]; simpl; [|discriminate].
  destruct (isGameOver s) eqn:Hg.
  - unfold gameLoop. rewrite Hg. discriminate.
  - rewrite (playing_gameLoop _ _ Hg). cbv zeta.
    destruct (hitPaddle _ _).
    + cbn [fst snd flashTimer shockwave].
      rewrite existsb_app, wallCues_no_transform. simpl.
      destruct (isThreshold (score s + 1)); [auto | discriminate].
    + destruct (Qlt_bool GAME_HEIGHT _); cbn [fst snd].
      * rewrite existsb_app, wallCues_no_transform. discriminate.
      * rewrite wallCues_no_transform. discriminate.
Qed.

(** The flash timer and the wave after a step: set by the step that plays
    the transform cue, and otherwise left to run down, to grow and to
    fade. *)
Lemma step_flash_wave (a : Action) (s : GameState) :
  if existsb isTransform (snd (step a s))
  then flashTimer (fst (step a s)) = 15%Z /\
       shockwave (fst (step a s)) = {| active := true; size := 0; opacity := 1 |}
  else (flashTimer (fst (step a s)) = flashTimer s \/
        ((0 < flashTimer s)%Z /\ flashTimer (fst (step a s)) = (flashTimer s - 1)%Z)) /\
       (shockwave (fst (step a s)) = shockwave s \/
        shockwave (fst (step a s)) = shockwaveLocal (shockwave s) \/
        shockwave (fst (step a s)) = shockwaveMutated (shockwave s)).
Proof.
  assert (Hf : let f1 := if (0 <? flashTimer s)%Z then (flashTimer s - 1)%Z else flashTimer s in
               f1 = flashTimer s \/ ((0 < flashTimer s)%Z /\ f1 = (flashTimer s - 1)%Z)).
  { cbv zeta. destruct (0 <? flashTimer s)%Z eqn:E; [right | left; reflexivity].
    split; [apply Z.ltb_lt; exact E | reflexivity]. }
  cbv zeta in Hf.
  destruct a as [r | rl sc cx]; simpl.
  - destruct (isGameOver s) eqn:Hg.
    + unfold gameLoop. rewrite Hg. cbn. split; left; reflexivity.
    + rewrite (playing_gameLoop _ _ Hg). cbv zeta.
      destruct (hitPaddle _ _).
      * cbn [fst snd flashTimer shockwave].
        rewrite existsb_app, wallCues_no_transform. cbn [orb].
        destruct (isThreshold (score s + 1)); cbn.
        -- split; reflexivity.
        -- split; [exact Hf | right; left; reflexivity].
      * destruct (Qlt_bool GAME_HEIGHT _); cbn [fst snd flashTimer shockwave].
        -- rewrite existsb_app, wallCues_no_transform. cbn.
           split; [left; reflexivity | right; right; reflexivity].
        -- rewrite wallCues_no_transform.
           split; [exact Hf | right; left; reflexivity].
  - unfold handlePointerMove. destruct (isGameOver s); cbn; split; left; reflexivity.
Qed.

(** The wave left by the two updates of lines 217-223 is never a new one:
    it is active only if the wave before was, and then 30 larger. *)
Lemma wave_grows (sw sw' : Shockwave) :
  sw' = sw \/ sw' = shockwaveLocal sw \/ sw' = shockwaveMutated sw ->
  (0 <= size sw -> 0 <= size sw') /\
  (active sw' = true ->
   active sw = true /\ (sw' = sw \/ size sw' == size sw + 30)).
Proof.
  unfold shockwaveLocal, shockwaveMutated.
  intros [-> | [-> | ->]].
  - split; [auto|]. intros H. split; [exact H | left; reflexivity].
  - destruct (active sw) eqn:Ha; cbn [andb opacity].
    + destruct (Qle_bool _ 0); cbn [size active].
      * split; [intros H; lra | discriminate].
      * split; [intros H; lra|]. intros _. split; [reflexivity | right; reflexivity].
    + rewrite Ha. split; [auto | discriminate].
  - destruct (active sw) eqn:Ha; cbn [size active].
    + split; [intros H; lra|]. intros _. split; [reflexivity | right; reflexivity].
    + rewrite Ha. split; [auto | discriminate].
Qed.

Lemma Qlt_bool_irrefl (a : Q) : Qlt_bool a a = false.
Proof. apply Qlt_bool_false_iff. apply Qle_refl. Qed.

(** A step without the transform cue starts neither the flash nor a wave,
    in whatever state it is taken. *)
Lemma quiet_step_starts_nothing (a : Action) (s : GameState) :
  existsb isTransform (snd (step a s)) = false ->
  (flashTimer (fst (step a s)) <= flashTimer s)%Z /\
  (shockwave (fst (step a s)) = shockwave s \/
   shockwave (fst (step a s)) = shockwaveLocal (shockwave s) \/
   shockwave (fst (step a s)) = shockwaveMutated (shockwave s)) /\
  flashStarted s (fst (step a s)) = false /\
  waveStarted s (fst (step a s)) = false.
Proof.
  intros Hq. pose proof (step_flash_wave a s) as H. rewrite Hq in H.
  destruct H as [Hf Hw].
  assert (Hle : (flashTimer (fst (step a s)) <= flashTimer s)%Z)
    by (destruct Hf as [-> | [_ ->]]; lia).
  split; [exact Hle|]. split; [exact Hw|]. split.
  - unfold flashStarted. apply Z.ltb_ge. exact Hle.
  - unfold waveStarted.
    destruct (active (shockwave (fst (step a s)))) eqn:Ha; [|reflexivity].
    destruct (wave_grows _ _ Hw) as [_ Hg].
    destruct (Hg Ha) as [Hb Hsz]. rewrite Hb. cbn [andb negb orb].
    destruct Hsz as [-> | Hsz]; [apply Qlt_bool_irrefl|].
    apply Qlt_bool_false_iff. lra.
Qed.

Lemma isThreshold_succ (n : Z) : isThreshold (n + 1) = true -> isThreshold n = false.
Proof.
  unfold isThreshold, YELLOW_MODE_SCORE, BLUE_MODE_SCORE, BLACK_MODE_SCORE.
  destruct (Z.eqb_spec (n + 1) 20), (Z.eqb_spec (n + 1) 40), (Z.eqb_spec (n + 1) 60),
           (Z.eqb_spec n 20), (Z.eqb_spec n 40), (Z.eqb_spec n 60);
    cbn; intros H; try reflexivity; try discriminate H; lia.
Qed.

(** The transform cue is played exactly by the steps that raise the score to
    a threshold. *)
Lemma cue_iff_threshold (a : Action) (s : GameState) :
  existsb isTransform (snd (step a s)) = true <->
  score (fst (step a s)) = (score s + 1)%Z /\ isThreshold (score (fst (step a s))) = true.
Proof.
  destruct (step_score a s) as [[Hs Hc] | [Hs Hc]]; rewrite Hc, Hs.
  - split; [discriminate | intros [H _]; lia].
  - split; [intros H; split; [reflexivity | exact H] | intros [_ H]; exact H].
Qed.

Lemma step_eventInvariant (a : Action) (s : GameState) :
  eventInvariant s -> eventInvariant (fst (step a s)).
Proof.
  intros (Hle & H15 & Hsz & Hact).
  pose proof (step_flash_wave a s) as H.
  destruct (existsb isTransform (snd (step a s))) eqn:Hc.
  - destruct H as [Hf Hw]. apply cue_iff_threshold in Hc. destruct Hc as [_ Ht].
    unfold eventInvariant. rewrite Hf, Hw. cbn [size active].
    split; [lia|]. split; [intros _; exact Ht|]. split; [lra|].
    intros _. right. exact Ht.
  - destruct H as [Hf Hw].
    destruct (wave_grows _ _ Hw) as [Hg0 Hg1].
    destruct (step_score a s) as [[Hs Hq] | [Hs Hq]].
    + unfold eventInvariant. rewrite Hs.
      split; [destruct Hf as [-> | [_ ->]]; lia|].
      split; [intros E; apply H15; destruct Hf as [Hf | [Hp Hf]]; lia|].
      split; [apply Hg0; exact Hsz|].
      intros Ha. destruct (Hg1 Ha) as [Hb [-> | Hgrow]]; [apply Hact; exact Hb|].
      left. lra.
    + (* a hit that is not on a threshold *)
      assert (Hnt : isThreshold (score s + 1) = false) by (rewrite <- Hq; exact Hc).
      assert (Hw' : shockwave (fst (step a s)) = shockwaveLocal (shockwave s) /\
                    ((0 < flashTimer s)%Z -> flashTimer (fst (step a s)) = (flashTimer s - 1)%Z)).
      { clear Hf Hw Hg0 Hg1 Hq Hc. destruct a as [r | rl sc cx]; simpl in *.
        - destruct (isGameOver s) eqn:Hg.
          + unfold gameLoop in Hs. rewrite Hg in Hs. cbn in Hs. lia.
          + revert Hs. rewrite (playing_gameLoop _ _ Hg). cbv zeta.
            destruct (hitPaddle _ _).
            * cbn [fst score flashTimer shockwave]. rewrite Hnt. intros _.
              split; [reflexivity|]. intros Hp. apply Z.ltb_lt in Hp. now rewrite Hp.
            * destruct (Qlt_bool GAME_HEIGHT _); cbn [fst score]; intros Hs; lia.
        - unfold handlePointerMove in Hs. destruct (isGameOver s); cbn in Hs; lia. }
      destruct Hw' as [Hloc Hdec].
      unfold eventInvariant. rewrite Hs.
      split; [destruct Hf as [-> | [_ ->]]; lia|].
      split.
      { intros E. exfalso. destruct Hf as [Hf | [Hp Hf]]; [|lia].
        assert (Hp : (0 < flashTimer s)%Z) by lia. specialize (Hdec Hp). lia. }
      split; [apply Hg0; exact Hsz|].
      intros Ha. left. revert Ha. rewrite Hloc. unfold shockwaveLocal, shockwaveMutated.
      destruct (active (shockwave s)) eqn:Hb; cbn [andb opacity].
      * destruct (Qle_bool _ 0); cbn [size active]; [discriminate|]. intros _. lra.
      * rewrite Hb. discriminate.
Qed.

(** In a state a session can be in, the step that plays the transform cue
    raises the flash timer and starts a wave; so the flash and the wave
    start exactly in the steps in which the cue is played. *)
Lemma started_is_cue (a : Action) (s : GameState) :
  eventInvariant s ->
  flashStarted s (fst (step a s)) = existsb isTransform (snd (step a s)) /\
  waveStarted s (fst (step a s)) = existsb isTransform (snd (step a s)).
Proof.
  intros (Hle & H15 & Hsz & Hact).
  destruct (existsb isTransform (snd (step a s))) eqn:Hc.
  - pose proof (step_flash_wave a s) as H. rewrite Hc in H. destruct H as [Hf Hw].
    apply cue_iff_threshold in Hc. destruct Hc as [Hs Ht]. rewrite Hs in Ht.
    apply isThreshold_succ in Ht.
    split.
    + unfold flashStarted. rewrite Hf. apply Z.ltb_lt.
      destruct (Z.eq_dec (flashTimer s) 15%Z) as [E|E]; [|lia].
      specialize (H15 E). congruence.
    + unfold waveStarted. rewrite Hw. cbn [active size andb].
      destruct (active (shockwave s)) eqn:Ha; [|reflexivity]. cbn [negb orb].
      apply Qlt_bool_iff. destruct (Hact eq_refl) as [Hpos | Hthr]; [exact Hpos | congruence].
  - destruct (quiet_step_starts_nothing a s Hc) as (_ & _ & Hf & Hw). split; assumption.
Qed.

Lemma createInitialState_eventInvariant (r : Q) : eventInvariant (createInitialState r).
Proof.
  unfold eventInvariant. cbn.
  split; [lia|]. split; [discriminate|]. split; [lra | discriminate].
Qed.

(** Counted on the states, the flash and the wave of threshold [t] start as
    often as the cue of [t] is played. *)
Lemma starts_at_threshold (t : Z) (l : list Action) :
  forall s, eventInvariant s ->
  starts (fun s s' => flashStarted s s' && (score s' =? t)%Z) l s = firings t (run l s) /\
  starts (fun s s' => waveStarted s s' && (score s' =? t)%Z) l s = firings t (run l s).
Proof.
  induction l as [|a l IH]; intros s Hs; [split; reflexivity|].
  rewrite run_cons, firings_cons. cbn [starts].
  destruct (IH _ (step_eventInvariant a s Hs)) as [IHf IHw].
  destruct (started_is_cue a s Hs) as [Hf Hw].
  rewrite IHf, IHw, Hf, Hw. unfold firesAt. split; reflexivity.
Qed.

Lemma count_three {A : Type} (g : A -> bool) (a b c : A) :
  List.length (List.filter g [a; b; c]) =
  ((if g a then 1 else 0) + ((if g b then 1 else 0) + (if g c then 1 else 0)))%nat.
Proof. cbn [List.filter]. destruct (g a), (g b), (g c); reflexivity. Qed.

Lemma passed_one (t x f : Z) :
  (x + 1 <= f)%Z ->
  ((if (x + 1 =? t)%Z then 1 else 0) +
   (if ((x + 1 <? t)%Z && (t <=? f)%Z)%bool then 1 else 0))%nat =
  (if ((x <? t)%Z && (t <=? f)%Z)%bool then 1 else 0)%nat.
Proof.
  intros H.
  destruct (Z.eqb_spec (x + 1) t), (Z.ltb_spec (x + 1) t), (Z.ltb_spec x t),
           (Z.leb_spec t f); cbn; try reflexivity; lia.
Qed.

Lemma thresholdsPassed_step (x f : Z) :
  (x + 1 <= f)%Z ->
  ((if isThreshold (x + 1) then 1 else 0) + thresholdsPassed (x + 1) f)%nat =
  thresholdsPassed x f.
Proof.
  intros H. unfold thresholdsPassed. rewrite !count_three.
  rewrite <- (passed_one YELLOW_MODE_SCORE x f H), <- (passed_one BLUE_MODE_SCORE x f H),
          <- (passed_one BLACK_MODE_SCORE x f H).
  unfold isThreshold, YELLOW_MODE_SCORE, BLUE_MODE_SCORE, BLACK_MODE_SCORE.
  destruct (Z.eqb_spec (x + 1) 20), (Z.eqb_spec (x + 1) 40), (Z.eqb_spec (x + 1) 60);
    cbn [orb]; lia.
Qed.

(** Counted on the states, the flash and the wave start once for each
    threshold the score passes. *)
Lemma starts_from (l : list Action) :
  forall s, eventInvariant s ->
  starts flashStarted l s = thresholdsPassed (score s) (score (final l s)) /\
  starts waveStarted l s = thresholdsPassed (score s) (score (final l s)).
Proof.
  induction l as [|a l IH]; intros s Hs.
  - cbn [starts final fold_left]. unfold thresholdsPassed. rewrite count_three.
    assert (E : forall t, ((score s <? t)%Z && (t <=? score s)%Z)%bool = false).
    { intros t. destruct (Z.ltb_spec (score s) t), (Z.leb_spec t (score s));
        try reflexivity; lia. }
    rewrite !E. split; reflexivity.
  - rewrite final_cons. cbn [starts].
    destruct (IH _ (step_eventInvariant a s Hs)) as [IHf IHw].
    destruct (started_is_cue a s Hs) as [Hf Hw].
    rewrite IHf, IHw, Hf, Hw.
    pose proof (final_score_mono l (fst (step a s))) as Hmono.
    destruct (step_score a s) as [[Hsc Hc] | [Hsc Hc]]; rewrite Hc, Hsc.
    + split; reflexivity.
    + rewrite Hsc in Hmono. rewrite (thresholdsPassed_step _ _ Hmono). split; reflexivity.
Qed.

(** C5.  In any session of the keep-up game (ticks and pointer moves, no
    restart) the score never decreases and grows by at most one per step.
    For each threshold 20, 40, 60 the flash-and-shockwave event fires exactly
    once in a session from the initial state if the session reaches that
    score and never otherwise; from any later state on, it fires exactly once
    if the score passes from below the threshold to it, and is never fired
    again once the score is at or past the threshold.  A step that plays the
    transform cue is one that sets the flash timer to 15 and starts a fresh
    shockwave.  The same holds of the flash and the shockwave themselves,
    read off the states and not off the cue.  The cue is played exactly by
    the steps that raise the score to a threshold; any other step, in any
    state, leaves the flash timer where it is or one lower and leaves the
    wave as it is or lets it grow and fade, so it raises no flash timer and
    starts no wave.  Along a session from the initial state the steps that
    raise the flash timer while bringing the score to [t], and those that
    start a wave while doing so, number one if the session reaches [t] and
    none otherwise; and over the whole session the flash timer is raised,
    and a wave is started, once for each threshold reached and at no other
    step. *)
Theorem C5_threshold_fires_once (r0 : Q) (l : list Action) (t : Z) :
  isThreshold t = true ->
  firings t (run l (createInitialState r0)) =
    (if (t <=? score (final l (createInitialState r0)))%Z then 1 else 0)%nat /\
  (forall s, firings t (run l s) =
     (if ((score s <? t)%Z && (t <=? score (final l s))%Z)%bool then 1 else 0)%nat) /\
  (forall a s, (score s <= score (fst (step a s)) <= score s + 1)%Z) /\
  (forall a s, existsb isTransform (snd (step a s)) = true ->
     flashTimer (fst (step a s)) = 15%Z /\
     shockwave (fst (step a s)) = {| active := true; size := 0; opacity := 1 |}) /\
  (forall a s, existsb isTransform (snd (step a s)) = true <->
     score (fst (step a s)) = (score s + 1)%Z /\
     isThreshold (score (fst (step a s))) = true) /\
  (forall a s, existsb isTransform (snd (step a s)) = false ->
     (flashTimer (fst (step a s)) <= flashTimer s)%Z /\
     (shockwave (fst (step a s)) = shockwave s \/
      shockwave (fst (step a s)) = shockwaveLocal (shockwave s) \/
      shockwave (fst (step a s)) = shockwaveMutated (shockwave s)) /\
     flashStarted s (fst (step a s)) = false /\
     waveStarted s (fst (step a s)) = false) /\
  starts (fun s s' => flashStarted s s' && (score s' =? t)%Z) l (createInitialState r0) =
    (if (t <=? score (final l (createInitialState r0)))%Z then 1 else 0)%nat /\
  starts (fun s s' => waveStarted s s' && (score s' =? t)%Z) l (createInitialState r0) =
    (if (t <=? score (final l (createInitialState r0)))%Z then 1 else 0)%nat /\
  starts flashStarted l (createInitialState r0) =
    thresholdsPassed 0 (score (final l (createInitialState r0))) /\
  starts waveStarted l (createInitialState r0) =
    thresholdsPassed 0 (score (final l (createInitialState r0))).
Proof.
  intros Ht.
  assert (H0 : firings t (run l (createInitialState r0)) =
               (if (t <=? score (final l (createInitialState r0)))%Z then 1 else 0)%nat).
  { rewrite (firings_from t l _ Ht). cbn [createInitialState score].
    replace (0 <? t)%Z with true; [reflexivity|].
    unfold isThreshold in Ht. symmetry. apply Z.ltb_lt.
    apply orb_true_iff in Ht. destruct Ht as [Ht | Ht];
      [apply orb_true_iff in Ht; destruct Ht as [Ht | Ht]|];
      apply Z.eqb_eq in Ht; rewrite Ht; reflexivity. }
  destruct (starts_at_threshold t l _ (createInitialState_eventInvariant r0)) as [Hfa Hwa].
  destruct (starts_from l _ (createInitialState_eventInvariant r0)) as [Hf Hw].
  split; [exact H0|]. split; [|split; [|split; [|split; [|split; [|split; [|split;
    [|split]]]]]]].
  - intros s. apply firings_from. exact Ht.
  - intros a s. apply step_score_bounds.
  - intros a s. apply transform_starts_flash.
  - intros a s. apply cue_iff_threshold.
  - intros a s. apply quiet_step_starts_nothing.
  - rewrite Hfa. exact H0.
  - rewrite Hwa. exact H0.
  - exact Hf.
  - exact Hw.
Qed.

Lemma C5_threshold_fires_once_witness :
  let s19 := {| balloon := balloon aboveThePaddle; paddleX := paddleX aboveThePaddle;
                score := 19; isGameOver := false; gravity := 0.138;
                flashTimer := 0; shockwave := shockwave aboveThePaddle |} in
  firings 20 (run [Tick 0.5; PointerMove 0 1 120; Tick 0.5] s19) = 1%nat /\
  firings 20 (run [Tick 0.5] (createInitialState 0.5)) = 0%nat /\
  starts flashStarted [Tick 0.5] (createInitialState 0.5) = 0%nat.
Proof.
  intros s19.
  destruct (C5_threshold_fires_once 0.5 [Tick 0.5; PointerMove 0 1 120; Tick 0.5] 20 eq_refl)
    as (_ & H & _).
  destruct (C5_threshold_fires_once 0.5 [Tick 0.5] 20 eq_refl)
    as (H0 & _ & _ & _ & _ & _ & _ & _ & Hf & _).
  split; [|split].
  - rewrite (H s19). reflexivity.
  - rewrite H0. reflexivity.
  - rewrite Hf. reflexivity.
Defined.

(** *** Persistence at the end of a session *)

Lemma acts_invariant (P : Component * gmap string Z -> Prop) :
  (forall a w, P w -> P (act a w)) ->
  forall l w, P w -> P (acts l w).
Proof.
  intros Hstep l. induction l as [|a l IH]; intros w Hw.
  - exact Hw.
  - simpl. apply IH. apply Hstep. exact Hw.
Qed.

Lemma awardEffect_playing (gs : GameState) (ref : bool) (ls : gmap string Z) :
  isGameOver gs = false -> awardEffect gs ref ls = (ref, ls).
Proof. intros H. unfold awardEffect. now rewrite H. Qed.

Lemma awardEffect_done (gs : GameState) (ls : gmap string Z) :
  awardEffect gs true ls = (true, ls).
Proof. unfold awardEffect. now rewrite andb_false_r. Qed.

Lemma commit_deps (c : Component) (ls : gmap string Z) :
  effectDeps c = Some (isGameOver (gameState c), score (gameState c)) ->
  commit c ls = (c, ls).
Proof.
  intros H. unfold commit, depsChanged. rewrite H.
  now rewrite eqb_reflx, Z.eqb_refl.
Qed.

Lemma commit_gameState (c : Component) (ls : gmap string Z) :
  gameState (fst (commit c ls)) = gameState c.
Proof.
  unfold commit. destruct (depsChanged _ _); [|reflexivity].
  destruct (awardEffect _ _ _). reflexivity.
Qed.

Lemma commit_deps_after (c : Component) (ls : gmap string Z) :
  (effectDeps c = Some (isGameOver (gameState c), score (gameState c)) \/
   depsChanged (effectDeps c) (gameState c) = true) ->
  effectDeps (fst (commit c ls)) = Some (isGameOver (gameState c), score (gameState c)).
Proof.
  intros [H | H].
  - now rewrite (commit_deps _ _ H).
  - unfold commit. rewrite H. destruct (awardEffect _ _ _). reflexivity.
Qed.

Lemma depsChanged_or_same (old : option (bool * Z)) (gs : GameState) :
  old = Some (isGameOver gs, score gs) \/ depsChanged old gs = true.
Proof.
  destruct old as [[g sc]|]; [|right; reflexivity]. unfold depsChanged.
  destruct (eqb g (isGameOver gs)) eqn:E1; [|right; reflexivity].
  destruct (sc =? score gs)%Z eqn:E2; [|right; reflexivity].
  left. apply eqb_prop in E1. apply Z.eqb_eq in E2. congruence.
Qed.

Lemma gameLoop_over_or_playing (r : Q) (s : GameState) :
  isGameOver s = false ->
  isGameOver (fst (gameLoop r s)) = false \/
  (isGameOver (fst (gameLoop r s)) = true /\ score (fst (gameLoop r s)) = score s).
Proof.
  intros H. rewrite (playing_gameLoop _ _ H). cbv zeta.
  destruct (hitPaddle _ _); [left; exact H|].
  destruct (Qlt_bool GAME_HEIGHT _); [right; split; reflexivity | left; exact H].
Qed.

Lemma step_terminal (a : Action) (s : GameState) :
  isGameOver s = true -> step a s = (s, []).
Proof.
  intros H. destruct a; simpl.
  - unfold gameLoop. now rewrite H.
  - unfold handlePointerMove. now rewrite H.
Qed.

Lemma act_running (ls0 : gmap string Z) (a : Action) (w : Component * gmap string Z) :
  running ls0 w -> running ls0 (act a w).
Proof.
  intros (Hdeps & Hpos & Hplay). unfold running, act.
  set (c := {| gameState := fst (step a (gameState (fst w)));
               coinsAwardedRef := coinsAwardedRef (fst w);
               effectDeps := effectDeps (fst w) |}).
  rewrite commit_gameState.
  split; [|split].
  - apply commit_deps_after. apply depsChanged_or_same.
  - change (gameState c) with (fst (step a (gameState (fst w)))).
    pose proof (step_score_bounds a (gameState (fst w))). lia.
  - change (gameState c) with (fst (step a (gameState (fst w)))). intros Hnext.
    destruct (isGameOver (gameState (fst w))) eqn:Hg.
    + rewrite (step_terminal _ _ Hg) in Hnext. simpl in Hnext. congruence.
    + destruct (Hplay eq_refl) as [Href Hls].
      unfold commit. destruct (depsChanged _ _); [|split; assumption].
      rewrite awardEffect_playing by exact Hnext. split; assumption.
Qed.

Lemma mount_running (r : Q) (ls0 : gmap string Z) : running ls0 (mount r ls0).
Proof. unfold running, mount. cbn. repeat split; auto. lia. Qed.

Lemma act_awarded (ls : gmap string Z) (a : Action) (w : Component * gmap string Z) :
  awarded ls w -> awarded ls (act a w).
Proof.
  intros (Hg & Href & Hls). unfold awarded, act.
  rewrite (step_terminal _ _ Hg). cbn [fst].
  unfold commit. destruct (depsChanged _ _); cbn [gameState coinsAwardedRef].
  - rewrite Href, awardEffect_done. cbn. auto.
  - cbn. auto.
Qed.

(** C6.  A keep-up component is in the running condition right after mount
    (store [ls0], award flag down).  Take a session in that condition that is
    still running after the actions [l1] and ends with the next tick.  Up to
    then the store is untouched.  The commit of the ending tick adds the
    final score, which is not negative, to 'platformer_totalCoins', and
    writes 'keepup_best' only if the final score is greater than the stored
    value; no other key changes.  Whatever ticks, pointer moves or re-runs of
    the effect follow, the store stays as that commit left it. *)
Theorem C6_game_over_persists_once (r0 : Q) (ls0 : gmap string Z) :
  running ls0 (mount r0 ls0) /\
  forall (w0 : Component * gmap string Z) (r : Q) (l1 l2 : list Action),
  running ls0 w0 ->
  let w1 := acts l1 w0 in
  let w2 := act (Tick r) w1 in
  let final_score := score (gameState (fst w2)) in
  isGameOver (gameState (fst w1)) = false ->
  isGameOver (gameState (fst w2)) = true ->
  snd w1 = ls0 /\
  (0 <= final_score)%Z /\
  snd w2 !! "platformer_totalCoins" =
    Some (getInt ls0 "platformer_totalCoins" + final_score)%Z /\
  snd w2 !! "keepup_best" =
    (if (getInt ls0 "keepup_best" <? final_score)%Z then Some final_score
     else ls0 !! "keepup_best") /\
  (forall k, k <> "platformer_totalCoins" -> k <> "keepup_best" ->
             snd w2 !! k = ls0 !! k) /\
  snd (acts l2 w2) = snd w2 /\
  awardEffect (gameState (fst (acts l2 w2))) (coinsAwardedRef (fst (acts l2 w2)))
              (snd (acts l2 w2)) = (true, snd w2).
Proof.
  split; [apply mount_running|].
  intros w0 r l1 l2 Hw0 w1 w2 final_score Hrun Hover.
  assert (Hw1 : running ls0 w1).
  { unfold w1. apply acts_invariant; [apply act_running | exact Hw0]. }
  destruct Hw1 as (Hdeps & Hpos & Hplay).
  destruct (Hplay Hrun) as [Href Hls].
  (* the ending tick *)
  assert (Hgs2 : gameState (fst w2) = fst (gameLoop r (gameState (fst w1)))).
  { unfold w2, act. now rewrite commit_gameState. }
  assert (Hsc : final_score = score (gameState (fst w1))).
  { unfold final_score. rewrite Hgs2.
    destruct (gameLoop_over_or_playing r _ Hrun) as [H | [_ H]]; [|exact H].
    rewrite Hgs2 in Hover. congruence. }
  assert (Hw2 : coinsAwardedRef (fst w2) = true /\
                snd w2 = if (getInt ls0 "keepup_best" <? final_score)%Z
                         then <["keepup_best" := final_score]>
                                (<["platformer_totalCoins" :=
                                     (getInt ls0 "platformer_totalCoins" + final_score)%Z]> ls0)
                         else <["platformer_totalCoins" :=
                                  (getInt ls0 "platformer_totalCoins" + final_score)%Z]> ls0).
  { unfold final_score. rewrite Hgs2. rewrite Hgs2 in Hover.
    unfold w2, act. cbn [step]. unfold commit. cbn [gameState effectDeps coinsAwardedRef].
    rewrite Hdeps. unfold depsChanged. rewrite Hrun, Hover. cbn [eqb andb negb].
    unfold awardEffect. rewrite Hover, Href, Hls. cbn [negb andb fst snd coinsAwardedRef].
    assert (Hbest : getInt (<["platformer_totalCoins" :=
                     (getInt ls0 "platformer_totalCoins" +
                      score (fst (gameLoop r (gameState (fst w1)))))%Z]> ls0) "keepup_best"
                    = getInt ls0 "keepup_best").
    { unfold getInt at 1 3. now rewrite lookup_insert_ne. }
    rewrite Hbest. split; [reflexivity|].
    destruct (_ <? _)%Z; reflexivity. }
  destruct Hw2 as [Href2 Hls2].
  assert (Hafter : awarded (snd w2) (acts l2 w2)).
  { apply acts_invariant; [apply act_awarded|]. repeat split; assumption. }
  destruct Hafter as (Hg3 & Href3 & Hls3).
  split; [exact Hls|]. split; [rewrite Hsc; exact Hpos|].
  split; [|split; [|split; [|split]]].
  - rewrite Hls2. destruct (_ <? _)%Z.
    + rewrite lookup_insert_ne by discriminate. apply lookup_insert_eq.
    + apply lookup_insert_eq.
  - rewrite Hls2. destruct (_ <? _)%Z.
    + apply lookup_insert_eq.
    + now rewrite lookup_insert_ne.
  - intros k Hk1 Hk2. rewrite Hls2. destruct (_ <? _)%Z.
    + rewrite lookup_insert_ne by congruence. now rewrite lookup_insert_ne by congruence.
    + now rewrite lookup_insert_ne by congruence.
  - exact Hls3.
  - rewrite Href3, Hls3. apply awardEffect_done.
Qed.

Lemma C6_game_over_persists_once_witness :
  let ls0 : gmap string Z := <["platformer_totalCoins" := 10%Z]> (<["keepup_best" := 3%Z]> ∅) in
  let falling :=
    {| balloon := {| x := 200; y := 399; vx := 0; vy := 5 |};
       paddleX := 150; score := 7; isGameOver := false; gravity := 0.114;
       flashTimer := 0; shockwave := {| active := false; size := 0; opacity := 1 |} |} in
  let w0 := ({| gameState := falling; coinsAwardedRef := false;
                effectDeps := Some (false, 7%Z) |}, ls0) in
  let w2 := act (Tick 0.5) (acts [PointerMove 0 1 300] w0) in
  snd w2 !! "platformer_totalCoins" = Some 17%Z /\
  snd w2 !! "keepup_best" = Some 7%Z /\
  snd (acts [Tick 0.5; PointerMove 0 1 10; Tick 0.5] w2) = snd w2.
Proof.
  intros ls0 falling w0 w2.
  assert (Hw0 : running ls0 w0).
  { unfold running. cbn. repeat split; auto. lia. }
  destruct (C6_game_over_persists_once 0.5 ls0) as [_ H].
  destruct (H w0 0.5 [PointerMove 0 1 300] [Tick 0.5; PointerMove 0 1 10; Tick 0.5]
              Hw0 eq_refl eq_refl) as (_ & _ & Hc & Hb & _ & Hl & _).
  split; [exact Hc|]. split; [exact Hb|]. exact Hl.
Defined.

End KeepUpFacts.

(** ** The collectible loop of the dot runner returns *)

Section DotRunnerReturns.
Variable M : MathLib.
Import DotRunner.




End DotRunnerReturns.

(** ** A tick on a finished game *)

Section TerminalTicks.
Variable M : MathLib.


End TerminalTicks.


(** ** Danger zone *)

Section DangerFacts.
Import Danger.

Lemma movePlayerUpdater_bounds (ks : gmap string bool) (p : Player) :
  0 <= x (movePlayerUpdater ks p) <= GAME_WIDTH - PLAYER_SIZE /\
  0 <= y (movePlayerUpdater ks p) <= GAME_HEIGHT - PLAYER_SIZE.
Proof.
  unfold movePlayerUpdater. cbn [x y].
  split; apply clamp_bounds; unfold Qle; simpl; lia.
Qed.

Lemma reachablePlayer_bounds (p : Player) :
  reachablePlayer p ->
  0 <= x p <= GAME_WIDTH - PLAYER_SIZE /\ 0 <= y p <= GAME_HEIGHT - PLAYER_SIZE.
Proof.
  intros H. destruct H.
  - cbn. unfold Qle; simpl. lia.
  - apply movePlayerUpdater_bounds.
Qed.

(** C8.  In the danger-zone game, for every player position that can occur
    and every key snapshot in which a left key (ArrowLeft or a) and a right
    key (ArrowRight or d) are both held, the position update leaves x
    unchanged; likewise y is unchanged when an up key (ArrowUp or w) and a
    down key (ArrowDown or s) are both held.  The update is a function of
    the key snapshot and the position. *)
Theorem C8_opposing_keys_cancel (ks : gmap string bool) (p : Player) :
  reachablePlayer p ->
  (held ks "ArrowLeft" || held ks "a" = true ->
   held ks "ArrowRight" || held ks "d" = true ->
   x (movePlayerUpdater ks p) == x p) /\
  (held ks "ArrowUp" || held ks "w" = true ->
   held ks "ArrowDown" || held ks "s" = true ->
   y (movePlayerUpdater ks p) == y p).
Proof.
  intros Hp. destruct (reachablePlayer_bounds p Hp) as [[Hx0 Hx1] [Hy0 Hy1]].
  unfold GAME_WIDTH, GAME_HEIGHT, PLAYER_SIZE in *.
  split; intros H1 H2; unfold movePlayerUpdater; cbn [x y]; rewrite H1, H2;
    unfold GAME_WIDTH, GAME_HEIGHT, PLAYER_SIZE, PLAYER_SPEED.
  - rewrite clamp_inside; lra.
  - rewrite clamp_inside; lra.
Qed.

Lemma C8_opposing_keys_cancel_witness :
  let ks : gmap string bool :=
    <["ArrowLeft" := true]> (<["ArrowRight" := true]> (<["w" := true]> (<["s" := true]> ∅))) in
  let p := movePlayerUpdater (<["ArrowLeft" := true]> ∅) initialPlayer in
  x (movePlayerUpdater ks p) == 182 /\ y (movePlayerUpdater ks p) == 190.
Proof.
  intros ks p.
  assert (Hp : reachablePlayer p) by (apply reach_move, reach_start).
  destruct (C8_opposing_keys_cancel ks p Hp) as [Hx Hy].
  split.
  - rewrite (Hx eq_refl eq_refl). reflexivity.
  - rewrite (Hy eq_refl eq_refl). reflexivity.
Defined.

End DangerFacts.

(** ** Shooter *)

Section ShooterFacts.
Import Shooter.
Variable M : MathLib.

(** Case analysis on every intermediate result of a chain of binds. *)
Ltac run_binds :=
  repeat match goal with
         | |- context [let '(_, _) := ?c in _] =>
             let a := fresh "a" in let j := fresh "j" in destruct c as [a j]
         | |- context [match ?c with (_, _) => _ end] =>
             let a := fresh "a" in let j := fresh "j" in destruct c as [a j]
         end.

Lemma untilShieldCheck_player (w : Weapon) (now : Q) (rnd : nat -> Q) (i : nat)
    (s : GameState) :
  f_player (fst (untilShieldCheck M w now s rnd i)) = movePlayer (player s).
Proof.
  unfold untilShieldCheck, bind, ret. run_binds. reflexivity.
Qed.

(** What a tick of a playing state (not over, shop closed) does with the
    frame it reached at the shield check. *)
Lemma tick_playing (w : Weapon) (now : Q) (rnd : nat -> Q) (i : nat) (s : GameState) :
  isGameOver s = false -> isShopOpen s = false ->
  let f := fst (untilShieldCheck M w now s rnd i) in
  let s' := tick M w now rnd i s in
  player s' = f_player f /\
  score s' = f_score f /\
  shieldHp s' = (if (f_shieldHp f <=? 0)%Z then 0%Z else f_shieldHp f) /\
  isGameOver s' = (f_shieldHp f <=? 0)%Z.
Proof.
  intros Hg Hs. cbv zeta. unfold tick, gameLoop. rewrite Hg, Hs. cbn [orb].
  unfold bind, ret. destruct (untilShieldCheck M w now s rnd i) as [f j].
  cbn [fst]. destruct (f_shieldHp f <=? 0)%Z.
  - destruct (finalBurst M now (f_player f) 20 0 (f_explosions f) rnd j) as [exs j'].
    cbn. repeat split; reflexivity.
  - cbn. repeat split; reflexivity.
Qed.

Lemma tick_paused (w : Weapon) (now : Q) (rnd : nat -> Q) (i : nat) (s : GameState) :
  isGameOver s || isShopOpen s = true -> tick M w now rnd i s = s.
Proof. intros H. unfold tick, gameLoop. rewrite H. reflexivity. Qed.

(** C9.  In the shooter, a tick of a playing state leaves the shield hit
    points at 0 with the game over exactly when the enemy hits of that tick
    bring them to zero or below, and at the positive value reached
    otherwise with the game still running; so the hit points after such a
    tick are never negative.  Every state a session can reach has
    non-negative shield hit points. *)
Theorem C9_shield_never_negative :
  (forall (w : Weapon) (now : Q) (rnd : nat -> Q) (i : nat) (s : GameState),
     isGameOver s = false -> isShopOpen s = false ->
     let hits := f_shieldHp (fst (untilShieldCheck M w now s rnd i)) in
     let s' := tick M w now rnd i s in
     ((hits <= 0)%Z -> shieldHp s' = 0%Z /\ isGameOver s' = true) /\
     ((0 < hits)%Z -> shieldHp s' = hits /\ isGameOver s' = false) /\
     (0 <= shieldHp s')%Z) /\
  (forall s, reachable M s -> (0 <= shieldHp s)%Z).
Proof.
  assert (Htick : forall w now rnd i s,
            isGameOver s = false -> isShopOpen s = false ->
            let hits := f_shieldHp (fst (untilShieldCheck M w now s rnd i)) in
            let s' := tick M w now rnd i s in
            ((hits <= 0)%Z -> shieldHp s' = 0%Z /\ isGameOver s' = true) /\
            ((0 < hits)%Z -> shieldHp s' = hits /\ isGameOver s' = false) /\
            (0 <= shieldHp s')%Z).
  { intros w now rnd i s Hg Hs hits s'.
    destruct (tick_playing w now rnd i s Hg Hs) as (_ & _ & Hhp & Hover).
    fold hits in Hhp, Hover. fold s' in Hhp, Hover.
    rewrite Hhp, Hover. destruct (hits <=? 0)%Z eqn:E.
    - apply Z.leb_le in E. repeat split; auto; lia.
    - apply Z.leb_gt in E. repeat split; auto; lia. }
  split; [exact Htick|].
  intros s Hs. induction Hs as [|w now rnd i s Hs IH|s Hs IH|s Hs IH|inp s Hs IH].
  - cbn. unfold BASE_SHIELD_MAX_HP. lia.
  - destruct (isGameOver s || isShopOpen s) eqn:E.
    + now rewrite tick_paused.
    + apply orb_false_iff in E. destruct E as [Hg Hshop].
      apply (Htick w now rnd i s Hg Hshop).
  - unfold buyFireRate. destruct (_ && _); [cbn|]; exact IH.
  - unfold buyHpBoost. destruct (_ && _); [cbn; lia|exact IH].
  - destruct inp; exact IH.
Qed.

End ShooterFacts.

Lemma C9_shield_never_negative_witness :
  let s' := Shooter.tick Shooter.noMath Shooter.default 0 (fun _ => 0.5) 0%nat
                         Shooter.lastStand in
  Shooter.shieldHp s' = 0%Z /\ Shooter.isGameOver s' = true /\
  (0 <= Shooter.shieldHp s')%Z.
Proof.
  intros s'.
  destruct (C9_shield_never_negative Shooter.noMath) as [Htick _].
  destruct (Htick Shooter.default 0 (fun _ => 0.5) 0%nat Shooter.lastStand eq_refl eq_refl)
    as (Hzero & _ & Hpos).
  assert (Hhits : (Shooter.f_shieldHp
                     (fst (Shooter.untilShieldCheck Shooter.noMath Shooter.default 0%Q
                             Shooter.lastStand (fun _ => 0.5%Q) 0%nat)) <= 0)%Z)
    by (apply Z.leb_le; vm_compute; reflexivity).
  destruct (Hzero Hhits) as [H1 H2].
  split; [exact H1|]. split; [exact H2|exact Hpos].
Defined.

(** ** Clamped entities stay on the playfield *)

Section Containment.
Variable M : MathLib.

Lemma danger_tick_player (s : Danger.GameState) :
  Danger.isGameOver s = false ->
  Danger.player (Danger.tick s) = Danger.movePlayerUpdater (Danger.keys s) (Danger.player s).
Proof.
  intros H. unfold Danger.tick, Danger.mainLoop, Danger.movePlayer. now rewrite H.
Qed.

Lemma clampX_bounds (v : Q) :
  0 <= Platformer.clampX v <= Platformer.GAME_WIDTH - Platformer.PLAYER_WIDTH.
Proof.
  unfold Platformer.clampX, Platformer.GAME_WIDTH, Platformer.PLAYER_WIDTH.
  destruct (Qlt_bool v 0) eqn:E1.
  - destruct (Qlt_bool (400 - 20) 0) eqn:E2.
    + split; unfold Qle; simpl; lia.
    + split; [apply Qle_refl | unfold Qle; simpl; lia].
  - apply Qlt_bool_false_iff in E1.
    destruct (Qlt_bool (400 - 20) v) eqn:E2.
    + split; [unfold Qle; simpl; lia | apply Qle_refl].
    + apply Qlt_bool_false_iff in E2. split; assumption.
Qed.

Lemma platformer_tick_x (shop : bool) (level : Platformer.LevelData) (s : Platformer.GameState) :
  Platformer.status s = Platformer.playing -> shop = false ->
  Platformer.x (Platformer.player (fst (Platformer.gameLoop M shop level s))) =
  Platformer.clampX (Platformer.x (Platformer.player s) +
                     Platformer.horizontalVelocity (Platformer.keys s)
                       (Platformer.vx (Platformer.player s))).
Proof.
  intros Hst Hshop. unfold Platformer.gameLoop. rewrite Hst, Hshop. cbn [Platformer.isPlaying negb orb].
  destruct (Platformer.land _ _ _ _) as [[y2 vy2] g].
  destruct (_ && g); cbn zeta; destruct (negb _ && g);
    destruct (Platformer.collect _ _ _ _ _ _); reflexivity.
Qed.

Lemma shooter_movePlayer_bounds (p : Shooter.Player) :
  Shooter.PLAYER_RADIUS <= Shooter.x (Shooter.movePlayer p)
    <= Shooter.GAME_WIDTH - Shooter.PLAYER_RADIUS /\
  Shooter.PLAYER_RADIUS <= Shooter.y (Shooter.movePlayer p)
    <= Shooter.GAME_HEIGHT - Shooter.PLAYER_RADIUS.
Proof.
  unfold Shooter.movePlayer. cbn [Shooter.x Shooter.y].
  split; apply clamp_bounds'; unfold Qle; simpl; lia.
Qed.

Lemma shooter_tick_player (w : Shooter.Weapon) (now : Q) (rnd : nat -> Q) (i : nat)
    (s : Shooter.GameState) :
  Shooter.isGameOver s = false -> Shooter.isShopOpen s = false ->
  Shooter.player (Shooter.tick M w now rnd i s) = Shooter.movePlayer (Shooter.player s).
Proof.
  intros Hg Hs. destruct (tick_playing M w now rnd i s Hg Hs) as (Hp & _).
  rewrite Hp. apply untilShieldCheck_player.
Qed.

Lemma platformer_gameLoop_paused (shop : bool) (level : Platformer.LevelData)
    (s : Platformer.GameState) :
  negb (Platformer.isPlaying (Platformer.status s)) || shop = true ->
  Platformer.gameLoop M shop level s = (s, []).
Proof. intros H. unfold Platformer.gameLoop. now rewrite H. Qed.

Lemma platformer_starts_inside (level : Platformer.LevelData) :
  In level Platformer.levels ->
  0 <= fst (Platformer.playerStart level)
    <= Platformer.GAME_WIDTH - Platformer.PLAYER_WIDTH.
Proof.
  intros H. unfold Platformer.levels in H. cbn [In] in H.
  repeat (destruct H as [<- | H]; [split; unfold Qle; simpl; lia|]).
  contradiction.
Qed.

Lemma platformer_reachable_x (s : Platformer.GameState) :
  Platformer.reachable M s ->
  0 <= Platformer.x (Platformer.player s)
    <= Platformer.GAME_WIDTH - Platformer.PLAYER_WIDTH.
Proof.
  intros H. induction H as [level Hl|shop level s Hs IH|key s Hs IH|key s Hs IH|st s Hs IH];
    try exact IH.
  - apply platformer_starts_inside. exact Hl.
  - destruct (negb (Platformer.isPlaying (Platformer.status s)) || shop) eqn:E.
    + now rewrite platformer_gameLoop_paused.
    + apply orb_false_iff in E. destruct E as [Hp Hshop].
      rewrite platformer_tick_x; [apply clampX_bounds| |exact Hshop].
      destruct (Platformer.status s); try discriminate. reflexivity.
Qed.

Lemma shooter_reachable_player (s : Shooter.GameState) :
  Shooter.reachable M s ->
  Shooter.PLAYER_RADIUS <= Shooter.x (Shooter.player s)
    <= Shooter.GAME_WIDTH - Shooter.PLAYER_RADIUS /\
  Shooter.PLAYER_RADIUS <= Shooter.y (Shooter.player s)
    <= Shooter.GAME_HEIGHT - Shooter.PLAYER_RADIUS.
Proof.
  intros H. induction H as [|w now rnd i s Hs IH|s Hs IH|s Hs IH|inp s Hs IH].
  - cbn. repeat split; unfold Qle; simpl; lia.
  - destruct (Shooter.isGameOver s || Shooter.isShopOpen s) eqn:E.
    + now rewrite tick_paused.
    + apply orb_false_iff in E. destruct E as [Hg Hshop].
      rewrite (shooter_tick_player w now rnd i s Hg Hshop).
      apply shooter_movePlayer_bounds.
  - unfold Shooter.buyFireRate. destruct (_ && _); exact IH.
  - unfold Shooter.buyHpBoost. destruct (_ && _); exact IH.
  - destruct inp; exact IH.
Qed.

(** C4 (as amended).  After every tick of a running game the clamped entity
    is on the playfield: the danger-zone player has 0 <= x <= width - size
    and 0 <= y <= height - size; the platformer player has
    0 <= x <= width - playerWidth; the shooter player, whose position is its
    centre, has radius <= x <= width - radius and radius <= y <= height -
    radius.  The same bounds hold in every state these games can reach, so
    also after a tick that found the game finished or paused. *)
Theorem C4_clamped_entities_stay_inside :
  (forall s, Danger.isGameOver s = false ->
     0 <= Danger.x (Danger.player (Danger.tick s)) <= Danger.GAME_WIDTH - Danger.PLAYER_SIZE /\
     0 <= Danger.y (Danger.player (Danger.tick s)) <= Danger.GAME_HEIGHT - Danger.PLAYER_SIZE) /\
  (forall level s, Platformer.status s = Platformer.playing ->
     0 <= Platformer.x (Platformer.player (fst (Platformer.gameLoop M false level s)))
       <= Platformer.GAME_WIDTH - Platformer.PLAYER_WIDTH) /\
  (forall w now rnd i s,
     Shooter.isGameOver s = false -> Shooter.isShopOpen s = false ->
     let p := Shooter.player (Shooter.tick M w now rnd i s) in
     Shooter.PLAYER_RADIUS <= Shooter.x p <= Shooter.GAME_WIDTH - Shooter.PLAYER_RADIUS /\
     Shooter.PLAYER_RADIUS <= Shooter.y p <= Shooter.GAME_HEIGHT - Shooter.PLAYER_RADIUS) /\
  (forall p, Danger.reachablePlayer p ->
     0 <= Danger.x p <= Danger.GAME_WIDTH - Danger.PLAYER_SIZE /\
     0 <= Danger.y p <= Danger.GAME_HEIGHT - Danger.PLAYER_SIZE) /\
  (forall s, Platformer.reachable M s ->
     0 <= Platformer.x (Platformer.player s)
       <= Platformer.GAME_WIDTH - Platformer.PLAYER_WIDTH) /\
  (forall s, Shooter.reachable M s ->
     Shooter.PLAYER_RADIUS <= Shooter.x (Shooter.player s)
       <= Shooter.GAME_WIDTH - Shooter.PLAYER_RADIUS /\
     Shooter.PLAYER_RADIUS <= Shooter.y (Shooter.player s)
       <= Shooter.GAME_HEIGHT - Shooter.PLAYER_RADIUS).
Proof.
  split; [|split; [|split; [|split; [|split]]]].
  - intros s H. rewrite (danger_tick_player s H). apply movePlayerUpdater_bounds.
  - intros level s H. rewrite (platformer_tick_x false level s H eq_refl).
    apply clampX_bounds.
  - intros w now rnd i s Hg Hs p. unfold p. rewrite (shooter_tick_player w now rnd i s Hg Hs).
    apply shooter_movePlayer_bounds.
  - apply reachablePlayer_bounds.
  - apply platformer_reachable_x.
  - apply shooter_reachable_player.
Qed.

End Containment.

Lemma C4_clamped_entities_stay_inside_witness :
  Shooter.PLAYER_RADIUS <= Shooter.x (Shooter.player (Shooter.driftRight 1))
    <= Shooter.GAME_WIDTH - Shooter.PLAYER_RADIUS /\
  0 <= Danger.x (Danger.player (Danger.tick Danger.initialState))
    <= Danger.GAME_WIDTH - Danger.PLAYER_SIZE.
Proof.
  destruct (C4_clamped_entities_stay_inside Shooter.noMath) as (Hd & _ & Hs & _).
  split.
  - apply (Hs Shooter.default 0 (fun _ => 0.5) 0%nat Shooter.pushedRight eq_refl eq_refl).
  - apply (Hd Danger.initialState eq_refl).
Defined.

(** C4 as worded in the design document fails for the shooter: holding the
    joystick to the right from the initial state, the 68th tick (a tick of a
    running game) puts the player at x = 488, which is more than the width
    500 less the width 24 of the player. *)
Lemma C4_counterexample_shooter_centre_coordinates :
  let x' := Shooter.x (Shooter.player (Shooter.driftRight 68)) in
  Shooter.isGameOver (Shooter.driftRight 67) = false /\
  Shooter.isShopOpen (Shooter.driftRight 67) = false /\
  x' == 488 /\
  ~ (0 <= x' <= Shooter.GAME_WIDTH - Shooter.PLAYER_SPRITE_WIDTH) /\
  ~ (0 <= x' <= Shooter.GAME_WIDTH - 2 * Shooter.PLAYER_RADIUS).
Proof.
  cbv zeta.
  split; [vm_compute; reflexivity|]. split; [vm_compute; reflexivity|].
  split; [apply Qeq_bool_iff; vm_compute; reflexivity|].
  split; intros [_ Hle]; apply Qle_bool_iff in Hle; revert Hle; vm_compute; discriminate.
Qed.

(** ** Snake *)

Section SnakeFacts.
Import Snake.

Lemma length_removelast_cons {A : Type} (a : A) (l : list A) :
  length (List.removelast (a :: l)) = length l.
Proof.
  revert a. induction l as [|b l IH]; intros a; [reflexivity|].
  change (length (a :: List.removelast (b :: l)) = S (length l)).
  cbn [length]. f_equal. apply IH.
Qed.

(** The updater on a snake with at least one segment, case by case. *)
Lemma update_nonempty (fuel : nat) (buffered : option Direction) (prev : GameState)
    (first : Point) (rest : list Point) (rnd : nat -> Q) (i : nat) :
  snake prev = first :: rest ->
  let d := turn buffered (direction prev) in
  let head := advance d first in
  update fuel buffered prev rnd i =
    if hitsWall head || hitsSelf head (snake prev) then (Some (setGameOver prev), i)
    else if onCell (f_x (food prev)) (f_y (food prev)) head then
      (match fst (generateFood fuel (head :: snake prev) rnd i) with
       | Some fd => Some {| snake := head :: snake prev; food := fd; direction := d;
                            isGameOver := isGameOver prev; score := (score prev + 1)%Z;
                            speed := Z.max 50 (speed prev - 5) |}
       | None => None
       end, snd (generateFood fuel (head :: snake prev) rnd i))
    else
      (Some {| snake := List.removelast (head :: snake prev); food := food prev;
               direction := d; isGameOver := isGameOver prev; score := score prev;
               speed := speed prev |}, i).
Proof.
  intros Hs d head. unfold update. rewrite Hs. fold d. fold head. rewrite <- Hs.
  destruct (hitsWall head); [reflexivity|].
  destruct (hitsSelf head (snake prev)); [reflexivity|]. cbn [orb].
  destruct (onCell _ _ head); [|reflexivity].
  unfold bind, ret. destruct (generateFood fuel (head :: snake prev) rnd i) as [fd j].
  reflexivity.
Qed.

Lemma tick_playing_snake (fuel : nat) (c : Component) (rnd : nat -> Q) (i : nat) :
  isGameOver (gameState c) = false ->
  fst (tick fuel c rnd i) =
  match fst (update fuel (directionBuffer c) (gameState c) rnd i) with
  | Some st => Some {| gameState := st; directionBuffer := None |}
  | None => None
  end.
Proof.
  intros H. unfold tick, gameLoop. rewrite H. unfold bind, ret.
  destruct (update fuel (directionBuffer c) (gameState c) rnd i) as [[st|] j]; reflexivity.
Qed.

(** The food loop returns as soon as one of its rounds draws a free cell. *)
Lemma generateFood_returns (fuel : nat) (currentSnake : list Point) (rnd : nat -> Q) :
  forall (i k : nat), (k < fuel)%nat -> freeRound rnd i k currentSnake = true ->
  exists fd, fst (generateFood fuel currentSnake rnd i) = Some fd.
Proof.
  induction fuel as [|fuel IH]; intros i k Hk Hfree; [lia|].
  cbn [generateFood]. unfold bind, random, ret.
  destruct (existsb _ currentSnake) eqn:E.
  - destruct k as [|k].
    + unfold freeRound in Hfree. rewrite Nat.mul_0_r, Nat.add_0_r in Hfree.
      cbn [f_x f_y] in E. rewrite E in Hfree. discriminate.
    + apply (IH (S (S (S i))) k); [lia|].
      unfold freeRound in *.
      replace (S (S (S i)) + 3 * k)%nat with (i + 3 * S k)%nat by lia. exact Hfree.
  - eexists. reflexivity.
Qed.

Lemma reachable_invariant (c : Component) :
  reachable c ->
  Z.of_nat (length (snake (gameState c))) = (score (gameState c) + 1)%Z /\
  (0 <= score (gameState c))%Z.
Proof.
  intros H. induction H as [rnd i|rnd i c Hc IH|key c Hc IH|fuel rnd i c c' Hc IH Ht].
  - split; [reflexivity | cbn; lia].
  - split; [reflexivity | cbn; lia].
  - unfold handleKeyPress.
    destruct (String.eqb key "ArrowUp"); [exact IH|].
    destruct (String.eqb key "ArrowDown"); [exact IH|].
    destruct (String.eqb key "ArrowLeft"); [exact IH|].
    destruct (String.eqb key "ArrowRight"); exact IH.
  - destruct (isGameOver (gameState c)) eqn:Hg.
    + unfold tick, gameLoop in Ht. rewrite Hg in Ht. cbn in Ht. congruence.
    + rewrite (tick_playing_snake _ _ _ _ Hg) in Ht.
      destruct (snake (gameState c)) as [|first rest] eqn:Hs; [simpl in IH; lia|].
      rewrite (update_nonempty _ _ _ _ _ _ _ Hs) in Ht. cbv zeta in Ht.
      rewrite Hs in Ht.
      destruct (_ || _).
      * cbn in Ht. injection Ht as <-. cbn. rewrite Hs. exact IH.
      * destruct (onCell _ _ _).
        -- cbn [fst] in Ht. destruct (fst (generateFood _ _ _ _)); [|discriminate].
           injection Ht as <-. cbn [gameState snake score length].
           simpl length in IH. lia.
        -- cbn [fst] in Ht. injection Ht as <-. cbn [gameState snake score].
           match goal with
           | |- context [length (?h :: _)] =>
               change (Z.of_nat (length (h :: List.removelast (first :: rest))) =
                       (score (gameState c) + 1)%Z /\ (0 <= score (gameState c))%Z)
           end.
           cbn [length]. rewrite length_removelast_cons. simpl length in IH. lia.
Qed.

(** C10.  Every state the snake game can reach has as many segments as
    the score plus one.  A tick of a running game either ends the game
    (wall or self collision) leaving snake and score as they are, or lands
    the head on the food, adding exactly one segment and one point, or
    keeps both the length and the score.  Such a tick returns whenever it
    does not eat, and when it eats as soon as one round of the food loop
    draws a cell off the snake. *)
Theorem C10_snake_length_is_score_plus_one :
  (forall c, reachable c ->
     Z.of_nat (length (snake (gameState c))) = (score (gameState c) + 1)%Z) /\
  (forall fuel rnd i c c',
     reachable c -> isGameOver (gameState c) = false ->
     fst (tick fuel c rnd i) = Some c' ->
     let s := gameState c in
     let s' := gameState c' in
     if hitsWall (nextHead c) || hitsSelf (nextHead c) (snake s) then s' = setGameOver s
     else if onCell (f_x (food s)) (f_y (food s)) (nextHead c) then
       length (snake s') = S (length (snake s)) /\ score s' = (score s + 1)%Z /\
       isGameOver s' = false
     else
       length (snake s') = length (snake s) /\ score s' = score s /\
       isGameOver s' = false) /\
  (forall fuel rnd i c,
     reachable c -> isGameOver (gameState c) = false ->
     (eats c = false \/
      exists k, (k < fuel)%nat /\
                freeRound rnd i k (nextHead c :: snake (gameState c)) = true) ->
     exists c', fst (tick fuel c rnd i) = Some c').
Proof.
  split; [|split].
  - intros c Hc. apply reachable_invariant. exact Hc.
  - intros fuel rnd i c c' Hc Hg Ht s s'.
    destruct (reachable_invariant c Hc) as [Hlen Hpos].
    rewrite (tick_playing_snake _ _ _ _ Hg) in Ht.
    destruct (snake (gameState c)) as [|first rest] eqn:Hs; [simpl in Hlen; lia|].
    rewrite (update_nonempty _ _ _ _ _ _ _ Hs) in Ht. cbv zeta in Ht.
    unfold nextHead, s. rewrite Hs. cbn [List.hd]. rewrite Hs in Ht.
    destruct (_ || _).
    + cbn in Ht. injection Ht as <-. reflexivity.
    + destruct (onCell _ _ _).
      * cbn [fst] in Ht. destruct (fst (generateFood _ _ _ _)); [|discriminate].
        injection Ht as <-. unfold s'. cbn. auto.
      * cbn [fst] in Ht. injection Ht as <-. unfold s'. cbn [gameState snake score isGameOver].
        split; [|split; [reflexivity | exact Hg]].
        apply (length_removelast_cons _ (first :: rest)).
  - intros fuel rnd i c Hc Hg Hfree.
    destruct (reachable_invariant c Hc) as [Hlen Hpos].
    rewrite (tick_playing_snake _ _ _ _ Hg).
    destruct (snake (gameState c)) as [|first rest] eqn:Hs; [simpl in Hlen; lia|].
    rewrite (update_nonempty _ _ _ _ _ _ _ Hs). cbv zeta.
    unfold eats, nextHead in Hfree. rewrite Hs in Hfree. cbn [List.hd] in Hfree.
    rewrite Hs.
    destruct (_ || _); [eexists; reflexivity|].
    destruct (onCell _ _ _); [|eexists; reflexivity].
    destruct Hfree as [Hno | (k & Hk & Hfree)]; [discriminate|].
    destruct (generateFood_returns fuel _ rnd i k Hk Hfree) as [fd Hfd].
    cbn [fst]. rewrite Hfd. eexists; reflexivity.
Qed.

Lemma C10_snake_length_is_score_plus_one_witness :
  let c := {| gameState := fst (createInitialState foodAhead 0%nat);
              directionBuffer := None |} in
  exists c', fst (tick 5 c foodAhead 3%nat) = Some c' /\
             length (snake (gameState c')) = 2%nat /\ score (gameState c') = 1%Z.
Proof.
  intros c.
  assert (Hc : reachable c) by apply reach_mount.
  destruct C10_snake_length_is_score_plus_one as (_ & Hstep & Hret).
  destruct (Hret 5%nat foodAhead 3%nat c Hc eq_refl) as [c' Hc'].
  { right. exists 0%nat. split; [lia | reflexivity]. }
  exists c'. split; [exact Hc'|].
  pose proof (Hstep 5%nat foodAhead 3%nat c c' Hc eq_refl Hc') as H.
  cbv zeta in H.
  change (hitsWall (nextHead c) || hitsSelf (nextHead c) (snake (gameState c))) with false in H.
  change (onCell (f_x (food (gameState c))) (f_y (food (gameState c))) (nextHead c))
    with true in H.
  cbv iota in H. destruct H as (Hl & Hsc & _). split; assumption.
Defined.

End SnakeFacts.

(** ** Restart *)

Section RestartFacts.

(** Two restarts of the snake game agree on everything but the food. *)
Lemma snake_restart_same_modulo_food (c1 c2 : Snake.Component) (rnd1 rnd2 : nat -> Q)
    (i1 i2 : nat) :
  let a := fst (Snake.restartGame c1 rnd1 i1) in
  let b := fst (Snake.restartGame c2 rnd2 i2) in
  Snake.directionBuffer a = Snake.directionBuffer b /\
  Snake.snake (Snake.gameState a) = [Snake.startPoint] /\
  Snake.snake (Snake.gameState a) = Snake.snake (Snake.gameState b) /\
  Snake.direction (Snake.gameState a) = Snake.direction (Snake.gameState b) /\
  Snake.isGameOver (Snake.gameState a) = Snake.isGameOver (Snake.gameState b) /\
  Snake.score (Snake.gameState a) = Snake.score (Snake.gameState b) /\
  Snake.speed (Snake.gameState a) = Snake.speed (Snake.gameState b).
Proof. cbv zeta. repeat split. Qed.

Lemma generateCollectible_free (fuel : nat) (p sh : DotRunner.Point) (rnd : nat -> Q) :
  forall (i : nat) (c : DotRunner.Collectible),
  fst (DotRunner.generateCollectible fuel p sh rnd i) = Some c ->
  DotRunner.sameCell c p = false /\ DotRunner.sameCell c sh = false.
Proof.
  induction fuel as [|fuel IH]; intros i c H; [discriminate|].
  cbn [DotRunner.generateCollectible] in H. unfold bind at 1 in H.
  destruct (DotRunner.drawCollectible rnd i) as [d j].
  destruct (DotRunner.sameCell d p || DotRunner.sameCell d sh) eqn:E.
  - apply (IH j c H).
  - cbn in H. injection H as <-. now apply orb_false_iff in E.
Qed.

(** In the dot-runner game the collectible placed by a restart is never on
    the player's start cell, nor on the shadow's. *)
Lemma dotrunner_restart_avoids_player (fuel : nat) (rnd : nat -> Q) (i : nat)
    (s : DotRunner.GameState) :
  fst (DotRunner.restartGame fuel rnd i) = Some s ->
  DotRunner.player s = {| DotRunner.x := 12; DotRunner.y := 12 |} /\
  DotRunner.shadow s = {| DotRunner.x := 0; DotRunner.y := 0 |} /\
  DotRunner.sameCell (DotRunner.collectible s) (DotRunner.player s) = false /\
  DotRunner.sameCell (DotRunner.collectible s) (DotRunner.shadow s) = false /\
  DotRunner.score s = 0%Z /\ DotRunner.isGameOver s = false.
Proof.
  unfold DotRunner.restartGame, DotRunner.createInitialState. unfold bind at 1 2.
  destruct (DotRunner.drawCollectible rnd i) as [c0 j]. unfold ret at 1.
  unfold bind at 1. cbn [DotRunner.player DotRunner.shadow].
  destruct (DotRunner.generateCollectible fuel _ _ rnd j) as [[c|] k] eqn:E;
    [|discriminate].
  cbn. intros H. injection H as <-. cbn.
  assert (Hc : fst (DotRunner.generateCollectible fuel
                      {| DotRunner.x := Math_floor (inject_Z DotRunner.GRID_SIZE / 2);
                         DotRunner.y := Math_floor (inject_Z DotRunner.GRID_SIZE / 2) |}
                      {| DotRunner.x := 0; DotRunner.y := 0 |} rnd j) = Some c)
    by (rewrite E; reflexivity).
  destruct (generateCollectible_free _ _ _ _ _ _ Hc) as [Hp Hs].
  repeat split; assumption.
Qed.

(** C7 at the failing input.  When [Math.random()] returns 0.5, restarting
    the snake game puts the food on cell (10, 10), the cell of the snake's
    only segment. *)
Theorem C7_snake_restart_can_put_food_on_start (c : Snake.Component) :
  let st := Snake.gameState (fst (Snake.restartGame c (fun _ => 0.5) 0%nat)) in
  Snake.snake st = [Snake.startPoint] /\
  Snake.startPoint = {| Snake.x := 10; Snake.y := 10 |} /\
  (Snake.f_x (Snake.food st), Snake.f_y (Snake.food st)) = (10%Z, 10%Z) /\
  existsb (Snake.onCell (Snake.f_x (Snake.food st)) (Snake.f_y (Snake.food st)))
          (Snake.snake st) = true.
Proof. cbv zeta. repeat split. Qed.

End RestartFacts.

(** * Further properties of the modelled code *)

Lemma Math_max_spec (a b : Q) :
  (a <= b /\ Math_max a b = b) \/ (b < a /\ Math_max a b = a).
Proof.
  unfold Math_max. destruct (Qle_bool a b) eqn:E.
  - left. split; [apply Qle_bool_iff; exact E | reflexivity].
  - right. split; [apply Qle_bool_false_iff; exact E | reflexivity].
Qed.

Lemma Math_min_spec (a b : Q) :
  (a <= b /\ Math_min a b = a) \/ (b < a /\ Math_min a b = b).
Proof.
  unfold Math_min. destruct (Qle_bool a b) eqn:E.
  - left. split; [apply Qle_bool_iff; exact E | reflexivity].
  - right. split; [apply Qle_bool_false_iff; exact E | reflexivity].
Qed.

Lemma floor_scaled_bounds (r : Q) (n : Z) :
  0 <= r -> r < 1 -> (0 < n)%Z ->
  (0 <= Math_floor (r * inject_Z n) < n)%Z.
Proof.
  intros H0 H1 Hn. unfold Math_floor.
  assert (Hq : inject_Z 0 < inject_Z n) by (rewrite <- Zlt_Qlt; exact Hn).
  change (inject_Z 0) with 0 in Hq.
  split.
  - change 0%Z with (Qfloor 0). apply Qfloor_resp_le. nra.
  - rewrite Zlt_Qlt. apply Qle_lt_trans with (r * inject_Z n); [apply Qfloor_le|]. nra.
Qed.

(** ** Snake: geometry, speed and food *)

Section SnakeMore.
Import Snake.

Lemma onCell_iff (fx fy : Z) (p : Point) :
  onCell fx fy p = true <-> p = {| x := fx; y := fy |}.
Proof.
  unfold onCell. rewrite andb_true_iff, !Z.eqb_eq. destruct p as [px py]. cbn.
  split; [intros [-> ->]; reflexivity | intros H; injection H; auto].
Qed.

Lemma existsb_onCell_false (p : Point) (l : list Point) :
  existsb (onCell (x p) (y p)) l = false -> ~ In p l.
Proof.
  intros H Hin. assert (existsb (onCell (x p) (y p)) l = true); [|congruence].
  apply existsb_exists. exists p. split; [exact Hin|].
  apply onCell_iff. destruct p; reflexivity.
Qed.

Lemma advance_moves (d : Direction) (p : Point) : advance d p <> p.
Proof.
  destruct p as [px py]. destruct d; cbn; intros H; injection H; lia.
Qed.

Lemma hitsWall_false (p : Point) : hitsWall p = false -> inGrid p = true.
Proof.
  unfold hitsWall, inGrid. rewrite !orb_false_iff. intros [[[H1 H2] H3] H4].
  apply Z.ltb_ge in H1, H3. apply Z.leb_gt in H2, H4.
  rewrite !andb_true_iff. repeat split;
    first [apply Z.leb_le | apply Z.ltb_lt]; assumption.
Qed.

Lemma In_removelast {A : Type} (a : A) (l : list A) :
  In a (List.removelast l) -> In a l.
Proof.
  induction l as [|b l IH]; [auto|].
  destruct l as [|c l]; [intros []|].
  change (List.removelast (b :: c :: l)) with (b :: List.removelast (c :: l)).
  intros [-> | H]; [left; reflexivity | right; apply IH; exact H].
Qed.

Lemma NoDup_removelast {A : Type} (l : list A) : List.NoDup l -> List.NoDup (List.removelast l).
Proof.
  induction l as [|b l IH]; [auto|]. intros H.
  destruct l as [|c l]; [constructor|].
  change (List.removelast (b :: c :: l)) with (b :: List.removelast (c :: l)).
  apply NoDup_cons_iff in H. destruct H as [Hb Hl].
  apply NoDup_cons_iff. split; [|apply IH; exact Hl].
  intros Hin. apply Hb. apply In_removelast. exact Hin.
Qed.

Lemma Forall_removelast {A : Type} (P : A -> Prop) (l : list A) :
  Forall P l -> Forall P (List.removelast l).
Proof.
  intros H. apply List.Forall_forall. intros a Ha.
  apply (proj1 (List.Forall_forall P l) H). apply In_removelast. exact Ha.
Qed.

Definition wellFormed (st : GameState) : Prop :=
  Forall (fun p => inGrid p = true) (snake st) /\ List.NoDup (snake st) /\
  speed st = Z.max 50 (GAME_SPEED - 5 * score st).

Lemma reachable_wellFormed (c : Component) : reachable c -> wellFormed (gameState c).
Proof.
  intros H. induction H as [rnd i|rnd i c Hc IH|key c Hc IH|fuel rnd i c c' Hc IH Ht].
  - repeat split. + repeat constructor. + repeat constructor; intros [].
  - repeat split. + repeat constructor. + repeat constructor; intros [].
  - unfold handleKeyPress.
    destruct (String.eqb key "ArrowUp"); [exact IH|].
    destruct (String.eqb key "ArrowDown"); [exact IH|].
    destruct (String.eqb key "ArrowLeft"); [exact IH|].
    destruct (String.eqb key "ArrowRight"); exact IH.
  - destruct (isGameOver (gameState c)) eqn:Hg.
    + unfold tick, gameLoop in Ht. rewrite Hg in Ht. cbn in Ht. congruence.
    + rewrite (tick_playing_snake _ _ _ _ Hg) in Ht.
      destruct (reachable_invariant c Hc) as [Hlen Hpos].
      destruct IH as (Hgrid & Hnd & Hsp).
      destruct (snake (gameState c)) as [|first rest] eqn:Hs; [simpl in Hlen; lia|].
      rewrite (update_nonempty _ _ _ _ _ _ _ Hs) in Ht. cbv zeta in Ht.
      rewrite Hs in Ht.
      set (head := advance (turn (directionBuffer c) (direction (gameState c))) first) in *.
      destruct (hitsWall head) eqn:Hw.
      { cbn in Ht. injection Ht as <-. unfold wellFormed. cbn. rewrite Hs. auto. }
      destruct (hitsSelf head (first :: rest)) eqn:Hself.
      { cbn in Ht. injection Ht as <-. unfold wellFormed. cbn. rewrite Hs. auto. }
      cbn [orb] in Ht.
      assert (Hhead : ~ In head (first :: rest)).
      { intros [Heq | Hin].
        - symmetry in Heq. revert Heq. apply advance_moves.
        - revert Hin. apply existsb_onCell_false. exact Hself. }
      assert (Hnew : Forall (fun p => inGrid p = true) (head :: first :: rest) /\
                     List.NoDup (head :: first :: rest)).
      { split; [constructor; [apply hitsWall_false; exact Hw | exact Hgrid]|].
        constructor; assumption. }
      destruct Hnew as [Hgrid' Hnd'].
      destruct (onCell _ _ head).
      * cbn [fst] in Ht. destruct (fst (generateFood _ _ _ _)); [|discriminate].
        injection Ht as <-. unfold wellFormed. cbn [gameState snake score speed].
        repeat split; [exact Hgrid' | exact Hnd' |]. rewrite Hsp. unfold GAME_SPEED. lia.
      * cbn [fst] in Ht. injection Ht as <-. unfold wellFormed.
        cbn [gameState snake score speed].
        repeat split; [| | exact Hsp].
        -- apply (Forall_removelast _ (head :: first :: rest)). exact Hgrid'.
        -- apply (NoDup_removelast (head :: first :: rest)). exact Hnd'.
Qed.

Lemma generateFood_free (fuel : nat) (currentSnake : list Point) (rnd : nat -> Q) :
  unitDraws rnd ->
  forall (i : nat) (fd : Food),
  fst (generateFood fuel currentSnake rnd i) = Some fd ->
  foodInGrid fd = true /\ existsb (onCell (f_x fd) (f_y fd)) currentSnake = false.
Proof.
  intros Hrnd. induction fuel as [|fuel IH]; intros i fd H; [discriminate|].
  cbn [generateFood] in H. unfold bind, random, ret in H.
  destruct (existsb _ currentSnake) eqn:E.
  - apply (IH _ _ H).
  - cbn [fst] in H.
    apply (f_equal (fun o => match o with Some f => f | None => fd end)) in H.
    cbv beta iota in H. rewrite <- H. split; [|exact E].
    unfold foodInGrid. cbn [f_x f_y emoji].
    destruct (Hrnd i) as [Ha Hb]. destruct (Hrnd (S i)) as [Hc Hd].
    destruct (Hrnd (S (S i))) as [He Hf].
    pose proof (floor_scaled_bounds _ GRID_SIZE Ha Hb eq_refl).
    pose proof (floor_scaled_bounds _ GRID_SIZE Hc Hd eq_refl).
    pose proof (floor_scaled_bounds _ FRUITS_length He Hf eq_refl).
    repeat (apply andb_true_intro; split);
      first [apply Z.leb_le; lia | apply Z.ltb_lt; lia].
Qed.

Lemma unitDraws_foodAhead : unitDraws foodAhead.
Proof.
  intros k. unfold foodAhead. destruct (k =? 1)%nat; split;
    first [apply Qle_bool_iff; reflexivity | reflexivity].
Qed.

(** X1.  The snake never leaves the board and never overlaps itself: in
    every component a player can bring about, each segment lies on a cell of
    the 20 x 20 grid and no two segments share a cell. *)
Theorem X1_snake_stays_on_grid_without_overlap (c : Component) :
  reachable c ->
  Forall (fun p => inGrid p = true) (snake (gameState c)) /\
  List.NoDup (snake (gameState c)).
Proof.
  intros Hc. destruct (reachable_wellFormed c Hc) as (Hgrid & Hnd & _). split; assumption.
Qed.

Lemma X1_snake_stays_on_grid_without_overlap_witness :
  let c := handleKeyPress "ArrowUp"
             {| gameState := fst (createInitialState foodAhead 0%nat);
                directionBuffer := None |} in
  Forall (fun p => inGrid p = true) (snake (gameState c)) /\
  List.NoDup (snake (gameState c)).
Proof.
  intros c. apply X1_snake_stays_on_grid_without_overlap.
  apply reach_key. apply reach_mount.
Defined.

(** X2.  The delay between two ticks is a function of the score: 150 ms less
    5 ms for each fruit eaten, and never under 50 ms. *)
Theorem X2_snake_speed_follows_score (c : Component) :
  reachable c ->
  speed (gameState c) = Z.max 50 (GAME_SPEED - 5 * score (gameState c)) /\
  (50 <= speed (gameState c) <= GAME_SPEED)%Z.
Proof.
  intros Hc. destruct (reachable_wellFormed c Hc) as (_ & _ & Hsp).
  destruct (reachable_invariant c Hc) as [_ Hpos].
  split; [exact Hsp|]. rewrite Hsp. unfold GAME_SPEED. lia.
Qed.

Lemma X2_snake_speed_follows_score_witness :
  let c := {| gameState := fst (createInitialState foodAhead 0%nat);
              directionBuffer := None |} in
  speed (gameState c) = Z.max 50 (GAME_SPEED - 5 * score (gameState c)) /\
  (50 <= speed (gameState c) <= GAME_SPEED)%Z.
Proof.
  intros c. apply X2_snake_speed_follows_score. apply reach_mount.
Defined.

(** X3.  Where the food lands.  With draws between 0 and 1, the food that
    [generateFood] returns is a cell of the grid with one of the eight
    fruits, and no segment of the snake it was given lies on it.  A tick of
    a running game that eats, and any tick that starts with the food off the
    snake, ends with the food off the snake. *)
Theorem X3_snake_food_lands_off_the_snake :
  (forall fuel currentSnake rnd i fd,
     unitDraws rnd ->
     fst (generateFood fuel currentSnake rnd i) = Some fd ->
     foodInGrid fd = true /\
     existsb (onCell (f_x fd) (f_y fd)) currentSnake = false) /\
  (forall fuel rnd i c c',
     unitDraws rnd ->
     fst (tick fuel c rnd i) = Some c' ->
     (isGameOver (gameState c) = false /\ eats c = true) \/
     foodFree (gameState c) = true ->
     foodFree (gameState c') = true).
Proof.
  split.
  - intros fuel currentSnake rnd i fd Hrnd H. apply (generateFood_free fuel _ rnd Hrnd i fd H).
  - intros fuel rnd i c c' Hrnd Ht Hpre.
    destruct (isGameOver (gameState c)) eqn:Hg.
    { unfold tick, gameLoop in Ht. rewrite Hg in Ht. cbn in Ht. injection Ht as <-.
      destruct Hpre as [[He _] | Hf]; [discriminate | exact Hf]. }
    rewrite (tick_playing_snake _ _ _ _ Hg) in Ht.
    destruct (snake (gameState c)) as [|first rest] eqn:Hs.
    { unfold update in Ht. rewrite Hs in Ht. cbn in Ht. injection Ht as <-. reflexivity. }
    assert (Hhd : nextHead c =
                  advance (turn (directionBuffer c) (direction (gameState c))) first).
    { unfold nextHead. rewrite Hs. reflexivity. }
    rewrite (update_nonempty _ _ _ _ _ _ _ Hs) in Ht. cbv zeta in Ht.
    rewrite Hs, <- Hhd in Ht.
    assert (Hover : foodFree (gameState c) = true -> foodFree (setGameOver (gameState c)) = true)
      by (intros Hf; exact Hf).
    unfold eats in Hpre. rewrite Hs in Hpre.
    destruct (hitsWall (nextHead c)) eqn:Hw.
    { cbn in Ht. injection Ht as <-. cbn [gameState]. apply Hover.
      destruct Hpre as [[_ He] | Hf]; [discriminate | exact Hf]. }
    destruct (hitsSelf (nextHead c) (first :: rest)) eqn:Hself.
    { cbn in Ht. injection Ht as <-. cbn [gameState]. apply Hover.
      destruct Hpre as [[_ He] | Hf]; [discriminate | exact Hf]. }
    cbn [orb negb andb] in Hpre.
    destruct (onCell (f_x (food (gameState c))) (f_y (food (gameState c))) (nextHead c))
      eqn:Hon.
    + cbn [fst] in Ht.
      destruct (fst (generateFood fuel (nextHead c :: first :: rest) rnd i)) as [fd|] eqn:Hfd;
        [|discriminate].
      injection Ht as <-. unfold foodFree. cbn [gameState snake food].
      destruct (generateFood_free _ _ _ Hrnd _ _ Hfd) as [_ Hoff]. rewrite Hoff. reflexivity.
    + cbn [fst] in Ht. injection Ht as <-. unfold foodFree. cbn [gameState snake food].
      destruct Hpre as [[_ He] | Hf]; [discriminate|].
      unfold foodFree in Hf. rewrite Hs in Hf. apply negb_true_iff in Hf.
      apply negb_true_iff. apply not_true_is_false. intros Hex.
      apply existsb_exists in Hex. destruct Hex as (p & Hp & Hpc).
      change (In p (List.removelast (nextHead c :: first :: rest))) in Hp.
      apply In_removelast in Hp. destruct Hp as [<- | Hp].
      * congruence.
      * assert (existsb (onCell (f_x (food (gameState c))) (f_y (food (gameState c))))
                        (first :: rest) = true); [|congruence].
        apply existsb_exists. exists p. split; assumption.
Qed.

Lemma X3_snake_food_lands_off_the_snake_witness :
  let c := {| gameState := fst (createInitialState foodAhead 0%nat);
              directionBuffer := None |} in
  exists fd c',
    fst (generateFood 5 [startPoint] foodAhead 0%nat) = Some fd /\
    foodInGrid fd = true /\
    fst (tick 5 c foodAhead 3%nat) = Some c' /\
    foodFree (gameState c') = true.
Proof.
  intros c.
  destruct X3_snake_food_lands_off_the_snake as [Hfood Htick].
  eexists. eexists. split; [reflexivity|]. split.
  - apply (Hfood 5%nat [startPoint] foodAhead 0%nat _ unitDraws_foodAhead eq_refl).
  - split; [reflexivity|].
    apply (Htick 5%nat foodAhead 3%nat c _ unitDraws_foodAhead eq_refl).
    left. split; reflexivity.
Defined.

End SnakeMore.

(** ** Dot runner: the shadow, the grid and the pace *)

Section DotRunnerMore.
Variable M : MathLib.
Import DotRunner.

Ltac split_bind H j Hc :=
  match type of H with
  | context [let '(_, _) := ?c ?rnd ?i in _] =>
      let a := fresh "a" in destruct (c rnd i) as [a j] eqn:Hc
  end.

Lemma update_result (fuel : nat) (prev : GameState) (rnd : nat -> Q) (i : nat)
    (s' : GameState) (sound : bool) :
  fst (update M fuel prev rnd i) = Some (s', sound) ->
  player s' = player prev /\
  gameTime s' = (gameTime prev + 1)%Z /\
  (shadow s' = shadow prev \/
   ((shadowPowerUpTimer s' <= 0)%Z /\ shadow prev <> player prev /\
    shadow s' = towards (player prev) (shadow prev))) /\
  isGameOver s' =
    (if (x (player prev) =? x (shadow s'))%Z && (y (player prev) =? y (shadow s'))%Z
     then true else isGameOver prev) /\
  (if sameCell (collectible prev) (player prev)
   then score s' = (score prev + 1)%Z /\ gameSpeed s' = Z.max 75 (gameSpeed prev - 2) /\
        sameCell (collectible s') (player s') = false /\
        sameCell (collectible s') (shadow s') = false
   else score s' = score prev /\ gameSpeed s' = gameSpeed prev /\
        collectible s' = collectible prev) /\
  (baseShadowMoveChance s' = baseShadowMoveChance prev \/
   baseShadowMoveChance s' = Math_min 0.9 (baseShadowMoveChance prev + 0.03)).
Proof.
  unfold update. cbv zeta.
  set (T' := if (0 <? gameTime prev + 1)%Z && ((gameTime prev + 1) mod 80 =? 0)%Z &&
                (shadowPowerUpTimer prev <=? 0)%Z
             then 25%Z else Z.max 0 (shadowPowerUpTimer prev - 1)).
  set (chance' := if (shadowPowerUpTimer prev =? 1)%Z && (T' =? 0)%Z
                  then Math_min 0.9 (baseShadowMoveChance prev + 0.03)
                  else baseShadowMoveChance prev).
  unfold bind at 1. intros H.
  split_bind H j Hsh.
  unfold bind at 1 in H. split_bind H j2 Hgl.
  unfold bind at 1 in H. split_bind H j3 Hco.
  unfold ret in H. cbn [fst] in H.
  assert (Hshadow : a = shadow prev \/
            ((T' <= 0)%Z /\ shadow prev <> player prev /\
             a = towards (player prev) (shadow prev))).
  { revert Hsh. destruct (T' <=? 0)%Z eqn:Ht;
      [|unfold ret; intros [= <- _]; left; reflexivity].
    unfold bind, random. destruct (Qlt_bool (rnd i) _);
      [|unfold ret; intros [= <- _]; left; reflexivity].
    destruct (negb _ || negb _) eqn:Hd;
      [|unfold ret; intros [= <- _]; left; reflexivity].
    intros Hsh. right. split; [apply Z.leb_le; exact Ht|]. split.
    - intros Heq. rewrite Heq, !Z.sub_diag in Hd. discriminate.
    - unfold towards. destruct (Z.abs _ <? Z.abs _)%Z; unfold ret in Hsh;
        injection Hsh as <- _; reflexivity. }
  assert (Hchance : chance' = baseShadowMoveChance prev \/
                    chance' = Math_min 0.9 (baseShadowMoveChance prev + 0.03)).
  { unfold chance'. destruct ((shadowPowerUpTimer prev =? 1)%Z && (T' =? 0)%Z);
      [right | left]; reflexivity. }
  destruct (sameCell (collectible prev) (player prev)) eqn:Hon.
  - unfold bind, ret in Hco.
    destruct (generateCollectible fuel (player prev) a rnd j2) as [[c|] j4] eqn:Hgen.
    + injection Hco as <- _. injection H as <- _. cbn.
      assert (Hc : fst (generateCollectible fuel (player prev) a rnd j2) = Some c)
        by (rewrite Hgen; reflexivity).
      destruct (generateCollectible_free _ _ _ _ _ _ Hc) as [Hp Hs].
      repeat split; assumption.
    + injection Hco as <- _. discriminate.
  - unfold ret in Hco. injection Hco as <- _. injection H as <- _. cbn.
    repeat split; assumption.
Qed.


Lemma inGrid_iff (p : Point) :
  inGrid p = true <-> (0 <= x p < GRID_SIZE)%Z /\ (0 <= y p < GRID_SIZE)%Z.
Proof.
  unfold inGrid. rewrite !andb_true_iff, !Z.leb_le, !Z.ltb_lt. tauto.
Qed.

Lemma towards_inGrid (p sh : Point) :
  inGrid p = true -> inGrid sh = true -> inGrid (towards p sh) = true.
Proof.
  rewrite !inGrid_iff. intros Hp Hs. unfold towards. cbv zeta.
  destruct (Z.abs _ <? Z.abs _)%Z; cbn [x y]; lia.
Qed.





Definition paced (s : GameState) : Prop :=
  inGrid (player s) = true /\ inGrid (shadow s) = true /\
  (0 <= score s)%Z /\
  gameSpeed s = Z.max 75 (GAME_SPEED_START - 2 * score s) /\
  0.35 <= baseShadowMoveChance s /\ baseShadowMoveChance s <= 0.9.

Lemma reachable_paced (s : GameState) : reachable M s -> paced s.
Proof.
  intros H. induction H as [rnd i|fuel rnd i s Hr|rendered key s Hs IH|
                            fuel rnd i rendered s s' sound Hs IH Ht].
  - unfold createInitialState, bind, ret. destruct (drawCollectible rnd i) as [c j].
    cbn [fst]. unfold paced. cbn. repeat split; try reflexivity; try lia; lra.
  - unfold restartGame, createInitialState in Hr. unfold bind at 1 2 in Hr.
    destruct (drawCollectible rnd i) as [c j]. unfold ret at 1 in Hr.
    unfold bind at 1 in Hr.
    destruct (generateCollectible fuel _ _ rnd j) as [[c'|] k]; [|discriminate].
    cbn in Hr. injection Hr as <-.
    unfold paced. cbn. repeat split; try reflexivity; try lia; lra.
  - destruct IH as (Hp & Hsh & Hsc & Hsp & Hlo & Hhi).
    unfold handleKeyPress. destruct (isGameOver rendered);
      [repeat split; assumption|].
    assert (Hgrid : forall nx ny,
              (nx, ny) = (x (player s), Z.max 0 (y (player s) - 1)) \/
              (nx, ny) = (x (player s), Z.min (GRID_SIZE - 1) (y (player s) + 1)) \/
              (nx, ny) = (Z.max 0 (x (player s) - 1), y (player s)) \/
              (nx, ny) = (Z.min (GRID_SIZE - 1) (x (player s) + 1), y (player s)) \/
              (nx, ny) = (x (player s), y (player s)) ->
              inGrid {| x := nx; y := ny |} = true).
    { intros nx ny Hn. apply inGrid_iff in Hp. apply inGrid_iff. cbn [x y].
      unfold GRID_SIZE in *.
      destruct Hn as [Hn|[Hn|[Hn|[Hn|Hn]]]]; injection Hn as -> ->; lia. }
    cbv zeta.
    destruct (String.eqb key "ArrowUp");
      [|destruct (String.eqb key "ArrowDown");
        [|destruct (String.eqb key "ArrowLeft");
          [|destruct (String.eqb key "ArrowRight")]]];
      (split; [cbn [player]; apply Hgrid; auto 6 | repeat split; assumption]).
  - unfold gameLoop in Ht. destruct (isGameOver rendered).
    { cbn in Ht. injection Ht as <- _. exact IH. }
    destruct IH as (Hp & Hsh & Hsc & Hsp & Hlo & Hhi).
    destruct (update_result _ _ _ _ _ _ Ht) as (Hp' & _ & Hsh' & _ & Hc & Hch).
    unfold paced. rewrite Hp'. split; [exact Hp|]. split; [|split; [|split]].
    + destruct Hsh' as [-> | (_ & _ & ->)]; [exact Hsh|].
      apply towards_inGrid; assumption.
    + destruct (sameCell _ _); destruct Hc as (-> & _); lia.
    + destruct (sameCell _ _).
      * destruct Hc as (-> & -> & _). rewrite Hsp. unfold GAME_SPEED_START. lia.
      * destruct Hc as (-> & -> & _). exact Hsp.
    + destruct Hch as [-> | ->]; [split; assumption|].
      split; [apply Math_min_lower; lra|].
      unfold Math_min. destruct (Qle_bool 0.9 _) eqn:E; [lra|].
      apply Qle_bool_false_iff in E. lra.
Qed.

(** X6.  The board and the pace of the dot runner.  In every state a player
    can bring about, the player and the shadow are on the 25 x 25 grid, the
    delay between two ticks follows the score (130 ms less 2 ms for each
    collectible, and never under 75 ms), and the shadow's base chance to
    move is between 0.35 and 0.9. *)
Theorem X6_dotrunner_board_and_pace (s : GameState) :
  reachable M s ->
  inGrid (player s) = true /\ inGrid (shadow s) = true /\
  gameSpeed s = Z.max 75 (GAME_SPEED_START - 2 * score s) /\
  (75 <= gameSpeed s <= GAME_SPEED_START)%Z /\
  0.35 <= baseShadowMoveChance s /\ baseShadowMoveChance s <= 0.9.
Proof.
  intros H. destruct (reachable_paced s H) as (Hp & Hsh & Hsc & Hsp & Hlo & Hhi).
  repeat split; try assumption; rewrite Hsp; unfold GAME_SPEED_START; lia.
Qed.

End DotRunnerMore.



Lemma X6_dotrunner_board_and_pace_witness :
  let s := DotRunner.handleKeyPress DotRunner.calmStart "ArrowLeft" DotRunner.calmStart in
  DotRunner.inGrid (DotRunner.player s) = true /\
  DotRunner.inGrid (DotRunner.shadow s) = true /\
  DotRunner.gameSpeed s =
    Z.max 75 (DotRunner.GAME_SPEED_START - 2 * DotRunner.score s) /\
  (75 <= DotRunner.gameSpeed s <= DotRunner.GAME_SPEED_START)%Z /\
  0.35 <= DotRunner.baseShadowMoveChance s /\ DotRunner.baseShadowMoveChance s <= 0.9.
Proof.
  intros s. apply (X6_dotrunner_board_and_pace Shooter.noMath).
  apply DotRunner.reach_key. apply DotRunner.reach_mount.
Defined.

(** ** Sky gift: the gifts, the tray and the lives *)

Section SkyGiftMore.
Import SkyGift.

Lemma sortGifts_filter (tray : Q) (moved : list GameObject) :
  forall (kept : list GameObject) (sc lv : Z) (over : bool),
  sortGifts tray moved (kept, sc, lv, over) =
  (kept ++ List.filter (stays tray) moved,
   (sc + 10 * Z.of_nat (length (List.filter (caught tray) moved)))%Z,
   (lv - Z.of_nat (length (List.filter (missed tray) moved)))%Z,
   over || (0 <? Z.of_nat (length (List.filter (missed tray) moved)))%Z &&
           (lv - Z.of_nat (length (List.filter (missed tray) moved)) <=? 0)%Z).
Proof.
  induction moved as [|g rest IH]; intros kept sc lv over.
  - cbn. rewrite app_nil_r, Z.add_0_r, Z.sub_0_r, orb_false_r. reflexivity.
  - cbn [sortGifts List.filter].
    destruct (caught tray g) eqn:Hc.
    + replace (stays tray g) with false by (unfold stays; rewrite Hc; reflexivity).
      replace (missed tray g) with false by (unfold missed; rewrite Hc; reflexivity).
      rewrite IH. cbn [length]. rewrite Nat2Z.inj_succ.
      rewrite !pair_equal_spec. repeat split; lia.
    + destruct (Qle_bool GAME_HEIGHT (y g)) eqn:Hy.
      * replace (stays tray g) with false by (unfold stays; rewrite Hc, Hy; reflexivity).
        replace (missed tray g) with true by (unfold missed; rewrite Hc, Hy; reflexivity).
        rewrite IH. cbn [length].
        set (m := Z.of_nat (length (List.filter (missed tray) rest))).
        assert (Hm : (0 <= m)%Z) by apply Nat2Z.is_nonneg.
        rewrite Nat2Z.inj_succ. fold m.
        rewrite !pair_equal_spec. repeat split; try lia.
        destruct over, (lv - 1 <=? 0)%Z eqn:E1, (0 <? m)%Z eqn:E2,
                 (lv - 1 - m <=? 0)%Z eqn:E3, (0 <? Z.succ m)%Z eqn:E4,
                 (lv - Z.succ m <=? 0)%Z eqn:E5; try reflexivity; exfalso;
          rewrite ?Z.leb_le, ?Z.leb_gt, ?Z.ltb_lt, ?Z.ltb_ge in *; lia.
      * replace (stays tray g) with true by (unfold stays; rewrite Hc, Hy; reflexivity).
        replace (missed tray g) with false by (unfold missed; rewrite Hc, Hy; reflexivity).
        rewrite IH. rewrite <- app_assoc. reflexivity.
Qed.

Lemma gifts_partition (tray : Q) (l : list GameObject) :
  (length (List.filter (stays tray) l) + length (List.filter (caught tray) l) +
   length (List.filter (missed tray) l) = length l)%nat.
Proof.
  induction l as [|g l IH]; [reflexivity|]. cbn [List.filter length].
  unfold stays at 1, missed at 1.
  destruct (caught tray g), (Qle_bool GAME_HEIGHT (y g)); cbn [negb andb length]; lia.
Qed.

Lemma mainLoop_playing (rendered cur : GameState) :
  isGameOver rendered = false ->
  let tray := playerX rendered in
  let moved := List.map fall (gifts cur) in
  let m := Z.of_nat (length (List.filter (missed tray) moved)) in
  mainLoop rendered cur =
  {| playerX := moveTray (keys rendered) (playerX cur);
     gifts := List.filter (stays tray) moved;
     score := (score cur + 10 * Z.of_nat (length (List.filter (caught tray) moved)))%Z;
     lives := (lives cur - m)%Z;
     isGameOver := isGameOver cur || (0 <? m)%Z && (lives cur - m <=? 0)%Z;
     keys := keys cur |}.
Proof.
  intros Hg tray moved m. unfold mainLoop. rewrite Hg. cbv zeta.
  change (List.map (fun g => {| id := id g; x := x g; y := y g + GIFT_SPEED |}) (gifts cur))
    with moved.
  fold tray. rewrite sortGifts_filter. reflexivity.
Qed.

(** X7.  Every gift is accounted for.  A tick of a running game moves each
    gift down by 4 and sorts it into exactly one of three lots: caught on the
    tray (10 points each), missed past the bottom edge (one life each), or
    still falling (kept, in their order).  The game is over after the tick
    exactly when it was over before or a gift was missed and no life is
    left. *)
Theorem X7_skygift_every_gift_accounted (rendered cur : GameState) :
  isGameOver rendered = false ->
  let tray := playerX rendered in
  let moved := List.map fall (gifts cur) in
  let nCaught := length (List.filter (caught tray) moved) in
  let nMissed := length (List.filter (missed tray) moved) in
  let s' := mainLoop rendered cur in
  gifts s' = List.filter (stays tray) moved /\
  score s' = (score cur + 10 * Z.of_nat nCaught)%Z /\
  lives s' = (lives cur - Z.of_nat nMissed)%Z /\
  (length (gifts s') + nCaught + nMissed = length (gifts cur))%nat /\
  (isGameOver s' = true <->
   isGameOver cur = true \/ ((0 < nMissed)%nat /\ (lives s' <= 0)%Z)).
Proof.
  intros Hg tray moved nCaught nMissed s'.
  unfold s'. rewrite (mainLoop_playing _ _ Hg). cbv zeta. cbn [gifts score lives isGameOver].
  fold tray moved nCaught nMissed.
  split; [reflexivity|]. split; [reflexivity|]. split; [reflexivity|]. split.
  - unfold nCaught, nMissed. rewrite gifts_partition. unfold moved. apply length_map.
  - rewrite orb_true_iff, andb_true_iff, Z.ltb_lt, Z.leb_le.
    split; (intros [H | [H1 H2]]; [left; exact H | right; split; [lia | exact H2]]).
Qed.

Lemma X7_skygift_every_gift_accounted_witness :
  let s' := mainLoop threeGifts threeGifts in
  length (gifts s') = 1%nat /\ score s' = 30%Z /\ lives s' = 0%Z /\ isGameOver s' = true.
Proof.
  intros s'.
  destruct (X7_skygift_every_gift_accounted threeGifts threeGifts eq_refl)
    as (Hk & Hs & Hl & _ & Ho).
  split; [unfold s'; rewrite Hk; reflexivity|].
  split; [exact Hs|]. split; [exact Hl|].
  apply Ho. right. split; [vm_compute; lia | discriminate].
Defined.

Definition inSession (s : GameState) : Prop :=
  0 <= playerX s /\ playerX s <= GAME_WIDTH - PLAYER_WIDTH /\
  (lives s <= 3)%Z /\ (0 <= score s)%Z /\ (score s mod 10 = 0)%Z /\
  (isGameOver s = true <-> (lives s <= 0)%Z) /\
  Forall (fun g => y g < GAME_HEIGHT) (gifts s).

Lemma moveTray_bounds (ks : gmap string bool) (prevX : Q) :
  0 <= prevX -> prevX <= GAME_WIDTH - PLAYER_WIDTH ->
  0 <= moveTray ks prevX /\ moveTray ks prevX <= GAME_WIDTH - PLAYER_WIDTH.
Proof.
  intros H0 H1. unfold moveTray.
  unfold PLAYER_SPEED, GAME_WIDTH, PLAYER_WIDTH in *.
  destruct (held ks "ArrowLeft"); [|destruct (held ks "ArrowRight")].
  - destruct (Math_max_spec 0 (prevX - 10)) as [[H ->] | [H ->]]; lra.
  - destruct (Math_min_spec (400 - 60) (prevX + 10)) as [[H ->] | [H ->]]; lra.
  - split; assumption.
Qed.

Lemma reachable_inSession (s : GameState) : reachable s -> inSession s.
Proof.
  intros H. induction H as [|s Hs IH|key s Hs IH|key s Hs IH|rendered s Hr IHr Hs IH|
                            rendered now r s Hr IHr Hs IH].
  - unfold inSession. cbn. repeat split; try lia; try discriminate;
      try (unfold GAME_WIDTH, PLAYER_WIDTH; lra). constructor.
  - unfold inSession. cbn. repeat split; try lia; try discriminate;
      try (unfold GAME_WIDTH, PLAYER_WIDTH; lra). constructor.
  - exact IH.
  - exact IH.
  - destruct (isGameOver rendered) eqn:Hg.
    { unfold mainLoop. rewrite Hg. exact IH. }
    rewrite (mainLoop_playing _ _ Hg). cbv zeta.
    destruct IH as (H0 & H1 & Hl & Hsc & Hmod & Hover & Hy).
    set (m := Z.of_nat (length (List.filter (missed (playerX rendered))
                                  (List.map fall (gifts s))))).
    set (c := Z.of_nat (length (List.filter (caught (playerX rendered))
                                  (List.map fall (gifts s))))).
    assert (Hm : (0 <= m)%Z) by apply Nat2Z.is_nonneg.
    assert (Hc : (0 <= c)%Z) by apply Nat2Z.is_nonneg.
    unfold inSession. cbn [playerX lives score isGameOver gifts].
    destruct (moveTray_bounds (keys rendered) _ H0 H1) as [Ha Hb].
    split; [exact Ha|]. split; [exact Hb|]. split; [lia|]. split; [lia|].
    split; [|split].
    + rewrite (Z.mul_comm 10 c), Z_mod_plus_full. exact Hmod.
    + rewrite orb_true_iff, andb_true_iff, Z.ltb_lt, Z.leb_le, Hover. lia.
    + apply List.Forall_forall. intros g Hin. apply filter_In in Hin.
      destruct Hin as [_ Hst]. unfold stays in Hst. apply andb_true_iff in Hst.
      destruct Hst as [_ Hst]. apply negb_true_iff in Hst.
      apply Qle_bool_false_iff in Hst. exact Hst.
  - unfold spawnGift. destruct (isGameOver rendered); [exact IH|].
    destruct IH as (H0 & H1 & Hl & Hsc & Hmod & Hover & Hy).
    unfold inSession. cbn [playerX lives score isGameOver gifts].
    repeat split; try assumption; try (apply Hover; assumption).
    apply Forall_app. split; [exact Hy|]. constructor; [|constructor].
    cbn [y]. unfold GIFT_SIZE, GAME_HEIGHT. lra.
Qed.

(** X8.  A sky-gift session.  In every state a player can bring about the
    tray is inside the field (between 0 and 340), at most 3 lives are left,
    the score is a non-negative multiple of 10, the game is over exactly
    when no life is left, and every gift in the air is above the bottom
    edge. *)
Theorem X8_skygift_session_invariants (s : GameState) :
  reachable s ->
  0 <= playerX s /\ playerX s <= GAME_WIDTH - PLAYER_WIDTH /\
  (lives s <= 3)%Z /\ (0 <= score s)%Z /\ (score s mod 10 = 0)%Z /\
  (isGameOver s = true <-> (lives s <= 0)%Z) /\
  Forall (fun g => y g < GAME_HEIGHT) (gifts s).
Proof.
  intros H. exact (reachable_inSession s H).
Qed.

Lemma X8_skygift_session_invariants_witness :
  let s := mainLoop (handleKeyPress "ArrowLeft" initialState)
                    (spawnGift initialState 7 0.5 initialState) in
  0 <= playerX s /\ playerX s <= GAME_WIDTH - PLAYER_WIDTH /\
  (lives s <= 3)%Z /\ (0 <= score s)%Z /\ (score s mod 10 = 0)%Z /\
  (isGameOver s = true <-> (lives s <= 0)%Z) /\
  Forall (fun g => y g < GAME_HEIGHT) (gifts s).
Proof.
  intros s. apply X8_skygift_session_invariants.
  apply reach_tick.
  - apply reach_press. apply reach_initial.
  - apply reach_spawn; apply reach_initial.
Defined.

End SkyGiftMore.

(** ** Danger: the obstacles *)

Section DangerMore.
Import Danger.

(** X9.  A spawned obstacle starts off the field and enters it.  With
    draws between 0 and 1, the spawner of a running game appends one
    obstacle; it touches no player that is inside the field, and its first
    move takes it inside the band that the main loop keeps, so that the next
    tick does not drop it. *)
Theorem X9_danger_spawn_enters_field (rendered cur : GameState) (now r1 r2 r3 r4 : Q) :
  isGameOver rendered = false ->
  0 <= r1 -> r1 < 1 -> 0 <= r2 -> r2 < 1 -> 0 <= r3 -> r3 < 1 -> 0 <= r4 -> r4 < 1 ->
  exists o,
    obstacles (spawnObstacle rendered now r1 r2 r3 r4 cur) = obstacles cur ++ [o] /\
    (forall p, 0 <= x p -> x p <= GAME_WIDTH - PLAYER_SIZE ->
               0 <= y p -> y p <= GAME_HEIGHT - PLAYER_SIZE -> collides p o = false) /\
    onField (moveObstacle o) = true.
Proof.
  intros Hg H1 H1' H2 H2' H3 H3' H4 H4'.
  unfold spawnObstacle. rewrite Hg. cbv zeta. eexists. split; [reflexivity|].
  assert (Hon : forall o, onField o = true <->
            - OBSTACLE_SIZE < ox o /\ ox o < GAME_WIDTH + OBSTACLE_SIZE /\
            - OBSTACLE_SIZE < oy o /\ oy o < GAME_HEIGHT + OBSTACLE_SIZE).
  { intros o. unfold onField. rewrite !andb_true_iff, !Qlt_bool_iff. tauto. }
  assert (Hcol : forall p o, collides p o = true <->
            x p < ox o + OBSTACLE_SIZE /\ ox o < x p + PLAYER_SIZE /\
            y p < oy o + OBSTACLE_SIZE /\ oy o < y p + PLAYER_SIZE).
  { intros p o. unfold collides. rewrite !andb_true_iff, !Qlt_bool_iff. tauto. }
  unfold GAME_WIDTH, GAME_HEIGHT, OBSTACLE_SIZE, PLAYER_SIZE in *.
  destruct (Math_floor (r1 * 4) =? 0)%Z;
    [|destruct (Math_floor (r1 * 4) =? 1)%Z; [|destruct (Math_floor (r1 * 4) =? 2)%Z]];
    (split;
     [intros p Hx0 Hx1 Hy0 Hy1; apply not_true_is_false; intros Hc; apply Hcol in Hc;
      cbn [ox oy] in Hc; lra
     | apply Hon; cbn; lra]).
Qed.

Lemma X9_danger_spawn_enters_field_witness :
  exists o,
    obstacles (spawnObstacle initialState 7 0.3 0.5 0.5 0.5 initialState) = [o] /\
    collides initialPlayer o = false /\
    onField (moveObstacle o) = true.
Proof.
  assert (Ha : 0 <= 0.3) by (apply Qle_bool_iff; reflexivity).
  assert (Hb : 0 <= 0.5) by (apply Qle_bool_iff; reflexivity).
  destruct (X9_danger_spawn_enters_field initialState initialState 7 0.3 0.5 0.5 0.5
              eq_refl Ha eq_refl Hb eq_refl Hb eq_refl Hb eq_refl) as (o & Ho & Hc & Hf).
  exists o. split; [exact Ho|]. split; [|exact Hf].
  apply Hc; apply Qle_bool_iff; reflexivity.
Defined.

(** X10.  The main loop writes the obstacles it computed from its render.
    In a running game the obstacles after a tick are the rendered ones,
    moved, that lie inside the band around the field; so an obstacle that
    the spawner appended after that render is dropped by the tick, while one
    appended after the tick is kept.  The tick ends the game exactly when
    one of the obstacles it keeps overlaps the rendered player. *)
Theorem X10_danger_tick_overwrites_unrendered_spawn
    (rendered cur : GameState) (now r1 r2 r3 r4 : Q) :
  isGameOver rendered = false ->
  let spawned := spawnObstacle rendered now r1 r2 r3 r4 in
  Forall (fun o => onField o = true) (obstacles (mainLoop rendered cur)) /\
  obstacles (mainLoop rendered (spawned cur)) = obstacles (mainLoop rendered cur) /\
  length (obstacles (spawned (mainLoop rendered cur))) =
    S (length (obstacles (mainLoop rendered cur))) /\
  (isGameOver (mainLoop rendered cur) = true <->
   isGameOver cur = true \/
   exists o, In o (obstacles (mainLoop rendered cur)) /\ collides (player rendered) o = true).
Proof.
  intros Hg spawned. unfold spawned, spawnObstacle, mainLoop. rewrite Hg. cbv zeta.
  cbn [obstacles isGameOver]. split; [|split; [|split]].
  - apply List.Forall_forall. intros o Ho. apply filter_In in Ho. tauto.
  - reflexivity.
  - rewrite length_app. cbn [length]. lia.
  - destruct (existsb _ _) eqn:E.
    + split; [|reflexivity]. intros _. right. apply existsb_exists in E. exact E.
    + split; [intros H; left; exact H|]. intros [H | H]; [exact H|].
      apply existsb_exists in H. congruence.
Qed.

Lemma X10_danger_tick_overwrites_unrendered_spawn_witness :
  let rendered := handleKeyPress "ArrowLeft" initialState in
  obstacles (mainLoop rendered (spawnObstacle rendered 7 0.3 0.5 0.5 0.5 initialState)) = [] /\
  length (obstacles (spawnObstacle rendered 7 0.3 0.5 0.5 0.5 (mainLoop rendered initialState)))
    = 1%nat.
Proof.
  intros rendered.
  destruct (X10_danger_tick_overwrites_unrendered_spawn rendered initialState
              7 0.3 0.5 0.5 0.5 eq_refl) as (_ & Hdrop & Hkeep & _).
  split; [rewrite Hdrop; reflexivity | rewrite Hkeep; reflexivity].
Defined.

End DangerMore.

(** ** Keep-up: the box, the gravity, the bounce and the restart *)

Section KeepUpMore.
Import KeepUp.

Definition boxed (s : GameState) : Prop :=
  BALLOON_RADIUS <= x (balloon s) /\ x (balloon s) <= GAME_WIDTH - BALLOON_RADIUS /\
  BALLOON_RADIUS <= y (balloon s) /\
  (isGameOver s = false -> y (balloon s) <= GAME_HEIGHT) /\
  0 <= paddleX s /\ paddleX s <= GAME_WIDTH - PADDLE_WIDTH /\
  (0 <= flashTimer s <= 15)%Z.

Lemma afterWalls_box (g : Q) (b : Balloon) :
  let w := wallCollisions (applyPhysics g b) in
  BALLOON_RADIUS <= x w /\ x w <= GAME_WIDTH - BALLOON_RADIUS /\ BALLOON_RADIUS <= y w.
Proof.
  cbv zeta. set (m := applyPhysics g b). unfold wallCollisions.
  rewrite ceiling_x. split; [|split].
  - unfold sideWalls. destruct (crossesSideWall m) eqn:E; cbn [x].
    + apply Math_max_lower.
    + unfold crossesSideWall in E. apply orb_false_iff in E. destruct E as [E _].
      apply Qlt_bool_false_iff in E. exact E.
  - unfold sideWalls. destruct (crossesSideWall m) eqn:E; cbn [x].
    + unfold GAME_WIDTH, BALLOON_RADIUS.
      destruct (Math_min_spec (x m) (400 - 25)) as [[H1 ->] | [H1 ->]];
        destruct (Math_max_spec 25 (x m)) as [[H2 H2'] | [H2 H2']];
        destruct (Math_max_spec 25 (400 - 25)) as [[H3 H3'] | [H3 H3']];
        rewrite ?H2', ?H3'; lra.
    + unfold crossesSideWall in E. apply orb_false_iff in E. destruct E as [_ E].
      apply Qlt_bool_false_iff in E. exact E.
  - unfold ceiling. destruct (crossesCeiling (sideWalls m)) eqn:E; cbn [y].
    + apply Qle_refl.
    + unfold crossesCeiling in E. apply Qlt_bool_false_iff in E. exact E.
Qed.

Lemma step_boxed (a : Action) (s : GameState) : boxed s -> boxed (fst (step a s)).
Proof.
  intros Hs. destruct (isGameOver s) eqn:Hg.
  { rewrite (step_terminal _ _ Hg). exact Hs. }
  destruct Hs as (Hx0 & Hx1 & Hy0 & Hy1 & Hp0 & Hp1 & Hf).
  destruct a as [r | rl sc cx]; cbn [step fst].
  - rewrite (playing_gameLoop _ _ Hg). cbv zeta.
    destruct (afterWalls_box (gravity s) (balloon s)) as (Hbx0 & Hbx1 & Hby).
    cbv zeta in Hbx0, Hbx1, Hby.
    assert (Hflash : (0 <= (if (0 <? flashTimer s)%Z then flashTimer s - 1
                             else flashTimer s) <= 15)%Z).
    { destruct (0 <? flashTimer s)%Z eqn:E; [apply Z.ltb_lt in E|]; lia. }
    destruct (hitPaddle _ _).
    + unfold boxed. cbn [fst balloon x y isGameOver paddleX flashTimer].
      repeat split; try assumption;
        try (unfold PADDLE_Y_POS, GAME_HEIGHT, BALLOON_RADIUS; lra);
        destruct (isThreshold _); lia.
    + destruct (Qlt_bool GAME_HEIGHT _) eqn:E.
      * unfold boxed. cbn [fst balloon isGameOver paddleX flashTimer].
        repeat split; try assumption; try discriminate; lia.
      * apply Qlt_bool_false_iff in E.
        unfold boxed. cbn [fst balloon isGameOver paddleX flashTimer].
        repeat split; try assumption; try (intros _; exact E); lia.
  - unfold handlePointerMove. rewrite Hg. cbv zeta.
    unfold boxed. cbn [balloon isGameOver paddleX flashTimer].
    split; [exact Hx0|]. split; [exact Hx1|]. split; [exact Hy0|].
    split; [intros _; exact (Hy1 Hg)|].
    split; [apply Math_max_lower|]. split; [|exact Hf].
    unfold GAME_WIDTH, PADDLE_WIDTH in *.
    set (v := (cx - rl) / sc - 100 / 2).
    destruct (Math_min_spec v (400 - 100)) as [[H1 ->] | [H1 ->]];
      destruct (Math_max_spec 0 v) as [[H2 H2'] | [H2 H2']];
      destruct (Math_max_spec 0 (400 - 100)) as [[H3 H3'] | [H3 H3']];
      rewrite ?H2', ?H3'; lra.
Qed.

Lemma final_invariant (P : GameState -> Prop) :
  (forall a s, P s -> P (fst (step a s))) ->
  forall l s, P s -> P (final l s).
Proof.
  intros Hstep l. induction l as [|a l IH]; intros s Hs; [exact Hs|].
  rewrite final_cons. apply IH. apply Hstep. exact Hs.
Qed.

(** X11.  The balloon stays in its box and the paddle on the field.  In a
    session that starts from the initial state (whatever the first draw)
    and goes through ticks and pointer moves with a non-zero scale, the
    centre of the balloon is always between 25 and 375 across and at least
    25 down, and at most 400 down while the game runs; the left edge of the
    paddle is between 0 and 300; and the flash timer is between 0 and 15. *)
Theorem X11_keepup_balloon_and_paddle_stay_inside (r0 : Q) (l : list Action) :
  Forall wellScaled l ->
  let s := final l (createInitialState r0) in
  BALLOON_RADIUS <= x (balloon s) /\ x (balloon s) <= GAME_WIDTH - BALLOON_RADIUS /\
  BALLOON_RADIUS <= y (balloon s) /\
  (isGameOver s = false -> y (balloon s) <= GAME_HEIGHT) /\
  0 <= paddleX s /\ paddleX s <= GAME_WIDTH - PADDLE_WIDTH /\
  (0 <= flashTimer s <= 15)%Z.
Proof.
  intros _ s. unfold s. apply (final_invariant boxed); [apply step_boxed|].
  unfold boxed, createInitialState. cbn [balloon x y isGameOver paddleX flashTimer].
  split; [apply Qle_bool_iff; reflexivity|]. split; [apply Qle_bool_iff; reflexivity|].
  split; [apply Qle_bool_iff; reflexivity|].
  split; [intros _; apply Qle_bool_iff; reflexivity|].
  split; [apply Qle_bool_iff; reflexivity|]. split; [apply Qle_bool_iff; reflexivity | lia].
Qed.

Lemma X11_keepup_balloon_and_paddle_stay_inside_witness :
  let s := final [Tick 0.5; PointerMove 0 1 1000; Tick 0.5] (createInitialState 0.9) in
  BALLOON_RADIUS <= x (balloon s) /\ x (balloon s) <= GAME_WIDTH - BALLOON_RADIUS /\
  BALLOON_RADIUS <= y (balloon s) /\
  (isGameOver s = false -> y (balloon s) <= GAME_HEIGHT) /\
  0 <= paddleX s /\ paddleX s <= GAME_WIDTH - PADDLE_WIDTH /\
  (0 <= flashTimer s <= 15)%Z.
Proof.
  apply (X11_keepup_balloon_and_paddle_stay_inside 0.9
           [Tick 0.5; PointerMove 0 1 1000; Tick 0.5]).
  repeat constructor. cbn. discriminate.
Defined.

Definition tiered (s : GameState) : Prop :=
  GRAVITY_START <= gravity s /\ gravity s <= 0.4 /\
  ((YELLOW_MODE_SCORE <= score s)%Z -> 0.2 <= gravity s) /\
  ((BLUE_MODE_SCORE <= score s)%Z -> 0.25 <= gravity s) /\
  ((BLACK_MODE_SCORE <= score s)%Z -> 0.3 <= gravity s).

Lemma tierGravity_bounds (newScore : Z) (g : Q) :
  g <= 0.4 ->
  g <= tierGravity newScore g /\ tierGravity newScore g <= 0.4 /\
  ((YELLOW_MODE_SCORE <= newScore)%Z -> 0.2 <= tierGravity newScore g) /\
  ((BLUE_MODE_SCORE <= newScore)%Z -> 0.25 <= tierGravity newScore g) /\
  ((BLACK_MODE_SCORE <= newScore)%Z -> 0.3 <= tierGravity newScore g).
Proof.
  intros Hg. unfold tierGravity. cbv zeta.
  unfold YELLOW_MODE_SCORE, BLUE_MODE_SCORE, BLACK_MODE_SCORE.
  destruct (Math_min_spec 0.4 (g + 0.002)) as [[Hm ->] | [Hm ->]];
    (destruct (60 <=? newScore)%Z eqn:E3;
     [apply Z.leb_le in E3
     |apply Z.leb_gt in E3; destruct (40 <=? newScore)%Z eqn:E2;
      [apply Z.leb_le in E2
      |apply Z.leb_gt in E2; destruct (20 <=? newScore)%Z eqn:E1;
       [apply Z.leb_le in E1 | apply Z.leb_gt in E1]]]);
    try match goal with
        | |- context [Math_max ?a ?b] =>
            destruct (Math_max_spec a b) as [[Hx ->] | [Hx ->]]
        end;
    (split; [lra|]; split; [lra|]; split; [intros ?; first [lra | lia]|];
     split; intros ?; first [lra | lia]).
Qed.

Lemma step_gravity (a : Action) (s : GameState) :
  (score (fst (step a s)) = score s /\ gravity (fst (step a s)) = gravity s) \/
  (score (fst (step a s)) = (score s + 1)%Z /\
   gravity (fst (step a s)) = tierGravity (score s + 1) (gravity s)).
Proof.
  destruct (isGameOver s) eqn:Hg.
  { rewrite (step_terminal _ _ Hg). left. split; reflexivity. }
  destruct a as [r | rl sc cx]; cbn [step fst].
  - rewrite (playing_gameLoop _ _ Hg). cbv zeta.
    destruct (hitPaddle _ _); [right; split; reflexivity|].
    destruct (Qlt_bool GAME_HEIGHT _); left; split; reflexivity.
  - unfold handlePointerMove. rewrite Hg. left. split; reflexivity.
Qed.

Lemma step_tiered (a : Action) (s : GameState) : tiered s -> tiered (fst (step a s)).
Proof.
  intros (H0 & H1 & Hy & Hb & Hk).
  destruct (step_gravity a s) as [[Hscore Hgr] | [Hscore Hgr]].
  - unfold tiered. rewrite Hgr, Hscore. repeat split; assumption.
  - destruct (tierGravity_bounds (score s + 1) (gravity s) H1) as (Ha & Hb' & Hc & Hd & He).
    unfold tiered. rewrite Hgr, Hscore.
    split; [lra|]. split; [exact Hb'|]. split; [exact Hc|]. split; [exact Hd | exact He].
Qed.

(** X12.  The gravity only grows, in steps, up to 0.4.  In every state of a
    session the gravity is between 0.1 and 0.4, it is at least 0.2 from
    score 20 on, 0.25 from 40 on and 0.3 from 60 on, and no tick or pointer
    move lowers it. *)
Theorem X12_keepup_gravity_grows_within_bounds (r0 : Q) (l : list Action) (a : Action) :
  let s := final l (createInitialState r0) in
  GRAVITY_START <= gravity s /\ gravity s <= 0.4 /\
  ((YELLOW_MODE_SCORE <= score s)%Z -> 0.2 <= gravity s) /\
  ((BLUE_MODE_SCORE <= score s)%Z -> 0.25 <= gravity s) /\
  ((BLACK_MODE_SCORE <= score s)%Z -> 0.3 <= gravity s) /\
  gravity s <= gravity (fst (step a s)).
Proof.
  intros s.
  assert (Hs : tiered s).
  { unfold s. apply (final_invariant tiered); [apply step_tiered|].
    unfold tiered, createInitialState, YELLOW_MODE_SCORE, BLUE_MODE_SCORE, BLACK_MODE_SCORE.
    cbn [gravity score]. unfold GRAVITY_START.
    split; [lra|]. split; [lra|]. repeat split; intros ?; lia. }
  destruct Hs as (H0 & H1 & Hy & Hb & Hk).
  split; [exact H0|]. split; [exact H1|]. split; [exact Hy|]. split; [exact Hb|].
  split; [exact Hk|].
  destruct (step_gravity a s) as [[_ ->] | [_ ->]]; [apply Qle_refl|].
  apply (tierGravity_bounds _ _ H1).
Qed.

Lemma X12_keepup_gravity_grows_within_bounds_witness :
  let s := final [Tick 0.5; PointerMove 0 1 120] (createInitialState 0.5) in
  GRAVITY_START <= gravity s /\ gravity s <= 0.4 /\
  gravity s <= gravity (fst (step (Tick 0.5) s)).
Proof.
  intros s.
  destruct (X12_keepup_gravity_grows_within_bounds 0.5 [Tick 0.5; PointerMove 0 1 120]
              (Tick 0.5)) as (H0 & H1 & _ & _ & _ & Hm).
  split; [exact H0|]. split; [exact H1 | exact Hm].
Defined.





(** X14.  Restarting re-arms the award.  Whatever the component was, the
    render that follows [restartGame] leaves the store as it is, shows the
    initial state with the award flag down, and records the dependencies of
    that state: the component is again in the condition in which the end of
    a session adds its score to the coins. *)
Theorem X14_keepup_restart_rearms_award (r : Q) (c : Component) (ls : gmap string Z) :
  let w := commit (restartGame r c) ls in
  running ls w /\
  gameState (fst w) = createInitialState r /\
  coinsAwardedRef (fst w) = false /\
  snd w = ls.
Proof.
  intros w. unfold w, running.
  rewrite commit_gameState.
  change (gameState (restartGame r c)) with (createInitialState r).
  assert (Hrest : coinsAwardedRef (fst (commit (restartGame r c) ls)) = false /\
                  snd (commit (restartGame r c) ls) = ls).
  { unfold commit. destruct (depsChanged _ _); [|split; reflexivity].
    rewrite awardEffect_playing by reflexivity. split; reflexivity. }
  split; [|split; [reflexivity | exact Hrest]].
  split; [|split; [cbn; lia | intros _; exact Hrest]].
  apply (commit_deps_after (restartGame r c) ls). apply depsChanged_or_same.
Qed.

End KeepUpMore.

(** ** Shooter: the shield, the shop and the field *)

Section ShooterMore.
Import Shooter.
Variable M : MathLib.

Lemma hitEnemies_score (now : Q) (g : GameObject) (es : list Enemy) :
  forall (hit : bool) (t : Tally) (rnd : nat -> Q) (i : nat),
  (t_score t <= t_score (snd (fst (hitEnemies M now g es hit t rnd i))))%Z.
Proof.
  induction es as [|e rest IH]; intros hit t rnd i; [cbn; lia|].
  cbn [hitEnemies]. destruct (hp e <=? 0)%Z.
  - unfold bind, ret. specialize (IH hit t rnd i).
    destruct (hitEnemies M now g rest hit t rnd i) as [[[rest' hit'] t'] j]. exact IH.
  - cbv zeta. destruct (Qlt_bool _ _).
    + unfold bind, random, ret.
      match goal with
      | |- context [let '(_, _) := ?c in _] => destruct c as [t1 j1] eqn:Et1
      end.
      assert (Ht1 : (t_score t <= t_score t1)%Z).
      { revert Et1. destruct (_ <=? 0)%Z; intros [= <- _]; cbn [t_score];
          [destruct (type e)|]; lia. }
      specialize (IH true t1 rnd j1).
      destruct (hitEnemies M now g rest true t1 rnd j1) as [[[rest' hit'] t'] j'].
      cbn [fst snd] in *. lia.
    + unfold bind, ret. specialize (IH hit t rnd i).
      destruct (hitEnemies M now g rest hit t rnd i) as [[[rest' hit'] t'] j]. exact IH.
Qed.

Lemma projectilesVsEnemies_result (P : GameObject -> Prop) (now : Q) (ps : list GameObject) :
  forall (es : list Enemy) (remaining : list GameObject) (t : Tally) (rnd : nat -> Q)
         (i : nat),
  let r := fst (projectilesVsEnemies M now ps es remaining t rnd i) in
  (t_score t <= t_score (snd r))%Z /\
  (Forall P ps -> Forall P remaining -> Forall P (snd (fst r))).
Proof.
  induction ps as [|g rest IH]; intros es remaining t rnd i; cbv zeta.
  - cbn. split; [lia | auto].
  - cbn [projectilesVsEnemies]. unfold bind.
    pose proof (hitEnemies_score now g es false t rnd i) as Hs.
    destruct (hitEnemies M now g es false t rnd i) as [[[es' hit] t'] j].
    cbn [fst snd] in Hs.
    destruct (IH es' (if hit then remaining else remaining ++ [g]) t' rnd j) as [H1 H2].
    split; [lia|]. intros Hps Hrem. apply Forall_cons_iff in Hps. destruct Hps as [Hg Hrest].
    apply H2; [exact Hrest|]. destruct hit; [exact Hrem|].
    apply Forall_app. split; [exact Hrem | constructor; [exact Hg | constructor]].
Qed.

Lemma enemiesVsShield_result (P : Enemy -> Prop) (now : Q) (p : Player) (es : list Enemy) :
  forall (finalEnemies : list Enemy) (newShieldHp : Z) (exs : list Explosion)
         (rnd : nat -> Q) (i : nat),
  let r := fst (enemiesVsShield M now p es finalEnemies newShieldHp exs rnd i) in
  (snd (fst r) <= newShieldHp)%Z /\
  (Forall P es -> Forall P finalEnemies -> Forall P (fst (fst r))).
Proof.
  induction es as [|e rest IH]; intros finalEnemies newShieldHp exs rnd i; cbv zeta.
  - cbn. split; [lia | auto].
  - cbn [enemiesVsShield]. cbv zeta. destruct (Qlt_bool _ _).
    + unfold bind at 1. unfold random at 1.
      match goal with
      | |- context [enemiesVsShield M now p rest finalEnemies ?h ?x rnd ?j] =>
          destruct (IH finalEnemies h x rnd j) as [H1 H2]
      end.
      split; [lia|]. intros Hes Hfin. apply Forall_cons_iff in Hes. apply H2; tauto.
    + destruct (IH (finalEnemies ++ [e]) newShieldHp exs rnd i) as [H1 H2].
      split; [exact H1|]. intros Hes Hfin. apply Forall_cons_iff in Hes.
      destruct Hes as [He Hrest]. apply H2; [exact Hrest|].
      apply Forall_app. split; [exact Hfin | constructor; [exact He | constructor]].
Qed.

Lemma Forall_filter_true {A : Type} (f : A -> bool) (l : list A) :
  Forall (fun a => f a = true) (List.filter f l).
Proof.
  apply List.Forall_forall. intros a Ha. apply filter_In in Ha. tauto.
Qed.

Lemma untilShieldCheck_frame (w : Weapon) (now : Q) (rnd : nat -> Q) (i : nat)
    (s : GameState) :
  let f := fst (untilShieldCheck M w now s rnd i) in
  f_powerUps f = {| fireRate := Z.max 0 (fireRate (powerUps s) - 1);
                    hpBoost := Z.max 0 (hpBoost (powerUps s) - 1) |} /\
  f_gameTime f = (gameTime s + 1)%Z /\
  (f_shieldHp f <=
     if (0 <? hpBoost (powerUps s))%Z && (hpBoost (powerUps s) - 1 <=? 0)%Z
     then Z.min (shieldHp s) BASE_SHIELD_MAX_HP else shieldHp s)%Z /\
  (score s <= f_score f)%Z /\
  Forall (fun g => projectileOnField g = true) (f_projectiles f) /\
  Forall (fun e => (0 <? hp e)%Z = true) (f_enemies f).
Proof.
  cbv zeta. unfold untilShieldCheck. cbv zeta.
  unfold bind. destruct (shooting _ _ _ _ _ _ _ _ rnd i) as [[fired cd] j1].
  destruct (spawnEnemies _ _ _ _ _ rnd j1) as [e2 j2].
  match goal with
  | |- context [projectilesVsEnemies M now ?ps e2 [] ?t rnd j2] =>
      destruct (projectilesVsEnemies_result (fun g => projectileOnField g = true)
                  now ps e2 [] t rnd j2) as [Hsc Hps];
      destruct (projectilesVsEnemies M now ps e2 [] t rnd j2) as [[[e3 rem] tally] j3]
  end.
  match goal with
  | |- context [enemiesVsShield M now ?p ?es [] ?h ?x rnd j3] =>
      destruct (enemiesVsShield_result (fun e => (0 <? hp e)%Z = true)
                  now p es [] h x rnd j3) as [Hhp Hes];
      destruct (enemiesVsShield M now p es [] h x rnd j3) as [[[fe hp'] exs] j4]
  end.
  cbn [fst snd t_score] in *. unfold ret. cbn [fst f_powerUps f_gameTime f_shieldHp f_score
                                               f_projectiles f_enemies].
  split; [reflexivity|]. split; [reflexivity|]. split; [exact Hhp|]. split; [exact Hsc|].
  split.
  - apply Hps; [apply Forall_filter_true | constructor].
  - apply Hes; [apply (Forall_filter_true (fun e => (0 <? hp e)%Z)) | constructor].
Qed.

Definition shielded (s : GameState) : Prop :=
  (shieldHp s <= 200)%Z /\
  ((hpBoost (powerUps s) <= 0)%Z -> (shieldHp s <= BASE_SHIELD_MAX_HP)%Z) /\
  (0 <= score s)%Z /\
  (0 <= fireRate (powerUps s) <= POWERUP_DURATION)%Z /\
  (0 <= hpBoost (powerUps s) <= POWERUP_DURATION)%Z.

Lemma tick_fields (w : Weapon) (now : Q) (rnd : nat -> Q) (i : nat) (s : GameState) :
  isGameOver s = false -> isShopOpen s = false ->
  let f := fst (untilShieldCheck M w now s rnd i) in
  let s' := tick M w now rnd i s in
  powerUps s' = f_powerUps f /\ projectiles s' = f_projectiles f /\
  enemies s' = f_enemies f /\ gameTime s' = f_gameTime f /\
  Forall (fun ex => Qlt_bool 0 (duration ex) = true) (explosions s').
Proof.
  intros Hg Hs. cbv zeta. unfold tick, gameLoop. rewrite Hg, Hs. cbn [orb].
  unfold bind, ret. destruct (untilShieldCheck M w now s rnd i) as [f j].
  cbn [fst]. destruct (f_shieldHp f <=? 0)%Z.
  - destruct (finalBurst M now (f_player f) 20 0 (f_explosions f) rnd j) as [exs j'].
    cbn. repeat split; try reflexivity.
    apply (Forall_filter_true (fun ex => Qlt_bool 0 (duration ex))).
  - cbn. repeat split; try reflexivity.
    apply (Forall_filter_true (fun ex => Qlt_bool 0 (duration ex))).
Qed.

Lemma reachable_shielded (s : GameState) : reachable M s -> shielded s.
Proof.
  intros Hs. induction Hs as [|w now rnd i s Hs IH|s Hs IH|s Hs IH|inp s Hs IH].
  - unfold shielded. cbn. unfold BASE_SHIELD_MAX_HP, POWERUP_DURATION. lia.
  - destruct (isGameOver s || isShopOpen s) eqn:E.
    + rewrite tick_paused by exact E. exact IH.
    + apply orb_false_iff in E. destruct E as [Hg Hshop].
      destruct (tick_playing M w now rnd i s Hg Hshop) as (_ & Hscore & Hhp & _).
      destruct (tick_fields w now rnd i s Hg Hshop) as (Hpu & _).
      destruct (untilShieldCheck_frame w now rnd i s) as (Hfp & _ & Hfh & Hfs & _).
      cbv zeta in *. destruct IH as (H200 & H100 & Hsc & Hfr & Hhb).
      unfold shielded. rewrite Hscore, Hhp, Hpu, Hfp. cbn [fireRate hpBoost].
      set (hits := f_shieldHp (fst (untilShieldCheck M w now s rnd i))) in *.
      unfold BASE_SHIELD_MAX_HP, POWERUP_DURATION in *.
      destruct ((0 <? hpBoost (powerUps s))%Z && (hpBoost (powerUps s) - 1 <=? 0)%Z) eqn:Ej.
      * apply andb_true_iff in Ej. destruct Ej as [E1 E2].
        apply Z.ltb_lt in E1. apply Z.leb_le in E2.
        destruct (hits <=? 0)%Z eqn:E; [apply Z.leb_le in E | apply Z.leb_gt in E]; lia.
      * assert (Hcase : (hpBoost (powerUps s) <= 0 \/ 1 < hpBoost (powerUps s))%Z).
        { apply andb_false_iff in Ej. destruct Ej as [E1 | E2].
          - apply Z.ltb_ge in E1. lia.
          - apply Z.leb_gt in E2. lia. }
        destruct (hits <=? 0)%Z eqn:E; [apply Z.leb_le in E | apply Z.leb_gt in E]; lia.
  - destruct IH as (H200 & H100 & Hsc & Hfr & Hhb).
    unfold buyFireRate. destruct (_ && _) eqn:E.
    + apply andb_true_iff in E. destruct E as [E _]. apply andb_true_iff in E.
      destruct E as [_ E]. apply Z.leb_le in E.
      unfold shielded, FIRE_RATE_COST, POWERUP_DURATION in *. cbn. lia.
    + repeat split; try assumption; lia.
  - destruct IH as (H200 & H100 & Hsc & Hfr & Hhb).
    unfold buyHpBoost. destruct (_ && _) eqn:E.
    + apply andb_true_iff in E. destruct E as [E _]. apply andb_true_iff in E.
      destruct E as [_ E]. apply Z.leb_le in E.
      unfold shielded, HP_BOOST_COST, POWERUP_DURATION, BASE_SHIELD_MAX_HP in *. cbn. lia.
    + repeat split; try assumption; lia.
  - destruct inp; exact IH.
Qed.

(** X15.  The shield never holds more than its capacity.  In every state a
    session can reach, the shield's hit points are at most the capacity
    shown with them (200 while the hit-point boost runs, 100 otherwise), and
    both power-up timers are between 0 and 1200 ticks. *)
Theorem X15_shooter_shield_within_capacity (s : GameState) :
  reachable M s ->
  (shieldHp s <= currentMaxHp s)%Z /\
  (0 <= fireRate (powerUps s) <= POWERUP_DURATION)%Z /\
  (0 <= hpBoost (powerUps s) <= POWERUP_DURATION)%Z.
Proof.
  intros Hs. destruct (reachable_shielded s Hs) as (H200 & H100 & _ & Hfr & Hhb).
  split; [|split; assumption].
  unfold currentMaxHp. destruct (0 <? hpBoost (powerUps s))%Z eqn:E; [exact H200|].
  apply H100. apply Z.ltb_ge in E. exact E.
Qed.

(** X16.  The shop never overdraws and never charges twice.  A purchase
    that goes through takes its price off a score that covers it, starts
    the 1200-tick timer and closes the shop; buying the same power-up again
    right away changes nothing; the fire-rate purchase leaves the shield as
    it is and the hit-point purchase sets it to 200.  No tick lowers the
    score, and the score of a reachable state is never negative. *)
Theorem X16_shooter_shop_never_overdraws :
  (forall s, buyFireRate (buyFireRate s) = buyFireRate s /\
             buyHpBoost (buyHpBoost s) = buyHpBoost s) /\
  (forall s, buyFireRate s = s \/
             ((FIRE_RATE_COST <= score s)%Z /\
              score (buyFireRate s) = (score s - FIRE_RATE_COST)%Z /\
              fireRate (powerUps (buyFireRate s)) = POWERUP_DURATION /\
              shieldHp (buyFireRate s) = shieldHp s /\
              isShopOpen (buyFireRate s) = false)) /\
  (forall s, buyHpBoost s = s \/
             ((HP_BOOST_COST <= score s)%Z /\
              score (buyHpBoost s) = (score s - HP_BOOST_COST)%Z /\
              hpBoost (powerUps (buyHpBoost s)) = POWERUP_DURATION /\
              shieldHp (buyHpBoost s) = 200%Z /\
              isShopOpen (buyHpBoost s) = false)) /\
  (forall w now rnd i s, (score s <= score (tick M w now rnd i s))%Z) /\
  (forall s, reachable M s -> (0 <= score s)%Z).
Proof.
  split; [|split; [|split; [|split]]].
  - intros s. split.
    + unfold buyFireRate at 2 3. destruct (_ && _) eqn:E; [|unfold buyFireRate; now rewrite E].
      unfold buyFireRate. cbn [isGameOver score powerUps fireRate].
      replace (POWERUP_DURATION <=? 0)%Z with false by reflexivity.
      now rewrite andb_false_r.
    + unfold buyHpBoost at 2 3. destruct (_ && _) eqn:E; [|unfold buyHpBoost; now rewrite E].
      unfold buyHpBoost. cbn [isGameOver score powerUps hpBoost].
      replace (POWERUP_DURATION <=? 0)%Z with false by reflexivity.
      now rewrite andb_false_r.
  - intros s. unfold buyFireRate. destruct (_ && _) eqn:E; [right | left; reflexivity].
    apply andb_true_iff in E. destruct E as [E _]. apply andb_true_iff in E.
    destruct E as [_ E]. apply Z.leb_le in E. cbn. repeat split; try reflexivity. exact E.
  - intros s. unfold buyHpBoost. destruct (_ && _) eqn:E; [right | left; reflexivity].
    apply andb_true_iff in E. destruct E as [E _]. apply andb_true_iff in E.
    destruct E as [_ E]. apply Z.leb_le in E. cbn. repeat split; try reflexivity. exact E.
  - intros w now rnd i s. destruct (isGameOver s || isShopOpen s) eqn:E.
    + rewrite tick_paused by exact E. lia.
    + apply orb_false_iff in E. destruct E as [Hg Hshop].
      destruct (tick_playing M w now rnd i s Hg Hshop) as (_ & Hscore & _).
      destruct (untilShieldCheck_frame w now rnd i s) as (_ & _ & _ & Hfs & _).
      cbv zeta in *. rewrite Hscore. exact Hfs.
  - intros s Hs. apply (reachable_shielded s Hs).
Qed.

(** X17.  What a tick leaves on the field.  After a tick of a playing state
    (not over, shop closed) every projectile is strictly inside the field,
    every enemy has hit points left, every explosion has time left, the
    game clock is one tick further and both power-up timers are one tick
    down, stopping at 0. *)
Theorem X17_shooter_tick_clears_the_field (w : Weapon) (now : Q) (rnd : nat -> Q) (i : nat)
    (s : GameState) :
  isGameOver s = false -> isShopOpen s = false ->
  let s' := tick M w now rnd i s in
  Forall (fun g => projectileOnField g = true) (projectiles s') /\
  Forall (fun e => (0 < hp e)%Z) (enemies s') /\
  Forall (fun ex => 0 < duration ex) (explosions s') /\
  gameTime s' = (gameTime s + 1)%Z /\
  fireRate (powerUps s') = Z.max 0 (fireRate (powerUps s) - 1) /\
  hpBoost (powerUps s') = Z.max 0 (hpBoost (powerUps s) - 1).
Proof.
  intros Hg Hshop s'.
  destruct (tick_fields w now rnd i s Hg Hshop) as (Hpu & Hps & Hes & Hgt & Hex).
  destruct (untilShieldCheck_frame w now rnd i s) as (Hfp & Hft & _ & _ & Hfps & Hfes).
  cbv zeta in *. unfold s'. rewrite Hps, Hes, Hgt, Hpu, Hfp, Hft.
  split; [exact Hfps|]. split; [|split; [|repeat split]].
  - eapply List.Forall_impl; [|exact Hfes]. intros e He. apply Z.ltb_lt. exact He.
  - eapply List.Forall_impl; [|exact Hex]. intros ex He. apply Qlt_bool_iff. exact He.
Qed.

(** X18.  Weapons are unlocked by the score, for free and for good.  The
    unlock effect on a running game leaves the score as it is, has the
    shotgun unlocked from score 200 and the tri-shot from score 600, never
    takes an unlocked weapon back, and run again on its own result changes
    nothing (the banner is not started twice).  Through unlocks and equips
    the equipped weapon is always an unlocked one. *)
Theorem X18_shooter_weapons_unlock_once :
  (forall a gs,
     let r := unlockEffect a gs in
     score (snd r) = score gs /\ isGameOver (snd r) = isGameOver gs /\
     (purchasedShotgun a = true -> purchasedShotgun (fst r) = true) /\
     (purchasedTrishot a = true -> purchasedTrishot (fst r) = true) /\
     (isGameOver gs = false -> (SHOTGUN_COST <= score gs)%Z ->
      purchasedShotgun (fst r) = true) /\
     (isGameOver gs = false -> (TRISHOT_COST <= score gs)%Z ->
      purchasedTrishot (fst r) = true /\
      (purchasedTrishot a = false -> equippedWeapon (fst r) = trishot)) /\
     unlockEffect (fst r) (snd r) = r) /\
  (forall a, armed a -> isUnlocked a (equippedWeapon a) = true).
Proof.
  split.
  - intros a gs r. unfold r, unlockEffect.
    destruct (isGameOver gs) eqn:Hg.
    { cbn [fst snd]. rewrite Hg. repeat split; auto; discriminate. }
    destruct (SHOTGUN_COST <=? score gs)%Z eqn:E1;
      destruct (purchasedShotgun a) eqn:P1;
      destruct (TRISHOT_COST <=? score gs)%Z eqn:E2;
      destruct (purchasedTrishot a) eqn:P2;
      cbn [andb negb fst snd handle score isGameOver purchasedShotgun purchasedTrishot
           equippedWeapon];
      rewrite ?Hg, ?E1, ?E2, ?P1, ?P2;
      cbn [andb negb fst snd handle score isGameOver purchasedShotgun purchasedTrishot
           equippedWeapon];
      rewrite ?Z.leb_le, ?Z.leb_gt in *;
      unfold SHOTGUN_COST, TRISHOT_COST in *;
      (repeat split; try reflexivity; try discriminate; try (intros; lia)).
  - intros a Ha. induction Ha as [|a gs Ha IH|w a gs Ha IH].
    + reflexivity.
    + unfold unlockEffect. destruct (isGameOver gs); [exact IH|].
      destruct ((SHOTGUN_COST <=? score gs)%Z && negb (purchasedShotgun a));
        destruct ((TRISHOT_COST <=? score gs)%Z && negb (purchasedTrishot a));
        cbn; try reflexivity. exact IH.
    + unfold equipWeapon. destruct (isUnlocked a w) eqn:E; [|exact IH].
      cbn [fst equippedWeapon]. destruct w; cbn in *; auto.
Qed.

End ShooterMore.

Lemma X15_shooter_shield_within_capacity_witness :
  let s := Shooter.buyHpBoost Shooter.createInitialState in
  (Shooter.shieldHp s <= Shooter.currentMaxHp s)%Z /\
  (0 <= Shooter.fireRate (Shooter.powerUps s) <= Shooter.POWERUP_DURATION)%Z /\
  (0 <= Shooter.hpBoost (Shooter.powerUps s) <= Shooter.POWERUP_DURATION)%Z.
Proof.
  intros s. apply (X15_shooter_shield_within_capacity Shooter.noMath).
  apply Shooter.reach_hpBoost. apply Shooter.reach_initial.
Defined.

Lemma X16_shooter_shop_never_overdraws_witness :
  Shooter.score (Shooter.buyHpBoost (Shooter.buyFireRate Shooter.wealthy)) = 0%Z /\
  Shooter.buyFireRate (Shooter.buyFireRate Shooter.wealthy) =
    Shooter.buyFireRate Shooter.wealthy /\
  (0 <= Shooter.score (Shooter.buyFireRate Shooter.createInitialState))%Z.
Proof.
  destruct (X16_shooter_shop_never_overdraws Shooter.noMath) as (Hid & _ & _ & _ & Hpos).
  split; [reflexivity|]. split; [apply Hid|].
  apply Hpos. apply Shooter.reach_fireRate. apply Shooter.reach_initial.
Defined.

Lemma X17_shooter_tick_clears_the_field_witness :
  let s' := Shooter.tick Shooter.noMath Shooter.default 0 (fun _ => 0.5) 0%nat
                         Shooter.lastStand in
  Forall (fun g => Shooter.projectileOnField g = true) (Shooter.projectiles s') /\
  Forall (fun e => (0 < Shooter.hp e)%Z) (Shooter.enemies s') /\
  Forall (fun ex => 0 < Shooter.duration ex) (Shooter.explosions s').
Proof.
  intros s'.
  destruct (X17_shooter_tick_clears_the_field Shooter.noMath Shooter.default 0
              (fun _ => 0.5) 0%nat Shooter.lastStand eq_refl eq_refl)
    as (Hp & He & Hx & _).
  split; [exact Hp|]. split; [exact He | exact Hx].
Defined.

Lemma X18_shooter_weapons_unlock_once_witness :
  let r := Shooter.unlockEffect Shooter.initialArsenal Shooter.wealthy in
  Shooter.purchasedShotgun (fst r) = true /\
  Shooter.score (snd r) = 250%Z /\
  Shooter.isUnlocked (fst r) (Shooter.equippedWeapon (fst r)) = true.
Proof.
  intros r.
  destruct (X18_shooter_weapons_unlock_once) as [Heff Harmed].
  destruct (Heff Shooter.initialArsenal Shooter.wealthy) as (Hs & _ & _ & _ & Hshot & _).
  split; [apply Hshot; [reflexivity | vm_compute; discriminate]|].
  split; [exact Hs|].
  apply Harmed. apply Shooter.armed_unlock. apply Shooter.armed_initial.
Defined.

(** ** Platformer: coins, landing and the end of a level *)

Section PlatformerMore.
Import Platformer.
Variable M : MathLib.

Lemma gameLoop_playing (activeLevel : LevelData) (prev : GameState) :
  status prev = playing ->
  let l := landing activeLevel prev in
  let x1 := nextX prev in
  let y2 := fst (fst l) in
  let jump := (held (keys prev) "ArrowUp" || held (keys prev) " ") && snd l in
  let s' := fst (gameLoop M false activeLevel prev) in
  x (player s') = x1 /\ y (player s') = y2 /\
  vy (player s') = (if jump then JUMP_FORCE else snd (fst l)) /\
  onGround (player s') = snd l /\
  collectedCoins s' =
    fst (collect M x1 y2 (coins activeLevel) 0 (collectedCoins prev, false)) /\
  status s' =
    (if reachesGoal M activeLevel x1 y2 then win
     else if Qlt_bool (GAME_HEIGHT + 50) y2 then lose
     else if existsb (overlaps x1 y2) (hazards activeLevel) then lose
     else playing) /\
  keys s' = keys prev.
Proof.
  intros Hst. cbv zeta. unfold landing, nextX, reachesGoal, gameLoop. rewrite Hst.
  cbn [isPlaying negb orb]. cbv zeta.
  destruct (land _ _ _ _) as [[y2 vy2] g]. cbn [fst snd].
  destruct (_ && g); cbv zeta; destruct (negb _ && g);
    destruct (collect _ _ _ _ _ _) as [got flag]; cbn [fst snd player x y vy onGround
                                                          collectedCoins status keys];
    (repeat split; try reflexivity);
    destruct (Qlt_bool (Math_hypot _ _ _) _); try reflexivity;
    destruct (Qlt_bool (GAME_HEIGHT + 50) y2); try reflexivity.
Qed.

Lemma NoDup_snoc {A : Type} (l : list A) (a : A) :
  List.NoDup l -> ~ In a l -> List.NoDup (l ++ [a]).
Proof.
  induction l as [|b l IH]; intros Hl Ha.
  - constructor; [intros [] | constructor].
  - apply NoDup_cons_iff in Hl. destruct Hl as [Hb Hl]. cbn [app].
    apply NoDup_cons_iff. split.
    + intros Hin. apply in_app_or in Hin. destruct Hin as [Hin | [<- | []]].
      * exact (Hb Hin).
      * apply Ha. left. reflexivity.
    + apply IH; [exact Hl|]. intros Hin. apply Ha. right. exact Hin.
Qed.

Lemma collect_spec (px py : Q) (cs : list (Q * Q)) :
  forall (index : nat) (got : list nat) (flag : bool),
  let r := collect M px py cs index (got, flag) in
  (exists extra, fst r = got ++ extra /\
     Forall (fun k => (index <= k < index + length cs)%nat) extra) /\
  (List.NoDup got -> List.NoDup (fst r)) /\
  (snd r = true <-> flag = true \/ length got < length (fst r))%nat.
Proof.
  induction cs as [|coin rest IH]; intros index got flag; cbv zeta.
  - cbn. split; [exists []; split; [now rewrite app_nil_r | constructor]|].
    split; [auto|]. split; [auto | intros [H|H]; [exact H | lia]].
  - cbn [collect]. cbv zeta. destruct (existsb (Nat.eqb index) got) eqn:Ein.
    + destruct (IH (S index) got flag) as ((extra & He & Hf) & Hnd & Hflag).
      split; [|split; assumption].
      exists extra. split; [exact He|].
      eapply List.Forall_impl; [|exact Hf]. cbn [length]. intros k Hk. lia.
    + assert (Hnotin : ~ In index got).
      { intros Hin. assert (existsb (Nat.eqb index) got = true); [|congruence].
        apply existsb_exists. exists index. split; [exact Hin | apply Nat.eqb_refl]. }
      destruct (Qlt_bool _ _).
      * destruct (IH (S index) (got ++ [index]) true) as ((extra & He & Hf) & Hnd & Hflag).
        split; [|split].
        -- exists (index :: extra). split; [rewrite He, <- app_assoc; reflexivity|].
           constructor; [cbn [length]; lia|].
           eapply List.Forall_impl; [|exact Hf]. cbn [length]. intros k Hk. lia.
        -- intros Hg. apply Hnd. apply NoDup_snoc; assumption.
        -- split; [intros _; right|intros _; apply Hflag; left; reflexivity].
           rewrite He, !length_app. cbn [length]. lia.
      * destruct (IH (S index) got flag) as ((extra & He & Hf) & Hnd & Hflag).
        split; [|split; assumption].
        exists extra. split; [exact He|].
        eapply List.Forall_impl; [|exact Hf]. cbn [length]. intros k Hk. lia.
Qed.

Lemma land_spec (prevY px : Q) (ps : list Rect) :
  forall (acc : Q * Q * bool),
  let r := land prevY px ps acc in
  r = acc \/
  (snd r = true /\ snd (fst r) = 0 /\
   exists p, In p ps /\ fst (fst r) = r_y p - PLAYER_HEIGHT /\
             prevY + PLAYER_HEIGHT <= r_y p).
Proof.
  induction ps as [|p rest IH]; intros [[py pvy] ground]; cbv zeta.
  - left. reflexivity.
  - cbn [land]. destruct (_ && _) eqn:E.
    + right. apply andb_true_iff in E. destruct E as [E _].
      apply andb_true_iff in E. destruct E as [_ E]. apply Qle_bool_iff in E.
      destruct (IH (r_y p - PLAYER_HEIGHT, 0, true)) as [Hsame | (Hg & Hv & q & Hq & Hy & Hab)].
      * cbv zeta in Hsame. rewrite Hsame. cbn [fst snd].
        split; [reflexivity|]. split; [reflexivity|].
        exists p. split; [left; reflexivity|]. split; [reflexivity | exact E].
      * split; [exact Hg|]. split; [exact Hv|].
        exists q. split; [right; exact Hq|]. split; assumption.
    + destruct (IH (py, pvy, ground)) as [Hsame | (Hg & Hv & q & Hq & Hy & Hab)].
      * left. exact Hsame.
      * right. split; [exact Hg|]. split; [exact Hv|].
        exists q. split; [right; exact Hq|]. split; assumption.
Qed.

(** X19.  Each coin counts once.  A tick of a playing level keeps the coins
    collected so far, in their order, and appends indices of coins of that
    level only; if no index was listed twice before, none is after.  In
    every state the game can be in, no coin is listed twice, so the score
    (the length of the list) counts coins. *)
Theorem X19_platformer_coins_count_once :
  (forall activeLevel prev,
     status prev = playing ->
     let s' := fst (gameLoop M false activeLevel prev) in
     (exists extra,
        collectedCoins s' = collectedCoins prev ++ extra /\
        Forall (fun k => (k < length (coins activeLevel))%nat) extra) /\
     (List.NoDup (collectedCoins prev) -> List.NoDup (collectedCoins s'))) /\
  (forall s, reachable M s -> List.NoDup (collectedCoins s)).
Proof.
  assert (Htick : forall activeLevel prev,
            status prev = playing ->
            let s' := fst (gameLoop M false activeLevel prev) in
            (exists extra,
               collectedCoins s' = collectedCoins prev ++ extra /\
               Forall (fun k => (k < length (coins activeLevel))%nat) extra) /\
            (List.NoDup (collectedCoins prev) -> List.NoDup (collectedCoins s'))).
  { intros activeLevel prev Hst s'.
    destruct (gameLoop_playing activeLevel prev Hst) as (_ & _ & _ & _ & Hc & _).
    cbv zeta in Hc. unfold s'. rewrite Hc.
    destruct (collect_spec (nextX prev) (fst (fst (landing activeLevel prev)))
                (coins activeLevel) 0 (collectedCoins prev) false)
      as ((extra & He & Hf) & Hnd & _).
    cbv zeta in He, Hnd. split; [|exact Hnd].
    exists extra. split; [exact He|].
    eapply List.Forall_impl; [|exact Hf]. intros k Hk. cbv beta in Hk. lia. }
  split; [exact Htick|].
  intros s Hs. induction Hs as [level Hin|shop level s Hs IH|key s Hs IH|key s Hs IH|st s Hs IH].
  - constructor.
  - destruct (negb (isPlaying (status s)) || shop) eqn:E.
    + unfold gameLoop. rewrite E. exact IH.
    + apply orb_false_iff in E. destruct E as [E ->].
      apply negb_false_iff in E.
      assert (Hst : status s = playing) by (destruct (status s); try discriminate; reflexivity).
      apply (Htick level s Hst). exact IH.
  - exact IH.
  - exact IH.
  - exact IH.
Qed.

(** X20.  Landing and jumping.  After a tick of a playing level the player
    is on the ground only if it stands exactly on top of a platform of the
    level that was not above its feet before the tick; it leaves the tick
    with the jump velocity only if a jump key is held and it is on the
    ground; and if it is not on the ground it has fallen freely: gravity
    added to the velocity, the velocity added to the height. *)
Theorem X20_platformer_lands_on_platforms (activeLevel : LevelData) (prev : GameState) :
  status prev = playing ->
  let p := player prev in
  let p' := player (fst (gameLoop M false activeLevel prev)) in
  (onGround p' = true ->
   exists pl, In pl (platforms activeLevel) /\
              y p' = r_y pl - PLAYER_HEIGHT /\ y p + PLAYER_HEIGHT <= r_y pl) /\
  (onGround p' = true ->
   vy p' = if held (keys prev) "ArrowUp" || held (keys prev) " " then JUMP_FORCE else 0) /\
  (onGround p' = false ->
   vy p' = vy p + GRAVITY /\ y p' = y p + (vy p + GRAVITY)).
Proof.
  intros Hst p p'.
  destruct (gameLoop_playing activeLevel prev Hst) as (_ & Hy & Hvy & Hg & _).
  cbv zeta in Hy, Hvy, Hg. unfold p', p. rewrite Hy, Hvy, Hg. clear p p'.
  unfold landing.
  destruct (land_spec (y (player prev)) (nextX prev) (platforms activeLevel)
              (y (player prev) + (vy (player prev) + GRAVITY),
               vy (player prev) + GRAVITY, false))
    as [Hsame | (Hground & Hv & pl & Hin & Hyp & Hab)];
    cbv zeta in *.
  - rewrite Hsame. cbn [fst snd]. rewrite andb_false_r.
    split; [discriminate|]. split; [discriminate|]. intros _. split; reflexivity.
  - rewrite Hground, Hv, andb_true_r.
    split; [intros _; exists pl; split; [exact Hin | split; assumption]|].
    split; [intros _; reflexivity | discriminate].
Qed.

(** X21.  How a level ends.  After a tick of a playing level the status is
    [win] exactly when the player reaches the goal, also when it touches a
    hazard or drops out in the same tick; otherwise [lose] exactly when it
    is more than 50 below the bottom edge or overlaps a hazard; otherwise
    still [playing].  A tick never pauses the game or opens the terminal. *)
Theorem X21_platformer_goal_beats_hazard (activeLevel : LevelData) (prev : GameState) :
  status prev = playing ->
  let s' := fst (gameLoop M false activeLevel prev) in
  let px := x (player s') in
  let py := y (player s') in
  (status s' = win <-> reachesGoal M activeLevel px py = true) /\
  (status s' = lose <->
   reachesGoal M activeLevel px py = false /\
   (GAME_HEIGHT + 50 < py \/ existsb (overlaps px py) (hazards activeLevel) = true)) /\
  status s' <> paused /\ status s' <> inTerminal.
Proof.
  intros Hst s' px py.
  destruct (gameLoop_playing activeLevel prev Hst) as (Hx & Hy & _ & _ & _ & Hs & _).
  cbv zeta in Hx, Hy, Hs. unfold px, py, s'. rewrite Hx, Hy, Hs.
  destruct (reachesGoal M activeLevel _ _).
  { split; [tauto|]. split; [|split; discriminate].
    split; [discriminate | intros [H _]; discriminate]. }
  destruct (Qlt_bool (GAME_HEIGHT + 50) _) eqn:E.
  { apply Qlt_bool_iff in E. split; [split; discriminate|].
    split; [|split; discriminate]. split; [intros _; split; [reflexivity | left; exact E] | reflexivity]. }
  apply Qlt_bool_false_iff in E.
  destruct (existsb _ _).
  { split; [split; discriminate|]. split; [|split; discriminate].
    split; [intros _; split; [reflexivity | right; reflexivity] | reflexivity]. }
  split; [split; discriminate|]. split; [|split; discriminate].
  split; [discriminate|]. intros [_ [H | H]]; [lra | discriminate].
Qed.

Lemma levelAt_inside (i : Z) :
  (0 <= i < levels_length)%Z -> exists level, levelAt i = Some level /\ In level levels.
Proof.
  intros Hi. unfold levelAt. destruct (i <? 0)%Z eqn:E; [apply Z.ltb_lt in E; lia|].
  destruct (nth_error levels (Z.to_nat i)) as [level|] eqn:En.
  - exists level. split; [reflexivity|]. apply (nth_error_In _ _ En).
  - apply nth_error_None in En. unfold levels_length in Hi. lia.
Qed.

Lemma loadLevel_inside (i : Z) :
  (0 <= i < levels_length)%Z -> exists gs, loadLevel i = Some gs.
Proof.
  intros Hi. destruct (levelAt_inside i Hi) as (level & Hl & _).
  unfold loadLevel. rewrite Hl. eexists. reflexivity.
Qed.

Lemma sameSkin_iff (a b : CharacterSkin) : sameSkin a b = true <-> a = b.
Proof. destruct a, b; cbn; split; congruence. Qed.

Lemma includes_iff (skin : CharacterSkin) (l : list CharacterSkin) :
  existsb (sameSkin skin) l = true <-> In skin l.
Proof.
  rewrite existsb_exists. split.
  - intros (k & Hk & He). apply sameSkin_iff in He. subst k. exact Hk.
  - intros H. exists skin. split; [exact H | apply sameSkin_iff; reflexivity].
Qed.

Ltac four_parts :=
  unfold inOrder; cbn [currentLevel totalCoins unlockedSkins equippedSkin withGame];
  split; [|split; [|split]].

Lemma run_inOrder (c : Command) (p : Progress) :
  inOrder p -> exists p', run M c p = Some p' /\ inOrder p'.
Proof.
  intros (Hlv & Hco & Heq & Hnd).
  assert (Hlen : levels_length = 15%Z) by reflexivity.
  destruct c as [|down key| | |atmCode| | |skin|skin|open]; cbn [run].
  - unfold tickProgress. destruct (_ || _); [exists p; split; [reflexivity|]; four_parts; assumption|].
    destruct (levelAt_inside _ Hlv) as (level & -> & _).
    eexists. split; [reflexivity|]. four_parts; assumption.
  - destruct down; eexists; (split; [reflexivity|]); four_parts; assumption.
  - unfold nextLevelAfterWin.
    destruct (status (gameState p)); try (exists p; split; [reflexivity|]; four_parts; assumption).
    destruct (currentLevel p =? levels_length - 1)%Z eqn:E;
      [exists p; split; [reflexivity|]; four_parts; assumption|].
    apply Z.eqb_neq in E.
    destruct (loadLevel_inside (currentLevel p + 1)) as [gs ->]; [lia|].
    eexists. split; [reflexivity|]. unfold inOrder.
    cbn [currentLevel totalCoins unlockedSkins equippedSkin]. four_parts; try assumption; lia.
  - unfold handleSkipLevel. destruct (_ && _) eqn:E; [|exists p; split; [reflexivity|]; four_parts; assumption].
    apply andb_true_iff in E. destruct E as [E1 E2].
    apply Z.leb_le in E1. apply Z.ltb_lt in E2.
    destruct (loadLevel_inside (currentLevel p + 1)) as [gs ->]; [lia|].
    eexists. split; [reflexivity|]. unfold inOrder, SKIP_COST in *.
    cbn [currentLevel totalCoins unlockedSkins equippedSkin]. four_parts; try assumption; lia.
  - eexists. split; [reflexivity|]. unfold handleAtmSubmit.
    destruct (String.eqb atmCode "2011"); unfold inOrder; cbn; four_parts; try assumption; lia.
  - unfold resetGameAndProgress. destruct (loadLevel_inside 0) as [gs ->]; [lia|].
    eexists. split; [reflexivity|]. unfold inOrder.
    cbn [currentLevel totalCoins unlockedSkins equippedSkin]. four_parts; try assumption; lia.
  - unfold restartCurrentLevel. destruct (loadLevel_inside _ Hlv) as [gs ->].
    eexists. split; [reflexivity|]. four_parts; assumption.
  - eexists. split; [reflexivity|]. unfold handleBuySkin.
    destruct (_ && _) eqn:E; [|four_parts; assumption].
    apply andb_true_iff in E. destruct E as [E1 E2]. apply Z.leb_le in E1.
    apply negb_true_iff in E2.
    assert (Hnew : ~ In skin (unlockedSkins p)).
    { intros Hin. apply includes_iff in Hin. congruence. }
    unfold inOrder. cbn [currentLevel totalCoins unlockedSkins equippedSkin].
    split; [exact Hlv|]. split; [lia|]. split.
    + apply in_or_app. right. left. reflexivity.
    + apply NoDup_snoc; assumption.
  - eexists. split; [reflexivity|]. unfold handleEquipSkin.
    destruct (existsb _ _) eqn:E; [|four_parts; assumption].
    apply includes_iff in E. four_parts; assumption.
  - eexists. split; [reflexivity|]. four_parts; assumption.
Qed.

(** X22.  The progress stays in order and no level access goes out of
    range.  Mounting on a store whose level entry is missing, not a number,
    or a non-negative number, with non-negative coins and no skins stored,
    gives a component whose level exists (a stored level past the last one
    falls back to 0), while a negative stored level passes the bound check
    and makes [createInitialState] throw.  From a component in order, every
    sequence of ticks, key events, win timers, skips, ATM codes, resets,
    retries, skin purchases at the listed price and equips runs through
    without an undefined level, and leaves the level inside the array, the
    coins non-negative, and the equipped skin among the unlocked ones, none
    of which is listed twice. *)
Theorem X22_platformer_progress_stays_in_order :
  (forall savedLevel savedCoins,
     match savedLevel with Some (Int n) => (0 <= n)%Z | _ => True end ->
     (0 <= savedCoins)%Z ->
     exists p, mount savedLevel savedCoins None None = Some p /\ inOrder p) /\
  (forall n savedCoins savedSkins savedSkin,
     (n < 0)%Z -> mount (Some (Int n)) savedCoins savedSkins savedSkin = None) /\
  (forall cs p, inOrder p -> exists p', runAll M cs p = Some p' /\ inOrder p').
Proof.
  assert (Hlen : levels_length = 15%Z) by reflexivity.
  split; [|split].
  - intros savedLevel savedCoins Hsaved Hcoins. unfold mount.
    assert (Hlv : (0 <= initialLevel savedLevel < levels_length)%Z).
    { unfold initialLevel. destruct savedLevel as [[|n]|]; try lia.
      destruct (n <? levels_length)%Z eqn:E; [apply Z.ltb_lt in E|]; lia. }
    destruct (loadLevel_inside _ Hlv) as [gs ->].
    eexists. split; [reflexivity|]. unfold inOrder.
    cbn [currentLevel totalCoins unlockedSkins equippedSkin].
    split; [exact Hlv|]. split; [exact Hcoins|]. split; [left; reflexivity|].
    constructor; [intros [] | constructor].
  - intros n savedCoins savedSkins savedSkin Hn. unfold mount, initialLevel.
    replace (n <? levels_length)%Z with true by (symmetry; apply Z.ltb_lt; lia).
    unfold loadLevel, levelAt.
    replace (n <? 0)%Z with true by (symmetry; apply Z.ltb_lt; lia). reflexivity.
  - intros cs. induction cs as [|c rest IH]; intros p Hp.
    + exists p. split; [reflexivity | exact Hp].
    + cbn [runAll]. destruct (run_inOrder c p Hp) as (p1 & -> & Hp1).
      apply IH. exact Hp1.
Qed.

End PlatformerMore.

Lemma X19_platformer_coins_count_once_witness :
  let s' := fst (Platformer.gameLoop Shooter.noMath false Platformer.firstLevel
                   Platformer.readyToJump) in
  List.NoDup (Platformer.collectedCoins s') /\
  List.NoDup (Platformer.collectedCoins
                (Platformer.handleKeyPress "ArrowUp"
                   (Platformer.createInitialState Platformer.firstLevel))).
Proof.
  intros s'.
  destruct (X19_platformer_coins_count_once Shooter.noMath) as [Htick Hreach].
  split.
  - apply (Htick Platformer.firstLevel Platformer.readyToJump eq_refl).
    repeat constructor. intros [].
  - apply Hreach. apply Platformer.reach_press. apply Platformer.reach_load.
    left. reflexivity.
Defined.

Lemma X20_platformer_lands_on_platforms_witness :
  let p' := Platformer.player
              (fst (Platformer.gameLoop Shooter.noMath false Platformer.firstLevel
                      Platformer.readyToJump)) in
  Platformer.onGround p' = true /\ Platformer.vy p' = Platformer.JUMP_FORCE.
Proof.
  intros p'.
  destruct (X20_platformer_lands_on_platforms Shooter.noMath Platformer.firstLevel
              Platformer.readyToJump eq_refl) as (_ & Hjump & _).
  assert (Hg : Platformer.onGround p' = true) by reflexivity.
  split; [exact Hg | exact (Hjump Hg)].
Defined.

Lemma X21_platformer_goal_beats_hazard_witness :
  let s' := fst (Platformer.gameLoop Shooter.noMath false Platformer.firstLevel
                   Platformer.readyToJump) in
  Platformer.status s' = Platformer.win.
Proof.
  intros s'.
  destruct (X21_platformer_goal_beats_hazard Shooter.noMath Platformer.firstLevel
              Platformer.readyToJump eq_refl) as (Hwin & _).
  apply Hwin. reflexivity.
Defined.

Lemma X22_platformer_progress_stays_in_order_witness :
  exists p p',
    Platformer.firstVisit = Some p /\
    Platformer.runAll Shooter.noMath
      [Platformer.Buy Platformer.glitchSkin; Platformer.Skip; Platformer.Buy Platformer.glitchSkin;
       Platformer.Frame] p = Some p' /\
    Platformer.inOrder p'.
Proof.
  destruct (X22_platformer_progress_stays_in_order Shooter.noMath) as (Hmount & _ & Hrun).
  destruct (Hmount None 60%Z I) as (p & Hp & Hord); [lia|].
  exists p.
  destruct (Hrun [Platformer.Buy Platformer.glitchSkin; Platformer.Skip;
                  Platformer.Buy Platformer.glitchSkin; Platformer.Frame] p Hord)
    as (p' & Hp' & Hord').
  exists p'. split; [exact Hp|]. split; [exact Hp' | exact Hord'].
Defined.

(** ** Racing: crashes, lanes and speed *)

Section RacingMore.
Import Racing.

Lemma safeOpponents_clear (os : list Car) :
  Forall (fun o => forall playerX, crash playerX o = false) (safeOpponents os).
Proof.
  apply List.Forall_forall. intros o Ho playerX. unfold safeOpponents in Ho.
  apply filter_In in Ho. destruct Ho as [_ Hfar]. apply Qlt_bool_iff in Hfar.
  apply not_true_is_false. intros Hc. unfold crash in Hc.
  rewrite !andb_true_iff, !Qlt_bool_iff in Hc. destruct Hc as [[[_ _] H1] H2].
  unfold Math_abs, PLAYER_CAR_HEIGHT, OPPONENT_CAR_HEIGHT in *.
  revert Hfar. apply Qabs_case; intros; lra.
Qed.

(** X23.  What a crash costs.  A crash is found only while the player is
    not invincible.  When the last life goes, the game is over and the
    lives stay at the value they had; otherwise one life goes, 180 ticks of
    invincibility start, and of the moved cars only those more than 175
    away from the player's row are kept, none of which can hit the player
    in any lane.  Either way the lane and the score are those before the
    tick: a buffered lane change is not applied. *)
Theorem X23_racing_crash_clears_the_road (now : Q) (prev : GameState) (playerX : Q)
    (newOpponents : list Car) (activeExplosions : list Explosion) (s' : GameState) :
  afterCrash now prev playerX newOpponents activeExplosions = Some s' ->
  (invincibilityTimer prev <= 0)%Z /\
  existsb (crash playerX) newOpponents = true /\
  playerLane s' = playerLane prev /\ score s' = score prev /\
  length (explosions s') = S (length activeExplosions) /\
  (if (lives prev - 1 <=? 0)%Z
   then isGameOver s' = true /\ lives s' = lives prev /\ opponents s' = opponents prev
   else isGameOver s' = isGameOver prev /\ lives s' = (lives prev - 1)%Z /\
        invincibilityTimer s' = 180%Z /\
        opponents s' = safeOpponents newOpponents /\
        Forall (fun o => forall px, crash px o = false) (opponents s')).
Proof.
  unfold afterCrash. destruct (_ && _) eqn:E; [|discriminate].
  apply andb_true_iff in E. destruct E as [E1 E2]. apply Z.leb_le in E1.
  cbv zeta. destruct (lives prev - 1 <=? 0)%Z; intros [= <-];
    cbn [playerLane score explosions isGameOver lives invincibilityTimer opponents];
    rewrite length_app; cbn [length];
    (split; [exact E1|]; split; [exact E2|]; split; [reflexivity|]; split; [reflexivity|];
     split; [lia|]).
  - repeat split.
  - split; [reflexivity|]. split; [reflexivity|]. split; [reflexivity|].
    split; [reflexivity | apply safeOpponents_clear].
Qed.

Lemma X23_racing_crash_clears_the_road_witness :
  exists s',
    afterCrash 5 tailgating (LANES 1)
      (List.filter (fun o => Qlt_bool (c_y o) GAME_HEIGHT)
                   (List.map moveCar (opponents tailgating))) [] = Some s' /\
    lives s' = 1%Z /\ invincibilityTimer s' = 180%Z /\
    Forall (fun o => forall px, crash px o = false) (opponents s').
Proof.
  destruct (afterCrash 5 tailgating (LANES 1)
              (List.filter (fun o => Qlt_bool (c_y o) GAME_HEIGHT)
                           (List.map moveCar (opponents tailgating))) [])
    as [s'|] eqn:E; [|vm_compute in E; discriminate E].
  exists s'. split; [reflexivity|].
  destruct (X23_racing_crash_clears_the_road 5 tailgating (LANES 1) _ [] s' E)
    as (_ & _ & _ & _ & _ & H).
  change (lives tailgating - 1 <=? 0)%Z with false in H. cbv iota in H.
  destruct H as (_ & Hl & Hi & _ & Hc). split; [exact Hl|]. split; [exact Hi | exact Hc].
Defined.

Definition roadworthy (s : GameState) : Prop :=
  (0 <= playerLane s <= 2)%Z /\ (1 <= lives s <= 3)%Z /\ (0 <= score s)%Z /\
  5 <= gameSpeed s /\ gameSpeed s <= 18 /\ (0 <= invincibilityTimer s <= 180)%Z.

Lemma newGameSpeed_bounds (newScore : Z) :
  (0 <= newScore)%Z ->
  5 <= Math_min 18 (5 + inject_Z (Math_floor (inject_Z newScore / 300))) /\
  Math_min 18 (5 + inject_Z (Math_floor (inject_Z newScore / 300))) <= 18.
Proof.
  intros Hs.
  assert (Hf : (0 <= Math_floor (inject_Z newScore / 300))%Z).
  { unfold Math_floor. change 0%Z with (Qfloor 0). apply Qfloor_resp_le.
    assert (0 <= inject_Z newScore) by (change 0 with (inject_Z 0); rewrite <- Zle_Qle; exact Hs).
    apply Qle_shift_div_l; lra. }
  assert (Hq : 0 <= inject_Z (Math_floor (inject_Z newScore / 300)))
    by (change 0 with (inject_Z 0); rewrite <- Zle_Qle; exact Hf).
  destruct (Math_min_spec 18 (5 + inject_Z (Math_floor (inject_Z newScore / 300))))
    as [[H ->] | [H ->]]; lra.
Qed.

Lemma afterCrash_roadworthy (now : Q) (prev : GameState) (playerX : Q)
    (os : list Car) (exs : list Explosion) (s' : GameState) :
  roadworthy prev -> afterCrash now prev playerX os exs = Some s' -> roadworthy s'.
Proof.
  intros (Hl & Hv & Hs & Hg0 & Hg1 & Hi). unfold afterCrash.
  destruct (_ && _); [|discriminate]. cbv zeta.
  destruct (lives prev - 1 <=? 0)%Z eqn:E; intros [= <-]; unfold roadworthy;
    cbn [playerLane lives score gameSpeed invincibilityTimer].
  - split; [exact Hl|]. split; [exact Hv|]. split; [exact Hs|]. split; [exact Hg0|].
    split; [exact Hg1 | exact Hi].
  - apply Z.leb_gt in E.
    split; [exact Hl|]. split; [lia|]. split; [exact Hs|]. split; [exact Hg0|].
    split; [exact Hg1 | lia].
Qed.

Lemma update_roadworthy (now : Q) (buffered : option LaneChange) (prev : GameState)
    (rnd : nat -> Q) (i : nat) :
  roadworthy prev -> roadworthy (fst (fst (update now buffered prev rnd i))).
Proof.
  intros Hp. pose proof Hp as (Hl & Hv & Hs & Hg0 & Hg1 & Hi).
  unfold update. cbv zeta.
  set (newLane := match buffered with
                  | Some left => Z.max 0 (playerLane prev - 1)
                  | Some right => Z.min 2 (playerLane prev + 1)
                  | None => playerLane prev
                  end).
  assert (Hlane : (0 <= newLane <= 2)%Z) by (unfold newLane; destruct buffered as [[|]|]; lia).
  destruct (gameMode prev) eqn:Hmode.
  - destruct (_ && negb _).
    + unfold ret. cbn [fst]. unfold roadworthy.
      cbn [playerLane lives score gameSpeed invincibilityTimer].
      split; [exact Hl|]. split; [exact Hv|]. split; [exact Hs|]. split; [exact Hg0|].
      split; [exact Hg1 | exact Hi].
    + destruct (afterCrash _ _ _ _ _) as [crashed|] eqn:Ec; unfold ret; cbn [fst].
      * apply (afterCrash_roadworthy _ _ _ _ _ _ Hp Ec).
      * destruct (newGameSpeed_bounds (score prev + 1)) as [Ha Hb]; [lia|].
        unfold roadworthy. cbn [playerLane lives score gameSpeed invincibilityTimer].
        split; [exact Hlane|]. split; [exact Hv|]. split; [lia|]. split; [exact Ha|].
        split; [exact Hb | lia].
  - destruct (tank prev) as [tk0|]; [|exact Hp].
    unfold bind.
    match goal with
    | |- context [let '(_, _) := ?c rnd i in _] => destruct (c rnd i) as [[cd1 os1] j1]
    end.
    destruct (shellsVsTank _ _ _ _ rnd j1) as [[[hp1 rem] exs1] j2].
    destruct (afterCrash _ _ _ _ _) as [crashed|] eqn:Ec.
    + unfold ret. cbn [fst]. apply (afterCrash_roadworthy _ _ _ _ _ _ Hp Ec).
    + destruct (newGameSpeed_bounds (score prev) Hs) as [Ha Hb].
      destruct (hp1 <=? 0)%Z.
      * destruct (tankBurst _ _ _ _ _ rnd j2) as [exs2 j3]. unfold ret. cbn [fst].
        unfold roadworthy. cbn. split; [lia|]. split; [lia|]. split; [lia|].
        split; [exact Ha|]. split; [exact Hb | lia].
      * unfold ret. cbn [fst]. unfold roadworthy.
        cbn [playerLane lives score gameSpeed invincibilityTimer].
        split; [exact Hlane|]. split; [exact Hv|]. split; [exact Hs|]. split; [exact Hg0|].
        split; [exact Hg1 | lia].
Qed.

Lemma reachable_roadworthy (c : Component) : reachable c -> roadworthy (gameState c).
Proof.
  intros H. induction H as [|c Hc IH|now rendered key c Hc IH|now rendered rnd i c Hc IH|
                            c Hc IH|c Hc IH|now rendered rnd i c Hc IH].
  - unfold roadworthy. cbn. repeat (split; try lia; try lra).
  - unfold roadworthy. cbn. repeat (split; try lia; try lra).
  - unfold handleKeyPress. destruct (isGameOver rendered); [exact IH|].
    destruct (String.eqb key "ArrowLeft"); [exact IH|].
    destruct (String.eqb key "ArrowRight"); [exact IH|].
    destruct (_ && _); exact IH.
  - unfold gameLoop. destruct (isGameOver rendered); [exact IH|].
    unfold bind, ret.
    pose proof (update_roadworthy now (laneChangeBuffer c) (gameState c) rnd i IH) as Hu.
    destruct (update now (laneChangeBuffer c) (gameState c) rnd i) as [[st timers] j].
    exact Hu.
  - exact IH.
  - cbn [gameState]. unfold bossFightStart. destruct (_ || _); exact IH.
  - cbn [gameState]. unfold spawnerLoop. destruct (_ || _); [exact IH|].
    unfold bind, random.
    match goal with
    | |- context [let '(_, _) := ?c in _] => destruct c as [os j]
    end.
    exact IH.
Qed.

(** X24.  Lanes, lives and speed of the racing game.  In every component a
    player can bring about the player is in one of the three lanes, so that
    [LANES[playerLane]] is defined; between 1 and 3 lives are shown (the
    last crash ends the game without taking the last life off the
    display); the score is not negative; the speed is between 5 and 18;
    and the invincibility timer is between 0 and 180. *)
Theorem X24_racing_lanes_lives_and_speed (c : Component) :
  reachable c ->
  let s := gameState c in
  (0 <= playerLane s <= 2)%Z /\ (1 <= lives s <= 3)%Z /\ (0 <= score s)%Z /\
  5 <= gameSpeed s /\ gameSpeed s <= 18 /\ (0 <= invincibilityTimer s <= 180)%Z.
Proof.
  intros H. exact (reachable_roadworthy c H).
Qed.

Lemma X24_racing_lanes_lives_and_speed_witness :
  let c := fst (fst (gameLoop 5 createInitialState
                       (handleKeyPress 4 createInitialState "ArrowRight"
                          {| gameState := createInitialState; laneChangeBuffer := None |})
                       (fun _ => 0.5) 0%nat)) in
  let s := gameState c in
  (0 <= playerLane s <= 2)%Z /\ (1 <= lives s <= 3)%Z /\ (0 <= score s)%Z /\
  5 <= gameSpeed s /\ gameSpeed s <= 18 /\ (0 <= invincibilityTimer s <= 180)%Z.
Proof.
  intros c. apply X24_racing_lanes_lives_and_speed.
  apply reach_tick. apply reach_key. apply reach_mount.
Defined.

End RacingMore.

(** ** Calculator: what is shown, what is evaluated, what is opened *)

Section CalculatorFacts.
Import Stdlib.Strings.Ascii.
Import Calculator.

Lemma append_assoc (a b c : string) :
  String.append (String.append a b) c = String.append a (String.append b c).
Proof.
  induction a as [|x a IH]; [reflexivity|].
  change (String x (String.append (String.append a b) c) =
          String x (String.append a (String.append b c))).
  f_equal. exact IH.
Qed.

Lemma append_nil_l (s : string) : String.append EmptyString s = s.
Proof. reflexivity. Qed.

Lemma append_cons (b : ascii) (s t : string) :
  String.append (String b s) t = String b (String.append s t).
Proof. reflexivity. Qed.

Definition shadows (c : State) : Prop :=
  exists prefix, In prefix [EmptyString; "0"%string; "Error"%string] /\
                 display c = String.append prefix (expression c).

Lemma press_shadows (evaluate : string -> option string) (b : Button) (c : State) :
  shadows c -> shadows (fst (press evaluate b c)).
Proof.
  intros (prefix & Hin & Hd).
  assert (Hfresh : forall s, shadows {| display := s; expression := s |}).
  { intros s. exists EmptyString. split; [left; reflexivity | reflexivity]. }
  assert (Happ : forall s, shadows {| display := String.append (display c) s;
                                      expression := String.append (expression c) s |}).
  { intros s. exists prefix. split; [exact Hin|]. cbn [display expression].
    rewrite Hd. apply append_assoc. }
  destruct b as [d|o| | |]; cbn [press fst].
  - unfold handleNumberClick. destruct (String.eqb (display c) "Error"); [apply Hfresh|].
    destruct (_ && _); [apply Hfresh | apply Happ].
  - unfold handleOperatorClick.
    destruct (String.eqb (display c) "Error"); [exists prefix; auto | apply Happ].
  - unfold handleEquals. destruct (secretCode (display c)); [exists prefix; auto|].
    destruct (evaluate (expression c)); cbn [fst]; [apply Hfresh|].
    exists "Error"%string. split; [right; right; left; reflexivity | reflexivity].
  - exists "0"%string. split; [right; left; reflexivity | reflexivity].
  - unfold handleDecimal. cbv zeta. destruct (negb _); [apply Happ | exists prefix; auto].
Qed.

(** X25.  The display is the expression behind a prefix.  Whatever keys
    are pressed and whatever the evaluations return, the display is the
    expression itself, or the expression after a leading "0" (the one shown
    by a cleared calculator, which is not part of the expression), or the
    word "Error" followed by the expression. *)
Theorem X25_calculator_display_shadows_expression
    (evaluate : string -> option string) (bs : list Button) :
  let c := typeKeys evaluate bs initial in
  exists prefix, In prefix [EmptyString; "0"%string; "Error"%string] /\
                 display c = String.append prefix (expression c).
Proof.
  cbv zeta. unfold typeKeys.
  assert (H : forall c, shadows c ->
                        shadows (fold_left (fun st b => fst (press evaluate b st)) bs c)).
  { induction bs as [|b rest IH]; intros c Hc; [exact Hc|].
    cbn [fold_left]. apply IH. apply press_shadows. exact Hc. }
  apply H. exists "0"%string. split; [right; left; reflexivity | reflexivity].
Qed.

Lemma split_nonempty (s : string) : split s <> [].
Proof.
  destruct s as [|a s]; cbn; [discriminate|].
  destruct (isOperator a); [discriminate|]. destruct (split s); discriminate.
Qed.

Lemma split_snoc_operator (s : string) (a : ascii) :
  isOperator a = true ->
  split (String.append s (String a EmptyString)) = split s ++ [EmptyString].
Proof.
  intros Ha. induction s as [|b s IH]; rewrite ?append_nil_l, ?append_cons; cbn [split].
  - rewrite Ha. reflexivity.
  - rewrite IH. destruct (isOperator b); [reflexivity|].
    destruct (split s) as [|p ps] eqn:E; [exfalso; exact (split_nonempty s E) | reflexivity].
Qed.

Lemma split_snoc_plain (s : string) (a : ascii) :
  isOperator a = false ->
  split (String.append s (String a EmptyString)) =
  List.removelast (split s) ++
  [String.append (List.last (split s) EmptyString) (String a EmptyString)].
Proof.
  intros Ha. induction s as [|b s IH]; rewrite ?append_nil_l, ?append_cons; cbn [split].
  - rewrite Ha. reflexivity.
  - rewrite IH. destruct (split s) as [|p ps] eqn:E; [exfalso; exact (split_nonempty s E)|].
    destruct (isOperator b).
    + change (List.removelast (EmptyString :: p :: ps))
        with (EmptyString :: List.removelast (p :: ps)).
      change (List.last (EmptyString :: p :: ps) EmptyString)
        with (List.last (p :: ps) EmptyString).
      reflexivity.
    + destruct ps as [|q qs]; [reflexivity|].
      change (List.removelast (p :: q :: qs)) with (p :: List.removelast (q :: qs)).
      change (List.removelast (String b p :: q :: qs))
        with (String b p :: List.removelast (q :: qs)).
      change (List.last (p :: q :: qs) EmptyString) with (List.last (q :: qs) EmptyString).
      change (List.last (String b p :: q :: qs) EmptyString)
        with (List.last (q :: qs) EmptyString).
      reflexivity.
Qed.

Lemma dots_snoc (p : string) (a : ascii) :
  dots (String.append p (String a EmptyString)) =
  (dots p + if Ascii.eqb a "."%char then 1 else 0)%nat.
Proof.
  induction p as [|b p IH]; rewrite ?append_nil_l, ?append_cons; cbn [dots];
    [lia | rewrite IH; lia].
Qed.

Definition dotted (s : string) : Prop := Forall (fun part => (dots part <= 1)%nat) (split s).

Lemma last_in_split (s : string) : In (List.last (split s) EmptyString) (split s).
Proof.
  pose proof (split_nonempty s) as Hne.
  destruct (exists_last Hne) as (l & part & E). rewrite E, last_last.
  apply in_or_app. right. left. reflexivity.
Qed.

Lemma dotted_snoc_plain (s : string) (a : ascii) :
  isOperator a = false ->
  (dots (List.last (split s) EmptyString) + (if Ascii.eqb a "."%char then 1 else 0) <= 1)%nat ->
  dotted s -> dotted (String.append s (String a EmptyString)).
Proof.
  intros Ha Hlast Hs. unfold dotted. rewrite (split_snoc_plain s a Ha).
  apply Forall_app. split; [apply Forall_removelast; exact Hs|].
  constructor; [|constructor]. rewrite dots_snoc. exact Hlast.
Qed.

Lemma press_dotted (evaluate : string -> option string) (b : Button) (c : State) :
  (forall e r, evaluate e = Some r -> dotted r) ->
  dotted (display c) -> dotted (display (fst (press evaluate b c))).
Proof.
  intros Hev Hc.
  assert (Hlast : (dots (List.last (split (display c)) EmptyString) <= 1)%nat).
  { apply (proj1 (List.Forall_forall _ _) Hc). apply last_in_split. }
  destruct b as [d|o| | |]; cbn [press fst].
  - assert (Hkey : exists a, digitKey d = String a EmptyString /\ isOperator a = false /\
                             Ascii.eqb a "."%char = false)
      by (destruct d; eexists; repeat split).
    destruct Hkey as (a & Hk & Hop & Hdot).
    assert (Hfresh : dotted (digitKey d)) by (destruct d; repeat constructor).
    unfold handleNumberClick. destruct (String.eqb (display c) "Error"); [exact Hfresh|].
    destruct (_ && _); [exact Hfresh|]. cbn [display]. rewrite Hk.
    apply dotted_snoc_plain; [exact Hop | rewrite Hdot; lia | exact Hc].
  - unfold handleOperatorClick. destruct (String.eqb (display c) "Error"); [exact Hc|].
    cbn [display].
    assert (Hkey : exists a, operatorKey o = String a EmptyString /\ isOperator a = true)
      by (destruct o; eexists; split; reflexivity).
    destruct Hkey as (a & -> & Hop). unfold dotted. rewrite (split_snoc_operator _ _ Hop).
    apply Forall_app. split; [exact Hc | repeat constructor].
  - unfold handleEquals. destruct (secretCode (display c)); [exact Hc|].
    destruct (evaluate (expression c)) as [r|] eqn:E; cbn [fst display].
    + apply (Hev _ _ E).
    + repeat constructor.
  - repeat constructor.
  - unfold handleDecimal. cbv zeta. destruct (negb _) eqn:E; [|exact Hc].
    cbn [display]. apply dotted_snoc_plain; [reflexivity | | exact Hc].
    unfold includesDot in E. rewrite negb_involutive in E. apply Nat.eqb_eq in E.
    rewrite E. cbn. lia.
Qed.

(** X26.  No operand gets a second decimal point.  If the evaluations only
    return strings of which every part between operator signs has at most
    one point, then whatever keys of the pad are pressed, every part of the
    display has at most one point; and pressing the point key twice in a
    row is the same as pressing it once. *)
Theorem X26_calculator_one_point_per_operand
    (evaluate : string -> option string) (bs : list Button) :
  (forall e r, evaluate e = Some r -> Forall (fun part => (dots part <= 1)%nat) (split r)) ->
  let c := typeKeys evaluate bs initial in
  Forall (fun part => (dots part <= 1)%nat) (split (display c)) /\
  handleDecimal (handleDecimal c) = handleDecimal c.
Proof.
  intros Hev. cbv zeta. split.
  - unfold typeKeys.
    assert (H : forall c, dotted (display c) ->
              dotted (display (fold_left (fun st b => fst (press evaluate b st)) bs c))).
    { induction bs as [|b rest IH]; intros c Hc; [exact Hc|].
      cbn [fold_left]. apply IH. apply press_dotted; assumption. }
    apply H. repeat constructor.
  - set (c := typeKeys evaluate bs initial).
    unfold handleDecimal at 2 3. cbv zeta. destruct (negb _) eqn:E.
    + unfold handleDecimal. cbv zeta. cbn [display].
      rewrite (split_snoc_plain (display c) "."%char eq_refl), last_last.
      unfold includesDot. rewrite dots_snoc. cbn [Ascii.eqb].
      replace (dots _ + _ =? 0)%nat with false; [reflexivity|].
      symmetry. apply Nat.eqb_neq. cbn. lia.
    + unfold handleDecimal. cbv zeta. rewrite E. reflexivity.
Qed.

Lemma X26_calculator_one_point_per_operand_witness :
  let c := typeKeys (answering "2.5")
             [Num D3; Decimal; Num D1; Decimal; Op Plus; Decimal; Decimal] initial in
  display c = "3.1+."%string /\
  display (typeKeys (answering "2.5") [Equals; Decimal] c) = "2.5"%string /\
  Forall (fun part => (dots part <= 1)%nat) (split (display c)).
Proof.
  intros c. split; [reflexivity|]. split; [reflexivity|].
  apply (X26_calculator_one_point_per_operand (answering "2.5")
           [Num D3; Decimal; Num D1; Decimal; Op Plus; Decimal; Decimal]).
  intros e r H. injection H as <-. repeat constructor.
Defined.

(** X27.  The equals key either opens a screen or evaluates, never both.
    When it activates a game the calculator is left as it is and the
    evaluator is not consulted; the game is one of the ten the later copy of
    App.tsx renders, and the card is flipped for it.  When it does not, the
    display is no code and the state is the answer of the evaluator in both
    fields, or "Error" with an empty expression.  App.tsx itself renders
    eight of the ten: for 'social', which the equals key activates on a
    cleared calculator, and for 'marketplace' it flips the card and renders
    nothing. *)
Theorem X27_calculator_equals_opens_or_evaluates :
  (forall evaluate c game,
     snd (handleEquals evaluate c) = Some game ->
     fst (handleEquals evaluate c) = c /\
     secretCode (display c) = Some game /\
     flipped game = true /\
     exists screen, renderGameLater game = Some screen /\
       renderGame game =
         match screen with Marketplace | SocialHub => None | _ => Some screen end) /\
  (forall evaluate c,
     snd (handleEquals evaluate c) = None ->
     secretCode (display c) = None /\
     match evaluate (expression c) with
     | Some r => fst (handleEquals evaluate c) = {| display := r; expression := r |}
     | None => fst (handleEquals evaluate c) = {| display := "Error"; expression := "" |}
     end) /\
  (forall evaluate c,
     handleEquals evaluate (handleClear c) = (initial, Some "social"%string) /\
     renderGame "social" = None /\ renderGameLater "social" = Some SocialHub).
Proof.
  split; [|split].
  - intros evaluate c game. unfold handleEquals.
    destruct (secretCode (display c)) as [g|] eqn:E.
    + cbn [fst snd]. intros [= <-]. split; [reflexivity|]. split; [reflexivity|].
      unfold secretCode in E.
      repeat match type of E with
             | (if ?b then _ else _) = _ =>
                 destruct b; [injection E as <-; split; [reflexivity|]; eexists; split;
                              reflexivity|]
             end.
      discriminate.
    + destruct (evaluate (expression c)); discriminate.
  - intros evaluate c. unfold handleEquals.
    destruct (secretCode (display c)); [discriminate|]. intros _. split; [reflexivity|].
    destruct (evaluate (expression c)); reflexivity.
  - intros evaluate c. repeat split.
Qed.

Lemma X27_calculator_equals_opens_or_evaluates_witness :
  let c := typeKeys (answering "2.5") [Clear; Num D7; Op Plus; Num D7] initial in
  handleEquals (answering "2.5") c = (c, Some "keepup"%string) /\
  renderGame "keepup" = Some KeepUpGame.
Proof.
  intros c.
  destruct X27_calculator_equals_opens_or_evaluates as (Hopen & _ & _).
  destruct (Hopen (answering "2.5") c "keepup"%string eq_refl)
    as (Hsame & _ & _ & screen & Hlater & Hnow).
  split.
  - rewrite (surjective_pairing (handleEquals (answering "2.5") c)), Hsame. reflexivity.
  - rewrite Hnow. injection Hlater as <-. reflexivity.
Defined.

End CalculatorFacts.

(** ** Marketplace: paying, owning, listing *)

Section MarketplaceFacts.
Import Marketplace.

Definition solvent (ls0 : Storage) (w : State * Storage) : Prop :=
  (0 <= balance (fst w) <= KeepUp.getInt (ints ls0) CURRENCY_KEY)%Z /\
  Forall (fun i => (0 <= price i)%Z) (items (fst w)) /\
  KeepUp.getInt (ints (snd w)) CURRENCY_KEY = balance (fst w) /\
  listings (snd w) = Some (items (fst w)).

Lemma reachable_solvent (ls0 : Storage) (w : State * Storage) :
  (0 <= KeepUp.getInt (ints ls0) CURRENCY_KEY)%Z ->
  match listings ls0 with
  | Some l => Forall (fun i => (0 <= price i)%Z) l
  | None => True
  end ->
  reachable ls0 w -> solvent ls0 w.
Proof.
  intros Hcoins Hstored H.
  induction H as [|item [st ls] Hw IH Hin|sellTitle sellPrice sellDesc sellImage priceNum now
                                          [st ls] Hw IH].
  - unfold solvent, mount. cbn [fst snd balance items ints listings].
    split; [lia|]. split; [|split; [reflexivity|]].
    + destruct (listings ls0) as [l|]; [exact Hstored|].
      repeat constructor; discriminate.
    + destruct (listings ls0); reflexivity.
  - destruct IH as (Hb & Hp & Hs & Hl). cbn [fst snd] in *.
    assert (Hprice : (0 <= price item)%Z).
    { unfold offered in Hin. apply filter_In in Hin. destruct Hin as [Hin _].
      apply (proj1 (List.Forall_forall _ _) Hp item Hin). }
    unfold handleBuy. destruct (price item <=? balance st)%Z eqn:E.
    + apply Z.leb_le in E. unfold solvent. cbn [fst snd balance items ints listings].
      split; [lia|]. split; [|split; [|reflexivity]].
      * apply List.Forall_forall. intros i Hi. apply in_map_iff in Hi.
        destruct Hi as (i0 & <- & Hi0).
        pose proof (proj1 (List.Forall_forall _ _) Hp i0 Hi0) as H0.
        unfold markSold. destruct (String.eqb (id i0) (id item)); exact H0.
      * unfold KeepUp.getInt. rewrite lookup_insert_eq. reflexivity.
    + unfold solvent. cbn [fst snd]. repeat split; assumption || lia.
  - destruct IH as (Hb & Hp & Hs & Hl). cbn [fst snd] in *.
    unfold handleListItem. destruct (_ || _);
      [unfold solvent; cbn [fst snd]; repeat split; assumption || lia|].
    destruct priceNum as [|n]; [unfold solvent; cbn [fst snd]; repeat split; assumption || lia|].
    destruct (n <? 0)%Z eqn:E;
      [unfold solvent; cbn [fst snd]; repeat split; assumption || lia|].
    apply Z.ltb_ge in E. unfold solvent. cbn [fst snd balance items ints listings price].
    split; [lia|]. split; [|split; [exact Hs | reflexivity]].
    constructor; [exact E | exact Hp].
Qed.

(** X28.  Paying, owning and listing in the marketplace.  A purchase the
    balance does not cover changes nothing, in the component and in the
    store.  One it covers takes the price off the balance and writes the
    new balance under the key shared with the games, puts the item in front
    of the inventory, and marks as sold every listing with the item's id
    and no other.  Listing an item never changes the balance.  On a store
    with non-negative coins and no listing of negative price, whatever is
    bought from the offers and listed, the balance stays between 0 and the
    coins found at mount, and the store holds the balance and the listings
    the component shows. *)
Theorem X28_marketplace_pays_owns_lists :
  (forall item st ls,
     (balance st < price item)%Z -> handleBuy item (st, ls) = (st, ls)) /\
  (forall item st ls,
     (price item <= balance st)%Z ->
     let w' := handleBuy item (st, ls) in
     balance (fst w') = (balance st - price item)%Z /\
     ints (snd w') !! CURRENCY_KEY = Some (balance st - price item)%Z /\
     inventory (fst w') = item :: inventory st /\
     stock (snd w') = Some (item :: inventory st) /\
     length (items (fst w')) = length (items st) /\
     Forall (fun i => id i = id item -> isSold i = true) (items (fst w')) /\
     (forall i, In i (items st) -> id i <> id item -> In i (items (fst w')))) /\
  (forall sellTitle sellPrice sellDesc sellImage priceNum now w,
     balance (fst (handleListItem sellTitle sellPrice sellDesc sellImage priceNum now w))
       = balance (fst w)) /\
  (forall ls0 w,
     (0 <= KeepUp.getInt (ints ls0) CURRENCY_KEY)%Z ->
     match listings ls0 with
     | Some l => Forall (fun i => (0 <= price i)%Z) l
     | None => True
     end ->
     reachable ls0 w ->
     (0 <= balance (fst w) <= KeepUp.getInt (ints ls0) CURRENCY_KEY)%Z /\
     KeepUp.getInt (ints (snd w)) CURRENCY_KEY = balance (fst w) /\
     listings (snd w) = Some (items (fst w))).
Proof.
  split; [|split; [|split]].
  - intros item st ls H. unfold handleBuy.
    replace (price item <=? balance st)%Z with false; [reflexivity|].
    symmetry. apply Z.leb_gt. exact H.
  - intros item st ls H w'. unfold w', handleBuy.
    replace (price item <=? balance st)%Z with true by (symmetry; apply Z.leb_le; exact H).
    cbn [fst snd balance ints inventory stock items].
    split; [reflexivity|]. split; [apply lookup_insert_eq|]. split; [reflexivity|].
    split; [reflexivity|]. split; [apply length_map|]. split.
    + apply List.Forall_forall. intros i Hi Hid. apply in_map_iff in Hi.
      destruct Hi as (i0 & <- & _). unfold markSold in *.
      destruct (String.eqb (id i0) (id item)) eqn:E; [reflexivity|].
      apply String.eqb_neq in E. contradiction.
    + intros i Hi Hid. apply in_map_iff. exists i. split; [|exact Hi].
      unfold markSold. destruct (String.eqb (id i) (id item)) eqn:E; [|reflexivity].
      apply String.eqb_eq in E. contradiction.
  - intros sellTitle sellPrice sellDesc sellImage priceNum now [st ls].
    unfold handleListItem. destruct (_ || _); [reflexivity|].
    destruct priceNum as [|n]; [reflexivity|]. destruct (n <? 0)%Z; reflexivity.
  - intros ls0 w Hcoins Hstored Hw.
    destruct (reachable_solvent ls0 w Hcoins Hstored Hw) as (Hb & _ & Hs & Hl).
    split; [exact Hb|]. split; assumption.
Qed.

Lemma X28_marketplace_pays_owns_lists_witness :
  let w := handleBuy burger (mount firstVisit) in
  let w' := handleListItem "Hat" "5" "" true (Int 5) "1700000000000" w in
  balance (fst w) = 10%Z /\
  (0 <= balance (fst w') <= 60)%Z /\
  handleBuy (mkItem "def-1" "Glitch Key" "" 500 "System" false) w = w.
Proof.
  intros w w'.
  destruct X28_marketplace_pays_owns_lists as (Hpoor & Hrich & _ & Hreach).
  split; [|split].
  - apply (Hrich burger (fst (mount firstVisit)) (snd (mount firstVisit))). vm_compute.
    discriminate.
  - apply (Hreach firstVisit w'); [vm_compute; discriminate | exact I|].
    apply reach_list. apply reach_buy; [apply reach_mount|].
    unfold offered. apply filter_In. split; [right; left; reflexivity | reflexivity].
  - apply (Hpoor _ (fst w) (snd w)). reflexivity.
Defined.

End MarketplaceFacts.

(** ** The interval hook *)

Section UseIntervalFacts.
Import UseInterval.

(** The hook after a render with [callback] and [delay]: that callback is
    saved, and the page has one interval with that delay when the delay is
    a number, and none when it is [null]. *)
Definition settled (callback : nat) (delay : option Q) (w : Hook * Timers) : Prop :=
  savedCallback (fst w) = Some callback /\ callbackDep (fst w) = Some callback /\
  (exists d, delayDep (fst w) = Some d /\ sameDelay d delay = true) /\
  match delay with
  | None => cleanup (fst w) = None /\ live (snd w) = []
  | Some q => exists id q', cleanup (fst w) = Some id /\ live (snd w) = [(id, q')] /\ q' == q
  end.

Lemma sameDelay_trans (a b c : option Q) :
  sameDelay a b = true -> sameDelay b c = true -> sameDelay a c = true.
Proof.
  destruct a as [x|], b as [y|], c as [z|]; cbn; try discriminate; try reflexivity.
  rewrite !Qeq_bool_iff. intros H1 H2. rewrite H1. exact H2.
Qed.

Lemma sameDelay_refl (a : option Q) : sameDelay a a = true.
Proof. destruct a as [x|]; cbn; [apply Qeq_bool_iff; reflexivity | reflexivity]. Qed.

Lemma sameDelay_sym (a b : option Q) : sameDelay a b = sameDelay b a.
Proof.
  destruct a as [x|], b as [y|]; cbn; try reflexivity.
  destruct (Qeq_bool x y) eqn:E1, (Qeq_bool y x) eqn:E2; try reflexivity.
  - apply Qeq_bool_iff in E1. symmetry in E1. apply Qeq_bool_iff in E1. congruence.
  - apply Qeq_bool_iff in E2. symmetry in E2. apply Qeq_bool_iff in E2. congruence.
Qed.

Lemma render_first (callback : nat) (delay : option Q) :
  settled callback delay (render callback delay (unused, noTimers)).
Proof.
  unfold render, unused, noTimers, settled. cbn.
  destruct delay as [q|]; cbn.
  - split; [reflexivity|]. split; [reflexivity|]. split.
    + eexists. split; [reflexivity|]. apply Qeq_bool_iff. reflexivity.
    + exists 0%nat, q. split; [reflexivity|]. split; reflexivity.
  - split; [reflexivity|]. split; [reflexivity|]. split.
    + eexists. split; reflexivity.
    + split; reflexivity.
Qed.

Lemma render_settled (c0 : nat) (d0 : option Q) (callback : nat) (delay : option Q)
    (w : Hook * Timers) :
  settled c0 d0 w -> settled callback delay (render callback delay w).
Proof.
  destruct w as [h t]. intros (Hs & Hc & (d & Hd & Hdd) & Ht). cbn [fst snd] in *.
  unfold render. rewrite Hc, Hd.
  assert (Hsaved : (if negb (c0 =? callback)%nat then Some callback else savedCallback h)
                   = Some callback).
  { destruct (c0 =? callback)%nat eqn:E; cbn [negb]; [|reflexivity].
    apply Nat.eqb_eq in E. subst c0. exact Hs. }
  destruct (sameDelay d delay) eqn:Esame; cbn [negb].
  - (* the delay is the same dependency: the interval stays *)
    assert (Hd0 : sameDelay d0 delay = true).
    { rewrite sameDelay_sym in Hdd. apply (sameDelay_trans _ _ _ Hdd Esame). }
    unfold settled. cbn [fst snd savedCallback callbackDep delayDep cleanup].
    split; [exact Hsaved|]. split; [reflexivity|]. split; [exists d; split; auto|].
    destruct d0 as [q0|], delay as [q|]; try discriminate.
    + destruct Ht as (id & q' & Hcl & Hl & Hq). exists id, q'.
      split; [exact Hcl|]. split; [exact Hl|].
      cbn in Hd0. apply Qeq_bool_iff in Hd0. rewrite Hq. exact Hd0.
    + exact Ht.
  - (* the delay changed: the old interval is cleared, a new one is set *)
    assert (Hcleared : live (match cleanup h with
                             | Some id => clearInterval id t
                             | None => t
                             end) = []).
    { destruct d0 as [q0|].
      - destruct Ht as (id & q' & -> & Hl & _). unfold clearInterval. cbn [live].
        rewrite Hl. cbn. rewrite Nat.eqb_refl. reflexivity.
      - destruct Ht as [-> Hl]. exact Hl. }
    destruct delay as [q|].
    + unfold setInterval, settled. cbn [fst snd savedCallback callbackDep delayDep cleanup live].
      rewrite Hcleared.
      split; [exact Hsaved|]. split; [reflexivity|]. split.
      * eexists. split; [reflexivity|]. apply sameDelay_refl.
      * eexists. exists q. split; [reflexivity|]. split; reflexivity.
    + unfold settled. cbn [fst snd savedCallback callbackDep delayDep cleanup].
      split; [exact Hsaved|]. split; [reflexivity|]. split.
      * eexists. split; reflexivity.
      * split; [reflexivity | exact Hcleared].
Qed.

Lemma renders_settled (rs : list (nat * option Q)) :
  forall c0 d0 w callback delay,
  settled c0 d0 w ->
  settled callback delay (renders (rs ++ [(callback, delay)]) w).
Proof.
  induction rs as [|[c1 d1] rest IH]; intros c0 d0 w callback delay Hw.
  - cbn. apply (render_settled c0 d0). exact Hw.
  - cbn [app renders fold_left fst snd]. apply (IH c1 d1).
    apply (render_settled c0 d0). exact Hw.
Qed.

(** X29.  One interval at most, and always the latest callback.  After any
    series of renders of a component using the hook, ending with a render
    that passes [callback] and [delay]: if the delay is [null] no interval
    is set, and if it is a number exactly one is, with that delay; whatever
    interval fires, the callback it calls is the one of the last render; a
    render that changes the callback only leaves the interval in place; and
    unmounting leaves no interval behind. *)
Theorem X29_useInterval_one_timer_latest_callback
    (rs : list (nat * option Q)) (callback : nat) (delay : option Q) :
  let w := renders (rs ++ [(callback, delay)]) (unused, noTimers) in
  match delay with
  | None => live (snd w) = []
  | Some q => exists id q', live (snd w) = [(id, q')] /\ q' == q /\
                            fire id w = Some callback
  end /\
  (forall id c, fire id w = Some c -> c = callback) /\
  (forall callback', live (snd (render callback' delay w)) = live (snd w)) /\
  live (snd (unmount w)) = [].
Proof.
  intros w.
  assert (Hw : settled callback delay w).
  { unfold w. destruct rs as [|[c1 d1] rest].
    - cbn. apply render_first.
    - cbn [app renders fold_left fst snd].
      apply (renders_settled rest c1 d1). apply render_first. }
  clearbody w. destruct w as [h t].
  destruct Hw as (Hs & Hc & (d & Hd & Hdd) & Ht). cbn [fst snd] in *.
  split; [|split; [|split]].
  - destruct delay as [q|]; [|apply Ht].
    destruct Ht as (id & q' & Hcl & Hl & Hq). exists id, q'.
    split; [exact Hl|]. split; [exact Hq|].
    unfold fire. rewrite Hl. cbn. rewrite Nat.eqb_refl. exact Hs.
  - intros id c. unfold fire. destruct (existsb _ _); [|discriminate].
    rewrite Hs. intros [= <-]. reflexivity.
  - intros callback'. unfold render. rewrite Hc, Hd, Hdd. cbn [negb]. reflexivity.
  - unfold unmount. destruct delay as [q|].
    + destruct Ht as (id & q' & -> & Hl & _). unfold clearInterval. cbn [snd live].
      rewrite Hl. cbn. rewrite Nat.eqb_refl. reflexivity.
    + destruct Ht as [-> Hl]. exact Hl.
Qed.

End UseIntervalFacts.
